(** * CRM campaign optimisation: the clustering core of [clustering_model.py]

    A shallow embedding of the k-medians engine ([kmedians]), the elbow
    selector ([find_optimal_k]), the cluster ranker ([cluster_mapping]) and
    the reward mapper ([calculate_cb_amount]), with the properties of the
    design document stated and settled against it.

    Numbers are IEEE 754 binary64 values, as numpy's [float64] and Python's
    [float] are: the operations are those of the Standard Library's
    [SpecFloat] at precision 53 and maximal exponent 1024.  What numpy and
    pandas leave to their implementation (the association order of a
    reduction, the median, the tolerance test, the pseudo-random sampler,
    the sorting algorithm) is an interface, [Numpy] and [Pandas] below; the
    theorems hold for every implementation of it that keeps the documented
    contract. *)

From Stdlib Require Import ZArith List Bool Lia Arith PeanoNat.
From Stdlib Require Import QArith Qround Qpower.
From Stdlib Require Import Reals Qreals Lra.
From Stdlib Require Import Permutation Sorting.Sorted.
From Stdlib Require Import Floats.SpecFloat Floats.PrimFloat Floats.FloatOps.
Import ListNotations.

Close Scope Q_scope.

(* ================================================================== *)
(** * Binary64 arithmetic *)
(* ================================================================== *)

Module F64.

Definition prec : Z := 53.
Definition emax : Z := 1024.

Definition float := spec_float.

Definition add : float -> float -> float := SFadd prec emax.
Definition sub : float -> float -> float := SFsub prec emax.
Definition mul : float -> float -> float := SFmul prec emax.
Definition div : float -> float -> float := SFdiv prec emax.
Definition sqrt : float -> float := SFsqrt prec emax.
Definition abs : float -> float := SFabs.
Definition ltb : float -> float -> bool := SFltb.
Definition leb : float -> float -> bool := SFleb.
Definition eqb : float -> float -> bool := SFeqb.

(** Conversion of an integer, correctly rounded ([float(n)]). *)
Definition of_Z (n : Z) : float := binary_normalize prec emax n 0 false.

Definition zero : float := S754_zero false.
Definition nan : float := S754_nan.

Definition is_nan (x : float) : bool :=
  match x with S754_nan => true | _ => false end.

(** A number that is neither an infinity nor a NaN. *)
Definition is_finite (x : float) : bool :=
  match x with S754_zero _ | S754_finite _ _ _ => true | _ => false end.

(** The values the format holds: canonical mantissa, bounded exponent. *)
Definition valid (x : float) : bool := valid_binary prec emax x.

(** The sign bit is clear, or the value is a NaN. *)
Definition nonneg (x : float) : bool :=
  match x with
  | S754_zero s | S754_infinity s | S754_finite s _ _ => negb s
  | S754_nan => true
  end.

(** A zero of either sign, or a NaN. *)
Definition zero_or_nan (x : float) : bool :=
  match x with S754_zero _ | S754_nan => true | _ => false end.

(** The rational a finite value denotes ([0] for the others). *)
Definition to_Q (x : float) : Q :=
  match x with
  | S754_finite s m e =>
      (inject_Z (cond_Zopp s (Zpos m)) * Qpower 2 e)%Q
  | _ => 0%Q
  end.


(** The decimal literals of the source. [0.10] is the binary64 nearest
    to 1/10, which is the correctly rounded quotient of 1 by 10. *)
Definition c0_10 : float := Eval vm_compute in div (of_Z 1) (of_Z 10).
Definition c10_0 : float := Eval vm_compute in of_Z 10.

End F64.

Abbreviation float := F64.float.

(* ================================================================== *)
(** * Exceptions *)
(* ================================================================== *)

Inductive exn : Type := IndexError | ValueError | OverflowError.

Inductive outcome (A : Type) : Type :=
| Ok (a : A)
| Raise (e : exn).

Arguments Ok {A} a.
Arguments Raise {A} e.

Definition bind {A B : Type} (m : outcome A) (f : A -> outcome B) : outcome B :=
  match m with
  | Ok a => f a
  | Raise e => Raise e
  end.

Notation "x <- m ;; k" := (bind m (fun x => k))
  (at level 61, m at next level, right associativity).

Fixpoint mapM {A B : Type} (f : A -> outcome B) (l : list A) : outcome (list B) :=
  match l with
  | [] => Ok []
  | a :: l' => b <- f a ;; bs <- mapM f l' ;; Ok (b :: bs)
  end.

(** [l[i]] of a Python list or of the first axis of an array. *)
Definition getitem {A : Type} (l : list A) (i : nat) : outcome A :=
  match nth_error l i with
  | Some a => Ok a
  | None => Raise IndexError
  end.

(* ================================================================== *)
(** * Arrays and the numpy operations the source calls *)
(* ================================================================== *)

Definition vector := list float.
Definition matrix := list vector.

(** What the source takes from numpy without fixing it: [np.sum] (numpy
    chooses the association order), [np.median], [np.allclose], and the
    global generator with [np.random.seed] and
    [np.random.choice(n, size, replace=False)]. *)
Class Numpy : Type := {
  np_sum : list float -> float;
  np_median : list float -> float;
  np_allclose : matrix -> matrix -> bool;
  rng : Type;
  np_random_seed : Z -> rng;
  np_random_choice : rng -> nat -> nat -> list nat * rng
}.

(** The documented contract of sampling without replacement: [size]
    pairwise distinct positions below [n]. *)
Class NumpyContract (L : Numpy) : Prop := {
  choice_length : forall g n size, (size <= n)%nat ->
    length (fst (np_random_choice g n size)) = size;
  choice_range : forall g n size, (size <= n)%nat ->
    Forall (fun i => (i < n)%nat) (fst (np_random_choice g n size));
  choice_distinct : forall g n size, (size <= n)%nat ->
    NoDup (fst (np_random_choice g n size))
}.

(** [np.argmin] of a one-dimensional array: the first position of the
    minimum; a NaN counts as the minimum. *)
Fixpoint argmin_from (best_i : nat) (best : float) (i : nat) (l : list float) : nat :=
  match l with
  | [] => best_i
  | v :: l' =>
      if F64.is_nan best then best_i
      else if F64.is_nan v || F64.ltb v best
           then argmin_from i v (S i) l'
           else argmin_from best_i best (S i) l'
  end.

Definition np_argmin (l : list float) : outcome nat :=
  match l with
  | [] => Raise ValueError
  | v :: l' => Ok (argmin_from 0 v 1 l')
  end.

(** [np.min] of a one-dimensional array (a NaN propagates). *)
Fixpoint min_from (best : float) (l : list float) : float :=
  match l with
  | [] => best
  | v :: l' =>
      if F64.is_nan best then best
      else if F64.is_nan v || F64.ltb v best
           then min_from v l'
           else min_from best l'
  end.

Definition np_min (l : list float) : outcome float :=
  match l with
  | [] => Raise ValueError
  | v :: l' => Ok (min_from v l')
  end.

Section Engine.

Context {L : Numpy}.

(** One entry of
    [np.abs(X[:, None, :] - medoids[None, :, :]).sum(axis=2)]:
    the L1 distance of a point to a medoid. *)
Definition l1 (x m : vector) : float :=
  np_sum (map (fun p => F64.abs (F64.sub (fst p) (snd p))) (combine x m)).

Definition distances (X medoids : matrix) : list (list float) :=
  map (fun x => map (l1 x) medoids) X.

(** [X[labels == k]] *)
Definition members (X : matrix) (labels : list nat) (k : nat) : matrix :=
  map fst (filter (fun p => Nat.eqb (snd p) k) (combine X labels)).

Definition shape1 (X : matrix) : nat :=
  match X with
  | [] => 0
  | r :: _ => length r
  end.

(** [np.median(M, axis=0)] for an array of [d] columns. *)
Definition median_axis0 (d : nat) (M : matrix) : vector :=
  map (fun c => np_median (map (fun r => nth c r F64.zero) M)) (seq 0 d).

Definition new_medoids (X : matrix) (labels : list nat) (medoids : matrix)
           (n_clusters : nat) : matrix :=
  map (fun k =>
         if existsb (Nat.eqb k) labels
         then median_axis0 (shape1 X) (members X labels k)
         else nth k medoids [])
      (seq 0 n_clusters).

(** The result of [kmedians]: labels, medoids, total cost. *)
Definition clustering : Type := (list nat * matrix * float)%type.

(** The body of the loop up to the convergence test: labels, total cost
    and recomputed medoids of one iteration.  Without a medoid the
    reductions along [axis=1] are over an empty axis, which numpy
    refuses. *)
Definition iteration (X medoids : matrix) (n_clusters : nat)
  : outcome (list nat * float * matrix) :=
  let distances := distances X medoids in
  match medoids with
  | [] => Raise ValueError
  | _ :: _ =>
      labels <- mapM np_argmin distances ;;
      min_distances <- mapM np_min distances ;;
      let total_cost := np_sum min_distances in
      Ok (labels, total_cost, new_medoids X labels medoids n_clusters)
  end.

(** [for _ in range(max_iter)], with the number of remaining rounds as
    the structural argument. *)
Fixpoint kmedians_loop (rounds : nat) (X : matrix) (n_clusters : nat)
         (labels : list nat) (medoids : matrix) (total_cost : float)
  : outcome clustering :=
  match rounds with
  | O => Ok (labels, medoids, total_cost)
  | S rounds' =>
      r <- iteration X medoids n_clusters ;;
      let '(labels', total_cost', new_medoids) := r in
      if np_allclose new_medoids medoids
      then Ok (labels', medoids, total_cost')
      else kmedians_loop rounds' X n_clusters labels' new_medoids total_cost'
  end.

(** [kmedians(X, n_clusters, max_iter, random_state)], run on the
    global generator [g].  The zero labels of [np.zeros] are read as the
    label 0 and the integer cost [0] of the degenerate case as [+0.0]. *)
Definition kmedians (g : rng) (X : matrix) (n_clusters : Z)
           (max_iter : Z) (random_state : Z) : rng * outcome clustering :=
  let g := np_random_seed random_state in
  if (Z.of_nat (length X) <? n_clusters)%Z
  then (g, Ok (repeat 0%nat (length X), [], F64.zero))
  else if (n_clusters <? 0)%Z
  then (g, Raise ValueError)
  else
    let '(medoid_ids, g') :=
      np_random_choice g (length X) (Z.to_nat n_clusters) in
    (g',
     medoids <- mapM (getitem X) medoid_ids ;;
     kmedians_loop (Z.to_nat max_iter) X (Z.to_nat n_clusters)
                   (repeat 0%nat (length X)) medoids F64.zero).

(** The rounds of a run that did not end the loop, oldest first, each
    with the medoids it started from and the labels it assigned:
    [history X k medoids0 rounds medoids] says that, from the medoids
    [medoids0], the rounds [rounds] were executed one after the other,
    none of them recomputing medoids close to the ones it started from,
    and that they left the medoids [medoids]. *)
Inductive history (X : matrix) (n_clusters : nat) (medoids0 : matrix)
  : list (matrix * list nat) -> matrix -> Prop :=
| history_start : history X n_clusters medoids0 [] medoids0
| history_round (rounds : list (matrix * list nat)) (medoids : matrix)
                (labels : list nat) :
    history X n_clusters medoids0 rounds medoids ->
    mapM np_argmin (distances X medoids) = Ok labels ->
    np_allclose (new_medoids X labels medoids n_clusters) medoids = false ->
    history X n_clusters medoids0 (rounds ++ [(medoids, labels)])
            (new_medoids X labels medoids n_clusters).

(* ---------------------------------------------------------------- *)
(** ** The elbow selector *)

(** [list(range(1, max_k + 1))] *)
Definition k_range (max_k : Z) : list Z :=
  map Z.of_nat (seq 1 (Z.to_nat max_k)).

(** The first loop of [find_optimal_k]: one run of the engine per
    candidate, with the default [max_iter=100, random_state=100]. *)
Fixpoint costs (g : rng) (X : matrix) (ks : list Z) : rng * outcome (list float) :=
  match ks with
  | [] => (g, Ok [])
  | k :: ks' =>
      match kmedians g X k 100 100 with
      | (g', Raise e) => (g', Raise e)
      | (g', Ok (_, _, cost)) =>
          match costs g' X ks' with
          | (g'', Raise e) => (g'', Raise e)
          | (g'', Ok cs) => (g'', Ok (cost :: cs))
          end
      end
  end.

End Engine.

(** A point [(k, cost)] of the cost curve, as [np.array([k, cost])]. *)
Definition point : Type := (float * float)%type.

Definition numerator (p1 p2 p0 : point) : float :=
  F64.abs
    (F64.sub
       (F64.add
          (F64.sub (F64.mul (F64.sub (snd p2) (snd p1)) (fst p0))
                   (F64.mul (F64.sub (fst p2) (fst p1)) (snd p0)))
          (F64.mul (fst p2) (snd p1)))
       (F64.mul (snd p2) (fst p1))).

(** [x**2] is the correctly rounded square. *)
Definition denominator (p1 p2 : point) : float :=
  let dy := F64.sub (snd p2) (snd p1) in
  let dx := F64.sub (fst p2) (fst p1) in
  F64.sqrt (F64.add (F64.mul dy dy) (F64.mul dx dx)).

Definition distance (p1 p2 p0 : point) : float :=
  F64.div (numerator p1 p2 p0) (denominator p1 p2).

(** The second loop of [find_optimal_k], over [zip(k_range, costs)],
    carrying [(max_distance, best_k)]. *)
Fixpoint elbow_loop (p1 p2 : point) (curve : list (Z * float))
         (max_distance : float) (best_k : Z) : Z :=
  match curve with
  | [] => best_k
  | (k, cost) :: curve' =>
      let d := distance p1 p2 (F64.of_Z k, cost) in
      if F64.ltb max_distance d
      then elbow_loop p1 p2 curve' d k
      else elbow_loop p1 p2 curve' max_distance best_k
  end.

(** Lines 106 to 121: from the candidates and their costs to [best_k]. *)
Definition elbow (k_range : list Z) (costs : list float) : outcome Z :=
  k_first <- getitem k_range 0 ;;
  c_first <- getitem costs 0 ;;
  k_last <- getitem k_range (length k_range - 1) ;;
  c_last <- getitem costs (length costs - 1) ;;
  let p1 := (F64.of_Z k_first, c_first) in
  let p2 := (F64.of_Z k_last, c_last) in
  Ok (elbow_loop p1 p2 (combine k_range costs) F64.zero k_first).

Definition find_optimal_k {L : Numpy} (g : rng) (X : matrix) (max_k : Z)
  : rng * outcome Z :=
  match costs g X (k_range max_k) with
  | (g', Raise e) => (g', Raise e)
  | (g', Ok cs) => (g', elbow (k_range max_k) cs)
  end.

(* ================================================================== *)
(** * The cluster ranker (section 6.C of the script) *)
(* ================================================================== *)

(** What the source takes from pandas: the mean of a group, and
    [sort_values(by=..., ascending=True)] on the rows [(CLUSTER, mean)],
    called with the default [kind], which pandas documents as not
    stable. *)
Class Pandas : Type := {
  pd_mean : list float -> float;
  pd_sort_values : list (nat * float) -> list (nat * float)
}.

(** Every earlier entry is [<=] every later one. *)
Definition ascending (l : list float) : Prop :=
  forall i j a b, (i < j)%nat ->
    nth_error l i = Some a -> nth_error l j = Some b -> F64.leb a b = true.

(** The documented contract of the sort: the rows are rearranged, and in
    ascending order of the key when no key is a NaN. *)
Class PandasContract (P : Pandas) : Prop := {
  sort_permutation : forall rows, Permutation (pd_sort_values rows) rows;
  sort_ascending : forall rows,
    Forall (fun r => F64.is_nan (snd r) = false) rows ->
    ascending (map snd (pd_sort_values rows))
}.

(** The keys of [groupby("CLUSTER")]: the labels in use, ascending. *)
Definition group_keys (labels : list nat) : list nat :=
  filter (fun c => existsb (Nat.eqb c) labels) (seq 0 (S (list_max labels))).

(** The primary metric of the members of one group, in row order. *)
Definition group_values {K : Type} (same : K -> bool) (labels : list K)
           (metric : list float) : list float :=
  map snd (filter (fun p => same (fst p)) (combine labels metric)).

(** [dict(zip(keys, values))[k]]: the last binding of a key wins. *)
Definition dict_get (d : list (nat * nat)) (k : nat) : option nat :=
  option_map snd (find (fun kv => Nat.eqb (fst kv) k) (rev d)).

Section Ranker.

Context {P : Pandas}.

(** [groupby("CLUSTER")[metric].mean().reset_index()] *)
Definition temp_summary (labels : list nat) (metric : list float)
  : list (nat * float) :=
  map (fun c => (c, pd_mean (group_values (Nat.eqb c) labels metric)))
      (group_keys labels).

(** [dict(zip(temp_summary["CLUSTER"], temp_summary["new_CLUSTER_id"]))]
    after the sort, with [new_CLUSTER_id = index + 1]. *)
Definition cluster_mapping (labels : list nat) (metric : list float)
  : list (nat * nat) :=
  let sorted := pd_sort_values (temp_summary labels metric) in
  combine (map fst sorted) (seq 1 (length sorted)).

(** [user_averages["CLUSTER"].map(cluster_mapping)]; [None] is the NaN
    pandas puts where the dictionary has no entry. *)
Definition relabel (labels : list nat) (metric : list float)
  : list (option nat) :=
  map (dict_get (cluster_mapping labels metric)) labels.

(** One entry of the [cluster_means] of section 6.D: the mean of the
    primary metric over the members of final cluster [i]. *)
Definition cluster_means (final : list (option nat)) (metric : list float)
           (i : nat) : float :=
  pd_mean (group_values
             (fun l => match l with Some c => Nat.eqb c i | None => false end)
             final metric).

End Ranker.

(* ================================================================== *)
(** * The reward mapper *)
(* ================================================================== *)

(** [math.ceil] of a float: the least integer not below it. *)
Definition math_ceil (x : float) : outcome Z :=
  match x with
  | S754_nan => Raise ValueError
  | S754_infinity _ => Raise OverflowError
  | S754_zero _ => Ok 0%Z
  | S754_finite s m e =>
      let n := cond_Zopp s (Zpos m) in
      Ok (if (0 <=? e)%Z then n * 2 ^ e else - ((- n) / 2 ^ (- e)))%Z
  end.

Definition calculate_cb_amount (mean_val : float) : outcome Z :=
  let val_10_percent := F64.mul mean_val F64.c0_10 in
  c <- math_ceil (F64.div val_10_percent F64.c10_0) ;;
  Ok (c * 10)%Z.

(* ================================================================== *)
(** * Reference implementations of the two interfaces *)
(* ================================================================== *)

Module Ref.

(** Left-to-right summation. *)
Definition sum (l : list float) : float :=
  match l with
  | [] => F64.zero
  | x :: l' => fold_left F64.add l' x
  end.

Fixpoint insert (x : float) (l : list float) : list float :=
  match l with
  | [] => [x]
  | y :: l' => if F64.leb x y then x :: l else y :: insert x l'
  end.

Definition sort (l : list float) : list float := fold_right insert [] l.

(** The middle of the sorted values, or the mean of the two middle
    ones; NaN when a value is a NaN or there is none. *)
Definition median (l : list float) : float :=
  if existsb F64.is_nan l then F64.nan
  else
    let s := sort l in
    let n := length s in
    match n with
    | O => F64.nan
    | _ =>
        if Nat.even n
        then F64.div (F64.add (nth (n / 2 - 1) s F64.nan) (nth (n / 2) s F64.nan))
                     (F64.of_Z 2)
        else nth (n / 2) s F64.nan
    end.

Definition rtol : float := Eval vm_compute in F64.div (F64.of_Z 1) (F64.of_Z 100000).
Definition atol : float := Eval vm_compute in F64.div (F64.of_Z 1) (F64.of_Z 100000000).

(** [abs(a - b) <= atol + rtol * abs(b)] with [b] finite, or [a == b]. *)
Definition isclose (a b : float) : bool :=
  (F64.leb (F64.abs (F64.sub a b)) (F64.add atol (F64.mul rtol (F64.abs b)))
   && F64.is_finite b)
  || F64.eqb a b.

Definition allclose (A B : matrix) : bool :=
  forallb (fun rows => forallb (fun ab => isclose (fst ab) (snd ab))
                               (combine (fst rows) (snd rows)))
          (combine A B).

(** A sampler that keeps the contract: a window of consecutive
    positions whose start depends on the state. *)
Definition choice (g : Z) (n size : nat) : list nat * Z :=
  (seq (Z.to_nat (g mod Z.of_nat (S (n - size)))) size, (g + 1)%Z).

#[export] Instance numpy : Numpy := {|
  np_sum := sum;
  np_median := median;
  np_allclose := allclose;
  rng := Z;
  np_random_seed := fun s => s;
  np_random_choice := choice
|}.

(** The mean as the sum divided by the count. *)
Definition mean (l : list float) : float :=
  F64.div (sum l) (F64.of_Z (Z.of_nat (length l))).

(** Insertion sort of the rows on the key; [before] decides whether the
    row goes in front of the one it meets. *)
Fixpoint insert_row (before : float -> float -> bool) (r : nat * float)
         (l : list (nat * float)) : list (nat * float) :=
  match l with
  | [] => [r]
  | y :: l' =>
      if before (snd r) (snd y) then r :: l else y :: insert_row before r l'
  end.

Definition sort_rows (before : float -> float -> bool) (l : list (nat * float))
  : list (nat * float) :=
  fold_right (insert_row before) [] l.

(** With [<=] rows of equal key keep their order: a stable sort. *)
Definition pandas_stable : Pandas := {|
  pd_mean := mean;
  pd_sort_values := sort_rows F64.leb
|}.

(** [sort_values] with its default [kind="quicksort"] sorts by numpy's
    [argsort] of the keys that are numbers, the rows of NaN key coming
    last.  Without vector instructions numpy sorts fewer than 17 keys by
    insertion, which is [pandas_stable].  With them (x86-simd-sort) up
    to four 64-bit keys are sorted in one register by a bitonic network:
    the lanes hold the rows, padded with [+inf], and each step compares
    the two lanes of a pair and exchanges them when the second lane
    holds the smaller key; rows of equal key are not exchanged. *)
Definition lane : Type := option (nat * float).

Definition smaller_key (b a : lane) : bool :=
  match b, a with
  | None, _ => false
  | Some _, None => true
  | Some rb, Some ra => F64.ltb (snd rb) (snd ra)
  end.

Fixpoint set_lane (i : nat) (v : lane) (lanes : list lane) : list lane :=
  match lanes, i with
  | [], _ => []
  | _ :: lanes', O => v :: lanes'
  | a :: lanes', S i' => a :: set_lane i' v lanes'
  end.

Definition compare_exchange (lanes : list lane) (ij : nat * nat) : list lane :=
  let a := nth (fst ij) lanes None in
  let b := nth (snd ij) lanes None in
  if smaller_key b a
  then set_lane (fst ij) b (set_lane (snd ij) a lanes)
  else lanes.

(** The three steps on four lanes: neighbours, mirror images,
    neighbours. *)
Definition network4 : list (nat * nat) :=
  [(0, 1); (2, 3); (0, 3); (1, 2); (0, 1); (2, 3)].

Definition sort_register (rows : list (nat * float)) : list (nat * float) :=
  flat_map (fun l => match l with Some r => [r] | None => [] end)
           (fold_left compare_exchange network4
                      (map Some rows ++ repeat None (4 - length rows))).

(** Beyond one register the result depends on the width of the
    registers; the reference then sorts by insertion. *)
Definition sort_values_simd (rows : list (nat * float)) : list (nat * float) :=
  let numbers := filter (fun r => negb (F64.is_nan (snd r))) rows in
  let nans := filter (fun r => F64.is_nan (snd r)) rows in
  (if length numbers <=? 4 then sort_register numbers
   else sort_rows F64.leb numbers) ++ nans.

Definition pandas_simd : Pandas := {|
  pd_mean := mean;
  pd_sort_values := sort_values_simd
|}.

End Ref.

(* ================================================================== *)
(** * Rounding to nearest-even, on integers *)
(* ================================================================== *)

Module Rounding.

Local Open Scope Z_scope.

(** The integer nearest to [a / b], the even one of the two when [a / b]
    is half-way (for [b > 0]). *)
Definition rne (a b : Z) : Z :=
  let q := a / b in
  let r := a mod b in
  match 2 * r ?= b with
  | Lt => q
  | Eq => if Z.even q then q else q + 1
  | Gt => q + 1
  end.

(** [a / b] rounded to nearest-even on the grid of the multiples of
    [2 ^ t], where [t] leaves 53 significant bits and is at least [lo]. *)
Definition round_to (lo a b : Z) : Z :=
  let t := Z.max (Zdigits2 (a / b) - 53) lo in
  rne a (b * 2 ^ t) * 2 ^ t.

(** The shift record holds the integer part of [a / b] and places the
    fractional part with respect to one half. *)
Definition locates (mrs : shr_record) (a b : Z) : Prop :=
  shr_m mrs = a / b
  /\ shr_r mrs = (b <=? 2 * (a mod b))
  /\ shr_s mrs = negb (a mod b =? 0) && negb (2 * (a mod b) =? b).

(** The second half of [binary_round_aux]: the rounded mantissa [M] at
    exponent [E] is renormalised and packed. *)
Definition finish (s : bool) (M E : Z) : spec_float :=
  let '(mrs, e) := shr_fexp 53 1024 M E loc_Exact in
  match shr_m mrs with
  | Z0 => S754_zero s
  | Zpos m => if e <=? 1024 - 53 then S754_finite s m e else S754_infinity s
  | Zneg _ => S754_nan
  end.

(** The value of a finite number as a multiple of [2 ^ (- K)]. *)
Definition scaled (K : Z) (x : spec_float) : Z :=
  match x with
  | S754_finite s m e => cond_Zopp s (Zpos m * 2 ^ (e + K))
  | _ => 0
  end.

(** A zero, or a finite number whose mantissa has at most 53 bits and
    whose exponent is in the range of the format. *)
Definition small (x : spec_float) : Prop :=
  match x with
  | S754_zero _ => True
  | S754_finite _ m e => -1074 <= e <= 971 /\ Zpos m < 2 ^ 53
  | _ => False
  end.

(** The least integer not below [n / d] (for [d > 0]). *)
Definition ceil_div (n d : Z) : Z := - ((- n) / d).

(** From a non-negative mean, as a multiple of [2 ^ -1074], to the
    rounded tenth of its rounded tenth, on the same grid: the product by
    [0.10] rounded, then the quotient by [10.0] rounded. *)
Definition tenth_of_tenth (N : Z) : Z :=
  round_to 0 (round_to 56 (N * 7205759403792794) 1 / 2 ^ 56 * 2 ^ 49)
           5629499534213120.

Definition signed_tenth_of_tenth (n : Z) : Z :=
  if n <? 0 then - tenth_of_tenth (- n) else tenth_of_tenth n.

End Rounding.

(* ================================================================== *)
(** * Sample inputs *)
(* ================================================================== *)

Module Sample.

Definition f (n : Z) : float := F64.of_Z n.

(** Five users on two features. *)
Definition X5 : matrix :=
  [[f 1; f 3]; [f 2; f 3]; [f 2; f 3]; [f 9; f 3]; [f 10; f 3]].

(** Two users with the same feature vector. *)
Definition twins : matrix := [[f 0; f 0]; [f 0; f 0]].

(** The cost curve of the design document's elbow test,
    [[100, 40, 25, 22, 21, 20.5]]. *)
Definition convex_costs : list float :=
  [f 100; f 40; f 25; f 22; f 21; F64.div (f 41) (f 2)].


(** Four users in three clusters, with their primary metric. *)
Definition labels4 : list nat := [0; 1; 2; 0].
Definition metric4 : list float := [f 30; f 10; f 20; f 40].

End Sample.

(* ================================================================== *)
(** * The properties the design document states *)
(* ================================================================== *)

(** Two vectors are the same point: equal length, numerically equal
    components. *)
Definition vector_eqb (u v : vector) : bool :=
  Nat.eqb (length u) (length v)
  && forallb (fun p => F64.eqb (fst p) (snd p)) (combine u v).

Fixpoint pairwise_distinct (M : matrix) : bool :=
  match M with
  | [] => true
  | u :: M' => negb (existsb (vector_eqb u) M') && pairwise_distinct M'
  end.


(** The distance the selector computes for each point of the curve, with
    the candidate it belongs to. *)
Definition elbow_distances (k_range : list Z) (costs : list float)
  : list (Z * float) :=
  let p1 := (F64.of_Z (hd 0%Z k_range), hd F64.zero costs) in
  let p2 := (F64.of_Z (last k_range 0%Z), last costs F64.zero) in
  map (fun kc => (fst kc, distance p1 p2 (F64.of_Z (fst kc), snd kc)))
      (combine k_range costs).






(* ================================================================== *)
(** * The rest of the script: sections 6.A, 6.B and 6.D *)
(* ================================================================== *)

(** The distance of every point to the medoid it is labelled with. *)
Definition assigned_distances {L : Numpy} (X medoids : matrix)
           (labels : list nat) : list float :=
  map (fun xj => l1 (fst xj) (nth (snd xj) medoids [])) (combine X labels).

(** Sections 6.A and 6.B: [optimal_k = find_optimal_k(X, max_k=15)],
    then [kmedians(X, n_clusters=optimal_k)] with the default
    [max_iter=100, random_state=100]. *)
Definition final_clustering {L : Numpy} (g : rng) (X : matrix)
  : rng * outcome (Z * clustering) :=
  match find_optimal_k g X 15 with
  | (g', Raise e) => (g', Raise e)
  | (g', Ok optimal_k) =>
      match kmedians g' X optimal_k 100 100 with
      | (g'', Raise e) => (g'', Raise e)
      | (g'', Ok r) => (g'', Ok (optimal_k, r))
      end
  end.

(** The keys of [groupby("CLUSTER")] on the relabelled column: the final
    labels in use, ascending (a missing label is dropped). *)
Definition final_keys (final : list (option nat)) : list nat :=
  group_keys (flat_map (fun l => match l with Some c => [c] | None => [] end)
                       final).

(** [d[k]] for a dictionary built from a list of pairs, as [Series.map]
    reads it: the last binding of the key, [None] when there is none. *)
Definition dict_lookup {V : Type} (d : list (nat * V)) (k : nat) : option V :=
  option_map snd (find (fun kv => Nat.eqb (fst kv) k) (rev d)).

Section Rewards.

Context {P : Pandas}.

(** [cluster_means.apply(calculate_cb_amount).to_dict()]: an exception
    of the reward mapper is the exception of the whole. *)
Definition cluster_cb_map (final : list (option nat)) (metric : list float)
  : outcome (list (nat * Z)) :=
  mapM (fun i =>
          r <- calculate_cb_amount (cluster_means final metric i) ;;
          Ok (i, r))
       (final_keys final).

(** [user_averages["CLUSTER"].map(cluster_cb_map)] *)
Definition cb_amount (final : list (option nat)) (metric : list float)
  : outcome (list (option Z)) :=
  d <- cluster_cb_map final metric ;;
  Ok (map (fun l => match l with
                    | Some i => dict_lookup d i
                    | None => None
                    end)
          final).

End Rewards.

(** The reward as the design document writes it, in exact arithmetic:
    10 times the ceiling of [mean * 0.1 / 10]. *)
Definition exact_reward (mean : Q) : Z :=
  (10 * Qceiling (mean * (1 # 10) / 10)%Q)%Z.

(** [sys.float_info.min], the least positive normal number [2 ^ -1022]. *)
Definition float_info_min : float := S754_finite false 4503599627370496 (-1074).

(* ================================================================== *)
(** * The order of binary64 values *)
(* ================================================================== *)

Module Order.

(** The comparison of two numbers is the lexicographic comparison of
    these triples: class, then exponent, then mantissa. *)
Definition key (x : float) : Z * Z * Z :=
  match x with
  | S754_infinity true => (-2, 0, 0)
  | S754_finite true m e => (-1, - e, - Zpos m)
  | S754_zero _ | S754_nan => (0, 0, 0)
  | S754_finite false m e => (1, e, Zpos m)
  | S754_infinity false => (2, 0, 0)
  end%Z.

Definition lex_lt (a b : Z * Z * Z) : Prop :=
  (fst (fst a) < fst (fst b)
   \/ (fst (fst a) = fst (fst b)
       /\ (snd (fst a) < snd (fst b)
           \/ (snd (fst a) = snd (fst b) /\ snd a < snd b))))%Z.

Definition lex_le (a b : Z * Z * Z) : Prop := lex_lt a b \/ a = b.

End Order.

Section OrderLemmas.

Import Order.

Local Ltac order_cases :=
  repeat match goal with
         | s : bool |- _ => destruct s
         end;
  cbn;
  repeat match goal with
         | |- context [Z.compare ?a ?b] => destruct (Z.compare_spec a b)
         | |- context [Pos.compare_cont Eq ?a ?b] =>
             change (Pos.compare_cont Eq a b) with (Pos.compare a b);
             destruct (Pos.compare_spec a b)
         end;
  cbn; subst;
  split; intro; try discriminate; try reflexivity;
  try (exfalso; lia); try lia.

Lemma ltb_key (x y : float) :
  F64.is_nan x = false -> F64.is_nan y = false ->
  F64.ltb x y = true <-> lex_lt (key x) (key y).
Proof.
  unfold F64.ltb, SFltb, lex_lt.
  destruct x as [sx|sx| |sx mx ex], y as [sy|sy| |sy my ey];
    cbn; intros Hx Hy; try discriminate; order_cases.
Qed.

Lemma leb_key (x y : float) :
  F64.is_nan x = false -> F64.is_nan y = false ->
  F64.leb x y = true <-> lex_le (key x) (key y).
Proof.
  unfold F64.leb, SFleb, lex_le, lex_lt.
  destruct x as [sx|sx| |sx mx ex], y as [sy|sy| |sy my ey];
    cbn; intros Hx Hy; try discriminate; order_cases;
    try (right; f_equal; lia);
    try (left; lia);
    try match goal with H : _ \/ _ |- _ => destruct H as [H|H]; [exfalso; lia|] end;
    try match goal with H : (_, _, _) = (_, _, _) |- _ => inversion H; lia end.
Qed.

Lemma ltb_not_nan (x y : float) :
  F64.ltb x y = true -> F64.is_nan x = false /\ F64.is_nan y = false.
Proof.
  unfold F64.ltb, SFltb.
  destruct x, y; cbn; intros; try discriminate; auto.
Qed.

Lemma leb_not_nan (x y : float) :
  F64.leb x y = true -> F64.is_nan x = false /\ F64.is_nan y = false.
Proof.
  unfold F64.leb, SFleb.
  destruct x, y; cbn; intros; try discriminate; auto.
Qed.

Local Ltac to_keys :=
  repeat match goal with
         | H : F64.ltb ?x ?y = true |- _ =>
             let Hn := fresh in
             pose proof (ltb_not_nan _ _ H) as [? ?];
             apply ltb_key in H; [|assumption|assumption]
         | H : F64.leb ?x ?y = true |- _ =>
             pose proof (leb_not_nan _ _ H) as [? ?];
             apply leb_key in H; [|assumption|assumption]
         end.

Lemma ltb_trans (x y z : float) :
  F64.ltb x y = true -> F64.ltb y z = true -> F64.ltb x z = true.
Proof.
  intros H1 H2. to_keys. apply ltb_key; try assumption.
  revert H1 H2. generalize (key x) (key y) (key z).
  intros [[? ?] ?] [[? ?] ?] [[? ?] ?]. unfold lex_lt; cbn. lia.
Qed.

Lemma leb_trans (x y z : float) :
  F64.leb x y = true -> F64.leb y z = true -> F64.leb x z = true.
Proof.
  intros H1 H2. to_keys. apply leb_key; try assumption.
  revert H1 H2. generalize (key x) (key y) (key z).
  intros [[? ?] ?] [[? ?] ?] [[? ?] ?]. unfold lex_le, lex_lt; cbn.
  intros [H1|H1] [H2|H2]; try (inversion H1; subst); try (inversion H2; subst);
    try (left; lia); try (right; reflexivity); auto.
Qed.


Lemma leb_ltb_trans (x y z : float) :
  F64.leb x y = true -> F64.ltb y z = true -> F64.ltb x z = true.
Proof.
  intros H1 H2. to_keys. apply ltb_key; try assumption.
  revert H1 H2. generalize (key x) (key y) (key z).
  intros [[? ?] ?] [[? ?] ?] [[? ?] ?]. unfold lex_le, lex_lt; cbn.
  intros [H1|H1] H2; try (inversion H1; subst); lia.
Qed.

Lemma ltb_leb (x y : float) : F64.ltb x y = true -> F64.leb x y = true.
Proof.
  intros H. to_keys. apply leb_key; try assumption. left; assumption.
Qed.

(** On numbers the order is total. *)
Lemma not_ltb_leb (x y : float) :
  F64.is_nan x = false -> F64.is_nan y = false ->
  F64.ltb x y = false -> F64.leb y x = true.
Proof.
  intros Hx Hy H. apply leb_key; try assumption.
  assert (Hn : ~ lex_lt (key x) (key y)).
  { intro Hl. apply ltb_key in Hl; try assumption. congruence. }
  revert Hn. generalize (key x) (key y).
  intros [[a1 a2] a3] [[b1 b2] b3]. unfold lex_le, lex_lt; cbn. intros Hn.
  destruct (Z.eq_dec a1 b1); [|left; lia].
  destruct (Z.eq_dec a2 b2); [|left; lia].
  destruct (Z.eq_dec a3 b3); [|left; lia].
  right. subst. reflexivity.
Qed.

Lemma leb_refl (x : float) : F64.is_nan x = false -> F64.leb x x = true.
Proof.
  intros Hx. apply leb_key; try assumption. right; reflexivity.
Qed.

Lemma ltb_irrefl (x : float) : F64.ltb x x = false.
Proof.
  destruct (F64.ltb x x) eqn:H; [|reflexivity].
  to_keys. unfold lex_lt in H. lia.
Qed.

Lemma leb_not_ltb (x y : float) : F64.leb x y = true -> F64.ltb y x = false.
Proof.
  intros H. destruct (F64.ltb y x) eqn:H'; [|reflexivity].
  pose proof (leb_ltb_trans _ _ _ H H') as H''.
  rewrite ltb_irrefl in H''. discriminate.
Qed.

End OrderLemmas.

(* ================================================================== *)
(** * Sequencing, [np.argmin] and [np.min] *)
(* ================================================================== *)

Section Sequencing.

Context {A B : Type}.

Lemma mapM_Ok_Forall2 (f : A -> outcome B) (l : list A) (l' : list B) :
  mapM f l = Ok l' -> Forall2 (fun a b => f a = Ok b) l l'.
Proof.
  revert l'. induction l as [|a l IH]; cbn; intros l' H.
  - inversion H. constructor.
  - destruct (f a) as [b|e] eqn:Hf; cbn in H; [|discriminate].
    destruct (mapM f l) as [bs|e] eqn:Hm; cbn in H; [|discriminate].
    inversion H; subst. constructor; auto.
Qed.

Lemma mapM_total (f : A -> outcome B) (l : list A) :
  Forall (fun a => exists b, f a = Ok b) l -> exists l', mapM f l = Ok l'.
Proof.
  induction 1 as [|a l [b Hb] _ [bs Hbs]]; cbn.
  - eexists; reflexivity.
  - rewrite Hb, Hbs. cbn. eexists; reflexivity.
Qed.

Lemma Forall2_nth_error (R : A -> B -> Prop) (l : list A) (l' : list B) :
  Forall2 R l l' ->
  forall i a, nth_error l i = Some a ->
              exists b, nth_error l' i = Some b /\ R a b.
Proof.
  induction 1 as [|a0 b0 l l' HR _ IH]; intros i a Hi.
  - destruct i; discriminate.
  - destruct i as [|i]; cbn in *.
    + inversion Hi; subst. eauto.
    + eauto.
Qed.

End Sequencing.

Section Argmin.

Lemma argmin_from_bound (l : list float) :
  forall best_i best i, (best_i < i)%nat ->
    (argmin_from best_i best i l < i + length l)%nat.
Proof.
  induction l as [|v l IH]; cbn; intros best_i best i Hlt; [lia|].
  destruct (F64.is_nan best); [lia|].
  destruct (F64.is_nan v || F64.ltb v best).
  - specialize (IH i v (S i)). lia.
  - specialize (IH best_i best (S i)). lia.
Qed.

Lemma np_argmin_bound (l : list float) (j : nat) :
  np_argmin l = Ok j -> (j < length l)%nat.
Proof.
  destruct l as [|v l]; cbn; intros H; inversion H.
  pose proof (argmin_from_bound l 0 v 1). lia.
Qed.

Lemma np_argmin_total (l : list float) :
  l <> [] -> exists j, np_argmin l = Ok j.
Proof.
  destruct l; [congruence|]. cbn. eauto.
Qed.

Lemma np_min_total (l : list float) :
  l <> [] -> exists v, np_min l = Ok v.
Proof.
  destruct l; [congruence|]. cbn. eauto.
Qed.



End Argmin.

(* ================================================================== *)
(** * The k-medians engine *)
(* ================================================================== *)

Section EngineLemmas.

Context {L : Numpy}.

Lemma new_medoids_length (X : matrix) (labels : list nat) (medoids : matrix) (k : nat) :
  length (new_medoids X labels medoids k) = k.
Proof.
  unfold new_medoids. rewrite length_map, length_seq. reflexivity.
Qed.

Lemma iteration_inv (X medoids : matrix) (k : nat) labels cost new :
  iteration X medoids k = Ok (labels, cost, new) ->
  mapM np_argmin (distances X medoids) = Ok labels
  /\ new = new_medoids X labels medoids k.
Proof.
  unfold iteration. destruct medoids as [|m0 medoids']; [discriminate|].
  set (medoids := m0 :: medoids').
  destruct (mapM np_argmin (distances X medoids)) as [ls|e]; cbn; [|discriminate].
  destruct (mapM np_min (distances X medoids)) as [ms|e]; cbn; [|discriminate].
  intros H; inversion H; subst. auto.
Qed.

Lemma iteration_ok (X medoids : matrix) (k : nat) :
  medoids <> [] ->
  exists labels cost,
    iteration X medoids k = Ok (labels, cost, new_medoids X labels medoids k)
    /\ length labels = length X
    /\ Forall (fun l => l < length medoids) labels.
Proof.
  intros Hne. unfold iteration.
  assert (Hrows : Forall (fun r => r <> [] /\ length r = length medoids)
                         (distances X medoids)).
  { unfold distances. apply Forall_forall. intros r Hr.
    apply in_map_iff in Hr. destruct Hr as (x & <- & _).
    rewrite length_map. split; [|reflexivity].
    destruct medoids; [congruence|discriminate]. }
  assert (exists labels, mapM np_argmin (distances X medoids) = Ok labels)
    as [labels Hl].
  { apply mapM_total. eapply Forall_impl; [|exact Hrows]. intros r [Hr _].
    apply np_argmin_total; assumption. }
  assert (exists mins, mapM np_min (distances X medoids) = Ok mins)
    as [mins Hm].
  { apply mapM_total. eapply Forall_impl; [|exact Hrows]. intros r [Hr _].
    apply np_min_total; assumption. }
  rewrite Hl, Hm. cbn. exists labels, (np_sum mins).
  split; [destruct medoids; [congruence|reflexivity]|].
  apply mapM_Ok_Forall2 in Hl.
  split.
  - apply Forall2_length in Hl. unfold distances in Hl.
    rewrite length_map in Hl. auto.
  - clear Hm. revert Hrows Hl. generalize (distances X medoids).
    intros ds Hrows Hl. induction Hl as [|r j ds labels Hrj _ IH]; constructor.
    + inversion Hrows as [|? ? [_ Hlen] _]; subst.
      rewrite <- Hlen. apply np_argmin_bound; assumption.
    + apply IH. inversion Hrows; assumption.
Qed.

Lemma kmedians_loop_ok (X : matrix) (k : nat) (rounds : nat) :
  forall labels medoids cost,
    0 < k -> length medoids = k ->
    length labels = length X -> Forall (fun l => l < k) labels ->
    exists labels' medoids' cost',
      kmedians_loop rounds X k labels medoids cost = Ok (labels', medoids', cost')
      /\ length labels' = length X
      /\ Forall (fun l => l < k) labels'
      /\ length medoids' = k.
Proof.
  induction rounds as [|rounds IH]; intros labels medoids cost Hk Hm Hl Hr; cbn.
  - exists labels, medoids, cost. auto.
  - assert (Hne : medoids <> [])
      by (destruct medoids; [cbn in Hm; lia|discriminate]).
    destruct (iteration_ok X medoids k Hne) as (ls & c & Hit & Hlen & Hrange).
    rewrite Hit. cbn. rewrite Hm in Hrange.
    destruct (np_allclose (new_medoids X ls medoids k) medoids).
    + exists ls, medoids, c. auto.
    + apply IH; auto. apply new_medoids_length.
Qed.

Lemma mapM_getitem_ok (X : matrix) (ids : list nat) :
  Forall (fun i => i < length X) ids ->
  exists rows, mapM (getitem X) ids = Ok rows /\ length rows = length ids.
Proof.
  intros H.
  assert (exists rows, mapM (getitem X) ids = Ok rows) as [rows Hrows].
  - apply mapM_total.
    eapply Forall_impl; [|exact H]. cbn. intros i Hi. unfold getitem.
    destruct (nth_error X i) as [r|] eqn:Hn; [exists r; reflexivity|].
    apply nth_error_None in Hn. lia.
  - exists rows. split; [assumption|].
    apply mapM_Ok_Forall2 in Hrows. apply Forall2_length in Hrows. auto.
Qed.

End EngineLemmas.

Section EngineContract.

Context {L : Numpy} {LC : NumpyContract L}.

Lemma kmedians_regular_ok (g : rng) (X : matrix)
      (n_clusters max_iter random_state : Z) :
  (1 <= n_clusters)%Z ->
  (n_clusters <= Z.of_nat (length X))%Z ->
  exists labels medoids cost,
    snd (kmedians g X n_clusters max_iter random_state)
    = Ok (labels, medoids, cost)
    /\ length labels = length X
    /\ Forall (fun l => (0 <= Z.of_nat l < n_clusters)%Z) labels
    /\ Z.of_nat (length medoids) = n_clusters.
Proof.
  intros Hk Hle. unfold kmedians.
  destruct (Z.ltb_spec (Z.of_nat (length X)) n_clusters) as [?|_]; [lia|].
  destruct (Z.ltb_spec n_clusters 0) as [?|_]; [lia|].
  set (gs := np_random_seed random_state).
  assert (Hsize : Z.to_nat n_clusters <= length X) by lia.
  pose proof (choice_length gs (length X) (Z.to_nat n_clusters) Hsize) as Hlen.
  pose proof (choice_range gs (length X) (Z.to_nat n_clusters) Hsize) as Hrange.
  destruct (np_random_choice gs (length X) (Z.to_nat n_clusters))
    as [medoid_ids g'].
  cbn [fst snd] in *.
  destruct (mapM_getitem_ok X medoid_ids Hrange) as (medoids0 & Hm & Hml).
  rewrite Hm. cbn [bind].
  assert (exists labels medoids cost,
             kmedians_loop (Z.to_nat max_iter) X (Z.to_nat n_clusters)
                           (repeat 0 (length X)) medoids0 F64.zero
             = Ok (labels, medoids, cost)
             /\ length labels = length X
             /\ Forall (fun l => l < Z.to_nat n_clusters) labels
             /\ length medoids = Z.to_nat n_clusters)
    as (labels & medoids & cost & Hloop & Hl & Hr & Hmk).
  - apply kmedians_loop_ok.
    + lia.
    + congruence.
    + apply repeat_length.
    + apply Forall_forall. intros l Hl. apply repeat_spec in Hl. lia.
  - exists labels, medoids, cost. rewrite Hloop.
    split; [reflexivity|]. split; [assumption|]. split; [|lia].
    eapply Forall_impl; [|exact Hr]. cbn. intros. lia.
Qed.


(** For [n_clusters >= 1] the engine never raises. *)
Lemma kmedians_total (g : rng) (X : matrix) (n_clusters max_iter random_state : Z) :
  (1 <= n_clusters)%Z ->
  exists g' labels medoids cost,
    kmedians g X n_clusters max_iter random_state
    = (g', Ok (labels, medoids, cost)).
Proof.
  intros Hk.
  destruct (Z.lt_ge_cases (Z.of_nat (length X)) n_clusters) as [Hlt|Hge].
  - unfold kmedians. apply Z.ltb_lt in Hlt. rewrite Hlt. eauto.
  - destruct (kmedians_regular_ok g X n_clusters max_iter random_state Hk Hge)
      as (labels & medoids & cost & H & _).
    destruct (kmedians g X n_clusters max_iter random_state) as [g' r].
    cbn in H. subst r. eauto.
Qed.

End EngineContract.

Section EngineTheorems.

Context {L : Numpy}.

(** C1. Determinism: the engine reseeds the global generator from
    [random_state] before it draws, so two invocations with the same
    [X], [n_clusters], [max_iter] and [random_state] return the same
    labels, medoids and total cost (and leave the generator in the same
    state), whatever state the generator was in before each call. *)
Theorem kmedians_deterministic (g1 g2 : rng) (X : matrix)
        (n_clusters max_iter random_state : Z) :
  kmedians g1 X n_clusters max_iter random_state
  = kmedians g2 X n_clusters max_iter random_state.
Proof.
  unfold kmedians. reflexivity.
Qed.

(** C2. The degenerate case: with fewer points than requested
    clusters (no point at all included) the engine returns without an
    exception a zero label per point, no medoid, and cost 0; every
    label it returns is a valid cluster index. *)
Theorem kmedians_degenerate (g : rng) (X : matrix)
        (n_clusters max_iter random_state : Z) :
  (1 <= n_clusters)%Z ->
  (Z.of_nat (length X) < n_clusters)%Z ->
  exists labels,
    snd (kmedians g X n_clusters max_iter random_state)
    = Ok (labels, [], F64.zero)
    /\ length labels = length X
    /\ Forall (fun l => l = 0) labels
    /\ Forall (fun l => (0 <= Z.of_nat l < n_clusters)%Z) labels.
Proof.
  intros Hk Hlt. unfold kmedians.
  apply Z.ltb_lt in Hlt. rewrite Hlt. cbn.
  exists (repeat 0 (length X)). split; [reflexivity|].
  split; [apply repeat_length|].
  split; apply Forall_forall; intros l Hl; apply repeat_spec in Hl; subst;
    [reflexivity|cbn; lia].
Qed.

Context {LC : NumpyContract L}.

(** C3, as amended. With at least as many points as requested clusters
    ([n_clusters >= 1]) the engine returns without an exception one
    label per point, each in [[0, n_clusters)], and exactly
    [n_clusters] medoid vectors.  (The vectors are not claimed pairwise
    distinct.) *)
Theorem kmedians_labels_and_medoid_count (g : rng) (X : matrix)
        (n_clusters max_iter random_state : Z) :
  (1 <= n_clusters)%Z ->
  (n_clusters <= Z.of_nat (length X))%Z ->
  exists labels medoids cost,
    snd (kmedians g X n_clusters max_iter random_state)
    = Ok (labels, medoids, cost)
    /\ length labels = length X
    /\ Forall (fun l => (0 <= Z.of_nat l < n_clusters)%Z) labels
    /\ Z.of_nat (length medoids) = n_clusters.
Proof.
  apply kmedians_regular_ok.
Qed.

End EngineTheorems.

(* ================================================================== *)
(** * The reference implementations keep the contracts *)
(* ================================================================== *)

#[export] Instance ref_numpy_contract : NumpyContract Ref.numpy.
Proof.
  split; intros g n size Hle; cbn; unfold Ref.choice; cbn.
  - apply length_seq.
  - apply Forall_forall. intros i Hi. apply in_seq in Hi.
    assert (0 <= g mod Z.of_nat (S (n - size)) < Z.of_nat (S (n - size)))%Z
      by (apply Z.mod_pos_bound; lia).
    lia.
  - apply seq_NoDup.
Qed.

(* ================================================================== *)
(** * The engine on the sample inputs *)
(* ================================================================== *)

Lemma kmedians_degenerate_witness :
  exists labels,
    snd (kmedians (L := Ref.numpy) 0%Z [[Sample.f 1; Sample.f 3]] 2 100 100)
    = Ok (labels, [], F64.zero)
    /\ length labels = length [[Sample.f 1; Sample.f 3]]
    /\ Forall (fun l => l = 0) labels
    /\ Forall (fun l => (0 <= Z.of_nat l < 2)%Z) labels.
Proof.
  apply (kmedians_degenerate (L := Ref.numpy) 0%Z [[Sample.f 1; Sample.f 3]]
           2 100 100); cbn; lia.
Defined.

Lemma kmedians_labels_and_medoid_count_witness :
  exists labels medoids cost,
    snd (kmedians (L := Ref.numpy) 0%Z Sample.X5 2 100 100)
    = Ok (labels, medoids, cost)
    /\ length labels = length Sample.X5
    /\ Forall (fun l => (0 <= Z.of_nat l < 2)%Z) labels
    /\ Z.of_nat (length medoids) = 2%Z.
Proof.
  apply (kmedians_labels_and_medoid_count (L := Ref.numpy) 0%Z Sample.X5
           2 100 100); cbn; lia.
Defined.

(** C3, as stated, fails: on two users with the same feature vector and
    [n_clusters = 2] the engine returns two medoids that are the same
    vector. *)
Lemma kmedians_medoids_not_distinct :
  (1 <= 2)%Z /\ (2 <= Z.of_nat (length Sample.twins))%Z
  /\ snd (kmedians (L := Ref.numpy) 0%Z Sample.twins 2 100 100)
     = Ok ([0; 0], [[F64.zero; F64.zero]; [F64.zero; F64.zero]], F64.zero)
  /\ pairwise_distinct [[F64.zero; F64.zero]; [F64.zero; F64.zero]] = false.
Proof.
  split; [lia|]. split; [cbn; lia|]. split; vm_compute; reflexivity.
Qed.

(* ================================================================== *)
(** * Signs, zeros and NaNs through the operations *)
(* ================================================================== *)

Section FloatStructure.

Lemma binary_round_aux_sign (s : bool) (m e : Z) (l : location) :
  match binary_round_aux F64.prec F64.emax s m e l with
  | S754_zero s' | S754_finite s' _ _ | S754_infinity s' => s' = s
  | S754_nan => True
  end.
Proof.
  unfold binary_round_aux.
  destruct (shr_fexp F64.prec F64.emax m e l) as [mrs' e'].
  destruct (shr_fexp F64.prec F64.emax _ e' loc_Exact) as [mrs'' e''].
  destruct (shr_m mrs''); auto.
  destruct (e'' <=? F64.emax - F64.prec)%Z; reflexivity.
Qed.

Lemma binary_round_aux_nonneg (m e : Z) (l : location) :
  F64.nonneg (binary_round_aux F64.prec F64.emax false m e l) = true.
Proof.
  pose proof (binary_round_aux_sign false m e l) as H.
  destruct (binary_round_aux F64.prec F64.emax false m e l); cbn; subst; reflexivity.
Qed.

Lemma binary_round_nonneg (m : positive) (e : Z) :
  F64.nonneg (binary_round F64.prec F64.emax false m e) = true.
Proof.
  unfold binary_round.
  destruct (shl_align m e _) as [mz ez]. apply binary_round_aux_nonneg.
Qed.

Lemma nonneg_abs (x : float) : F64.nonneg (F64.abs x) = true.
Proof. destruct x; reflexivity. Qed.

Lemma nonneg_mul_self (x : float) : F64.nonneg (F64.mul x x) = true.
Proof.
  destruct x as [s|s| |s m e]; cbn; try reflexivity;
    try (destruct s; reflexivity).
  replace (xorb s s) with false by (destruct s; reflexivity).
  apply binary_round_aux_nonneg.
Qed.

Lemma nonneg_add (x y : float) :
  F64.nonneg x = true -> F64.nonneg y = true -> F64.nonneg (F64.add x y) = true.
Proof.
  destruct x as [sx|sx| |sx mx ex], y as [sy|sy| |sy my ey]; cbn;
    intros Hx Hy; try reflexivity;
    try (apply negb_true_iff in Hx); try (apply negb_true_iff in Hy);
    subst; try reflexivity.
  unfold F64.add, SFadd. cbn [cond_Zopp].
  cbv zeta. unfold binary_normalize.
  destruct (shl_align mx ex (Z.min ex ey)) as [a ?].
  destruct (shl_align my ey (Z.min ex ey)) as [b ?]. cbn [fst Z.add].
  apply binary_round_nonneg.
Qed.

Lemma nonneg_sqrt (x : float) :
  F64.nonneg x = true -> F64.nonneg (F64.sqrt x) = true.
Proof.
  destruct x as [s|s| |s m e]; cbn; intros Hx; try reflexivity;
    apply negb_true_iff in Hx; subst; try reflexivity.
  unfold F64.sqrt, SFsqrt.
  destruct (SFsqrt_core_binary F64.prec F64.emax (Z.pos m) e) as [[mz ez] lz].
  apply binary_round_aux_nonneg.
Qed.

Lemma nonneg_div (x y : float) :
  F64.nonneg x = true -> F64.nonneg y = true -> F64.nonneg (F64.div x y) = true.
Proof.
  destruct x as [sx|sx| |sx mx ex], y as [sy|sy| |sy my ey]; cbn;
    intros Hx Hy; try reflexivity;
    try (apply negb_true_iff in Hx); try (apply negb_true_iff in Hy);
    subst; try reflexivity.
  unfold F64.div, SFdiv.
  destruct (SFdiv_core_binary F64.prec F64.emax (Z.pos mx) ex (Z.pos my) ey)
    as [[mz ez] lz].
  apply binary_round_aux_nonneg.
Qed.

Lemma nonneg_leb_zero (x : float) :
  F64.nonneg x = true -> F64.is_nan x = false -> F64.leb F64.zero x = true.
Proof.
  destruct x as [s|s| |s m e]; cbn; intros Hx Hn; try discriminate;
    apply negb_true_iff in Hx; subst; reflexivity.
Qed.

Lemma distance_nonneg (p1 p2 p0 : point) :
  F64.nonneg (distance p1 p2 p0) = true.
Proof.
  unfold distance, numerator, denominator.
  apply nonneg_div; [apply nonneg_abs|].
  apply nonneg_sqrt. apply nonneg_add; apply nonneg_mul_self.
Qed.

(** Zeros and NaNs. *)

Lemma zon_mul_l (x y : float) :
  F64.zero_or_nan x = true -> F64.zero_or_nan (F64.mul x y) = true.
Proof. destruct x, y; cbn; intros; try discriminate; reflexivity. Qed.

Lemma zon_mul_r (x y : float) :
  F64.zero_or_nan y = true -> F64.zero_or_nan (F64.mul x y) = true.
Proof. destruct x, y; cbn; intros; try discriminate; reflexivity. Qed.

Lemma zon_add (x y : float) :
  F64.zero_or_nan x = true -> F64.zero_or_nan y = true ->
  F64.zero_or_nan (F64.add x y) = true.
Proof.
  destruct x as [[|]| | |], y as [[|]| | |]; cbn; intros; try discriminate; reflexivity.
Qed.

Lemma zon_sub (x y : float) :
  F64.zero_or_nan x = true -> F64.zero_or_nan y = true ->
  F64.zero_or_nan (F64.sub x y) = true.
Proof.
  destruct x as [[|]| | |], y as [[|]| | |]; cbn; intros; try discriminate; reflexivity.
Qed.

Lemma zon_abs (x : float) :
  F64.zero_or_nan x = true -> F64.zero_or_nan (F64.abs x) = true.
Proof. destruct x; cbn; intros; try discriminate; reflexivity. Qed.

Lemma zon_sqrt (x : float) :
  F64.zero_or_nan x = true -> F64.zero_or_nan (F64.sqrt x) = true.
Proof. destruct x; cbn; intros; try discriminate; reflexivity. Qed.

Lemma zon_div_l (x y : float) :
  F64.zero_or_nan x = true -> F64.zero_or_nan (F64.div x y) = true.
Proof. destruct x, y; cbn; intros; try discriminate; reflexivity. Qed.

Lemma zon_div_nan (x y : float) :
  F64.zero_or_nan x = true -> F64.zero_or_nan y = true -> F64.div x y = F64.nan.
Proof. destruct x, y; cbn; intros; try discriminate; reflexivity. Qed.

Lemma zon_not_above_zero (x : float) :
  F64.zero_or_nan x = true -> F64.ltb F64.zero x = false.
Proof. destruct x; cbn; intros; try discriminate; reflexivity. Qed.

(** [x - x] is a zero, or a NaN when [x] is not finite. *)
Lemma zon_sub_self (x : float) : F64.zero_or_nan (F64.sub x x) = true.
Proof.
  destruct x as [[|]|[|]| |s m e]; try reflexivity.
  unfold F64.sub, SFsub. cbv zeta.
  rewrite Z.min_id. unfold shl_align. rewrite Z.sub_diag. cbn [fst].
  reflexivity.
Qed.

Lemma zon_add_sub (z y : float) :
  F64.zero_or_nan z = true -> F64.zero_or_nan (F64.sub (F64.add z y) y) = true.
Proof.
  intros Hz.
  destruct z as [sz| | |]; try discriminate; [|reflexivity].
  destruct y as [sy|sy| |sy my ey].
  - destruct sz, sy; reflexivity.
  - destruct sy; reflexivity.
  - reflexivity.
  - change (F64.add (S754_zero sz) (S754_finite sy my ey))
      with (S754_finite sy my ey).
    apply zon_sub_self.
Qed.

Lemma mul_comm (x y : float) : F64.mul x y = F64.mul y x.
Proof.
  destruct x as [sx|sx| |sx mx ex], y as [sy|sy| |sy my ey];
    try reflexivity; unfold F64.mul, SFmul;
    try (rewrite (xorb_comm sx sy); reflexivity).
  rewrite (xorb_comm sx sy), (Pos.mul_comm mx my), (Z.add_comm ex ey).
  reflexivity.
Qed.

End FloatStructure.

(* ================================================================== *)
(** * The elbow selector *)
(* ================================================================== *)

Section ListFacts.

Lemma nth_error_last {A : Type} (l : list A) (d : A) :
  l <> [] -> nth_error l (length l - 1) = Some (last l d).
Proof.
  induction l as [|a l IH]; [congruence|]. intros _.
  destruct l as [|b l]; [reflexivity|].
  cbn [length]. replace (S (S (length l)) - 1) with (S (length (b :: l) - 1))
    by (cbn; lia).
  cbn [nth_error]. rewrite IH by discriminate. reflexivity.
Qed.

Lemma k_range_cons (max_k : Z) :
  (1 <= max_k)%Z ->
  k_range max_k = 1%Z :: map Z.of_nat (seq 2 (Z.to_nat max_k - 1)).
Proof.
  intros H. unfold k_range.
  destruct (Z.to_nat max_k) as [|n] eqn:Hn; [lia|].
  cbn. rewrite Nat.sub_0_r. reflexivity.
Qed.

Lemma k_range_length (max_k : Z) : length (k_range max_k) = Z.to_nat max_k.
Proof. unfold k_range. rewrite length_map, length_seq. reflexivity. Qed.

Lemma k_range_In (max_k k : Z) : In k (k_range max_k) -> (1 <= k <= max_k)%Z.
Proof.
  unfold k_range. intros H. apply in_map_iff in H.
  destruct H as (n & <- & Hn). apply in_seq in Hn. lia.
Qed.

Lemma k_range_last (max_k : Z) :
  (1 <= max_k)%Z -> last (k_range max_k) 0%Z = max_k.
Proof.
  intros H. unfold k_range.
  destruct (Z.to_nat max_k) as [|n] eqn:Hn; [lia|].
  rewrite seq_S, map_app. cbn [map]. rewrite last_last. lia.
Qed.

Lemma k_range_nonpositive (max_k : Z) : (max_k <= 0)%Z -> k_range max_k = [].
Proof.
  intros H. unfold k_range. replace (Z.to_nat max_k) with 0 by lia. reflexivity.
Qed.

(** The candidates come in increasing order. *)
Lemma seq_split_order (l1 : list Z) :
  forall a n x l2,
    map Z.of_nat (seq a n) = l1 ++ x :: l2 ->
    Forall (fun y => (y < x)%Z) l1 /\ Forall (fun y => (x < y)%Z) l2.
Proof.
  induction l1 as [|y l1 IH]; intros a n x l2 H.
  - split; [constructor|].
    destruct n as [|n]; [discriminate|]. cbn in H. inversion H; subst.
    apply Forall_forall. intros z Hz. apply in_map_iff in Hz.
    destruct Hz as (m & <- & Hm). apply in_seq in Hm. lia.
  - destruct n as [|n]; [discriminate|]. cbn in H. inversion H as [[Hy Hrest]].
    destruct (IH _ _ _ _ Hrest) as [H1 H2]. split; [|assumption].
    constructor; [|assumption].
    assert (Hx : In x (map Z.of_nat (seq (S a) n)))
      by (rewrite Hrest; apply in_elt).
    apply in_map_iff in Hx. destruct Hx as (m & <- & Hm).
    apply in_seq in Hm. lia.
Qed.

Lemma map_fst_combine {A B : Type} (l : list A) (l' : list B) :
  length l = length l' -> map fst (combine l l') = l.
Proof.
  revert l'. induction l as [|a l IH]; intros [|b l'] H; cbn in *;
    try discriminate; [reflexivity|].
  f_equal. apply IH. lia.
Qed.

End ListFacts.

Section ElbowLoop.

Variables p1 p2 : point.

Let D (kc : Z * float) : float := distance p1 p2 (F64.of_Z (fst kc), snd kc).

(** The scan keeps its initial candidate when no distance exceeds the
    initial maximum. *)
Lemma elbow_loop_keep (curve : list (Z * float)) (max_distance : float) (best_k : Z) :
  Forall (fun kc => F64.ltb max_distance (D kc) = false) curve ->
  elbow_loop p1 p2 curve max_distance best_k = best_k.
Proof.
  induction 1 as [|[k c] curve Hd _ IH]; cbn; [reflexivity|].
  unfold D in Hd. cbn in Hd. rewrite Hd. exact IH.
Qed.


End ElbowLoop.

Section Selector.

Context {L : Numpy}.

Lemma k_range_positive (max_k : Z) : Forall (fun k => (1 <= k)%Z) (k_range max_k).
Proof.
  apply Forall_forall. intros k Hk. apply k_range_In in Hk. lia.
Qed.

(** On an empty feature set every run is the degenerate one. *)
Lemma costs_empty (ks : list Z) :
  forall g, Forall (fun k => (1 <= k)%Z) ks ->
    exists g', costs g [] ks = (g', Ok (repeat F64.zero (length ks))).
Proof.
  induction ks as [|k ks IH]; intros g Hks; cbn [costs].
  - exists g. reflexivity.
  - inversion Hks as [|? ? Hk Hks']; subst.
    unfold kmedians. cbn [length Z.of_nat].
    destruct (Z.ltb_spec 0 k) as [_|?]; [|lia].
    destruct (IH (np_random_seed 100) Hks') as [g' Hg'].
    rewrite Hg'. exists g'. reflexivity.
Qed.

(** What [elbow] evaluates to when there is a candidate. *)
Lemma elbow_eq (max_k : Z) (cs : list float) :
  (1 <= max_k)%Z -> length cs = Z.to_nat max_k ->
  elbow (k_range max_k) cs
  = Ok (elbow_loop (F64.of_Z 1, hd F64.zero cs)
                   (F64.of_Z max_k, last cs F64.zero)
                   (combine (k_range max_k) cs) F64.zero 1%Z).
Proof.
  intros Hk Hlen. unfold elbow, getitem.
  assert (Hne : k_range max_k <> [])
    by (rewrite (k_range_cons max_k Hk); discriminate).
  rewrite (nth_error_last (k_range max_k) 0%Z Hne), (k_range_last max_k Hk).
  assert (Hcs : cs <> []) by (destruct cs; [cbn in Hlen; lia|discriminate]).
  rewrite (nth_error_last cs F64.zero Hcs).
  rewrite (k_range_cons max_k Hk) at 1. cbn [nth_error bind].
  destruct cs as [|c cs']; [congruence|]. reflexivity.
Qed.

Context {LC : NumpyContract L}.

Lemma costs_total (X : matrix) (ks : list Z) :
  forall g, Forall (fun k => (1 <= k)%Z) ks ->
    exists g' cs, costs g X ks = (g', Ok cs) /\ length cs = length ks.
Proof.
  induction ks as [|k ks IH]; intros g Hks; cbn [costs].
  - exists g, []. split; reflexivity.
  - inversion Hks as [|? ? Hk Hks']; subst.
    destruct (kmedians_total g X k 100 100 Hk) as (g1 & labels & medoids & cost & Hrun).
    rewrite Hrun.
    destruct (IH g1 Hks') as (g' & cs & Hcs & Hlen).
    rewrite Hcs. exists g', (cost :: cs). split; [reflexivity|].
    cbn. lia.
Qed.

(** C10. With [max_k = 1] on a non-empty feature set the two ends of the
    curve are one point: the distance of that point is the NaN of a
    division of zero by zero, the comparison with the running maximum
    fails, and the selector returns 1 without an exception. *)
Theorem find_optimal_k_single_candidate (g : rng) (X : matrix) :
  X <> [] ->
  exists g' cost,
    costs g X (k_range 1) = (g', Ok [cost])
    /\ elbow_distances (k_range 1) [cost] = [(1%Z, F64.nan)]
    /\ F64.ltb F64.zero F64.nan = false
    /\ find_optimal_k g X 1 = (g', Ok 1%Z).
Proof.
  intros _.
  destruct (costs_total X (k_range 1) g (k_range_positive 1))
    as (g' & cs & Hcosts & Hlen).
  destruct cs as [|cost [|c2 cs]]; try discriminate.
  exists g', cost.
  assert (Hd : distance (F64.of_Z 1, cost) (F64.of_Z 1, cost) (F64.of_Z 1, cost)
               = F64.nan).
  { unfold distance. apply zon_div_nan.
    - unfold numerator. cbn [fst snd]. apply zon_abs.
      rewrite (mul_comm cost (F64.of_Z 1)).
      apply zon_add_sub. apply zon_sub.
      + apply zon_mul_l. apply zon_sub_self.
      + apply zon_mul_l. apply zon_sub_self.
    - unfold denominator. cbn [fst snd]. apply zon_sqrt. apply zon_add.
      + apply zon_mul_l. apply zon_sub_self.
      + apply zon_mul_l. apply zon_sub_self. }
  split; [assumption|].
  split.
  { unfold elbow_distances. change (k_range 1) with [1%Z].
    cbn [combine map hd last fst snd]. rewrite Hd. reflexivity. }
  split; [reflexivity|].
  unfold find_optimal_k. rewrite Hcosts.
  change (k_range 1) with [1%Z]. unfold elbow, getitem.
  cbn [nth_error length Nat.sub bind combine elbow_loop].
  rewrite Hd. reflexivity.
Qed.

End Selector.

Section SelectorConfiguration.

Context {L : Numpy}.

(** C6, as amended. With [max_k <= 0] the selector raises an
    [IndexError] before any run of the engine (the cost curve is empty
    and the generator untouched).  With an empty feature set and
    [max_k >= 1] it raises nothing: every run is the degenerate one of
    cost 0 and the selector returns 1. *)
Theorem find_optimal_k_bad_configuration (g : rng) (X : matrix) (max_k : Z) :
  (max_k <= 0)%Z \/ X = [] ->
  snd (find_optimal_k g X max_k)
  = (if (max_k <=? 0)%Z then Raise IndexError else Ok 1%Z)
  /\ ((max_k <= 0)%Z -> costs g X (k_range max_k) = (g, Ok [])).
Proof.
  intros H.
  destruct (Z.leb_spec max_k 0) as [Hle|Hgt].
  - unfold find_optimal_k. rewrite (k_range_nonpositive max_k Hle). cbn.
    split; reflexivity.
  - destruct H as [H|H]; [lia|]. subst X. split; [|lia].
    assert (Hk : (1 <= max_k)%Z) by lia.
    destruct (costs_empty (k_range max_k) g (k_range_positive max_k)) as [g' Hc].
    unfold find_optimal_k. rewrite Hc. cbn [snd].
    rewrite elbow_eq; [|assumption|rewrite repeat_length; apply k_range_length].
    f_equal. apply elbow_loop_keep.
    apply Forall_forall. intros [k c] Hkc.
    apply in_combine_r in Hkc. apply repeat_spec in Hkc. subst c.
    apply zon_not_above_zero. unfold distance. apply zon_div_l.
    assert (Hh : hd F64.zero (repeat F64.zero (length (k_range max_k))) = F64.zero)
      by (destruct (length (k_range max_k)); reflexivity).
    assert (Hl : last (repeat F64.zero (length (k_range max_k))) F64.zero = F64.zero).
    { generalize (length (k_range max_k)). intros n.
      induction n as [|n IHn]; [reflexivity|].
      cbn [repeat]. destruct n; [reflexivity|]. exact IHn. }
    rewrite Hh, Hl. unfold numerator. cbn [fst snd].
    apply zon_abs. apply zon_sub; [apply zon_add; [apply zon_sub|]|].
    + apply zon_mul_l. reflexivity.
    + apply zon_mul_r. reflexivity.
    + apply zon_mul_r. reflexivity.
    + apply zon_mul_l. reflexivity.
Qed.

End SelectorConfiguration.

(* ================================================================== *)
(** * The selector on the sample inputs *)
(* ================================================================== *)

(** The elbow test of the design document: on the costs
    [[100, 40, 25, 22, 21, 20.5]] for [k = 1..6] the selector picks
    [k = 2], strictly between 1 and 6. *)
Example elbow_on_convex_costs :
  elbow (k_range 6) Sample.convex_costs = Ok 2%Z.
Proof. vm_compute. reflexivity. Qed.

Lemma find_optimal_k_single_candidate_witness :
  exists g' cost,
    costs (L := Ref.numpy) 0%Z Sample.X5 (k_range 1) = (g', Ok [cost])
    /\ elbow_distances (k_range 1) [cost] = [(1%Z, F64.nan)]
    /\ F64.ltb F64.zero F64.nan = false
    /\ find_optimal_k (L := Ref.numpy) 0%Z Sample.X5 1 = (g', Ok 1%Z).
Proof.
  apply (find_optimal_k_single_candidate (L := Ref.numpy) 0%Z Sample.X5).
  discriminate.
Defined.

Lemma find_optimal_k_bad_configuration_witness :
  snd (find_optimal_k (L := Ref.numpy) 0%Z Sample.X5 0)
  = (if (0 <=? 0)%Z then Raise IndexError else Ok 1%Z)
  /\ ((0 <= 0)%Z -> costs (L := Ref.numpy) 0%Z Sample.X5 (k_range 0) = (0%Z, Ok [])).
Proof.
  apply (find_optimal_k_bad_configuration (L := Ref.numpy) 0%Z Sample.X5 0).
  left. lia.
Defined.

(** C6, as stated, fails: on an empty feature set with [max_k = 3] the
    selector runs the engine three times, raises nothing and returns 1. *)
Lemma find_optimal_k_empty_input_returns_1 :
  costs (L := Ref.numpy) 0%Z [] (k_range 3)
  = (100%Z, Ok [F64.zero; F64.zero; F64.zero])
  /\ find_optimal_k (L := Ref.numpy) 0%Z [] 3 = (100%Z, Ok 1%Z).
Proof.
  split; vm_compute; reflexivity.
Qed.

(* ================================================================== *)
(** * The cluster ranker *)
(* ================================================================== *)

Section RankerLists.

Lemma group_keys_NoDup (labels : list nat) : NoDup (group_keys labels).
Proof. unfold group_keys. apply NoDup_filter, seq_NoDup. Qed.

Lemma group_keys_In (labels : list nat) (c : nat) :
  In c (group_keys labels) <-> In c labels.
Proof.
  unfold group_keys. rewrite filter_In, existsb_exists. split.
  - intros (_ & x & Hx & Heq). apply Nat.eqb_eq in Heq. subst. assumption.
  - intros Hc. split.
    + apply in_seq. split; [lia|]. cbn.
      assert (Hmax : Forall (fun k => k <= list_max labels) labels)
        by (apply list_max_le; lia).
      rewrite Forall_forall in Hmax. specialize (Hmax c Hc). lia.
    + exists c. split; [assumption|apply Nat.eqb_refl].
Qed.

Lemma find_NoDup_keys (l : list (nat * nat)) (c v : nat) :
  NoDup (map fst l) -> In (c, v) l ->
  find (fun kv => Nat.eqb (fst kv) c) l = Some (c, v).
Proof.
  induction l as [|[k w] l IH]; cbn; intros Hnd Hin; [contradiction|].
  inversion Hnd as [|? ? Hk Hnd']; subst.
  destruct Hin as [Heq|Hin].
  - inversion Heq; subst. rewrite Nat.eqb_refl. reflexivity.
  - destruct (Nat.eqb_spec k c) as [->|Hne].
    + exfalso. apply Hk. apply (in_map fst) in Hin. exact Hin.
    + apply IH; assumption.
Qed.

Lemma nth_error_combine_seq {A : Type} (ks : list A) :
  forall a p c, nth_error ks p = Some c ->
    nth_error (combine ks (seq a (length ks))) p = Some (c, a + p).
Proof.
  induction ks as [|k ks IH]; intros a p c Hp; [destruct p; discriminate|].
  destruct p as [|p]; cbn in *.
  - inversion Hp; subst. rewrite Nat.add_0_r. reflexivity.
  - rewrite (IH (S a) p c Hp). f_equal. f_equal. lia.
Qed.

(** In a dictionary built from distinct keys, the key at position [p]
    is bound to [p + 1]. *)
Lemma dict_get_position (ks : list nat) (n p c : nat) :
  NoDup ks -> n = length ks -> nth_error ks p = Some c ->
  dict_get (combine ks (seq 1 n)) c = Some (S p).
Proof.
  intros Hnd -> Hp. unfold dict_get.
  rewrite (find_NoDup_keys (rev (combine ks (seq 1 (length ks)))) c (S p)).
  - reflexivity.
  - rewrite map_rev, map_fst_combine by (rewrite length_seq; reflexivity).
    apply NoDup_rev. assumption.
  - apply in_rev. rewrite rev_involutive.
    apply nth_error_In with p. apply (nth_error_combine_seq ks 1 p c Hp).
Qed.

Lemma group_values_map {K K' : Type} (same : K' -> bool) (g : K -> K')
      (labels : list K) :
  forall metric,
    group_values same (map g labels) metric
    = group_values (fun l => same (g l)) labels metric.
Proof.
  unfold group_values.
  induction labels as [|l labels IH]; intros [|x metric]; try reflexivity.
  cbn [map combine filter fst snd].
  destruct (same (g l)); cbn [map snd]; [f_equal|]; apply IH.
Qed.

Lemma group_values_ext {K : Type} (same same' : K -> bool) (labels : list K) :
  (forall l, In l labels -> same l = same' l) ->
  forall metric, group_values same labels metric = group_values same' labels metric.
Proof.
  unfold group_values.
  induction labels as [|l labels IH]; intros Hext [|x metric]; try reflexivity.
  cbn [map combine filter fst snd].
  rewrite (Hext l (or_introl eq_refl)).
  destruct (same' l); cbn [map snd]; [f_equal|];
    apply IH; intros l' Hl'; apply Hext; right; assumption.
Qed.

End RankerLists.

Section RankerTheorems.

Context {P : Pandas} {PC : PandasContract P}.

Variables (labels : list nat) (metric : list float).

Let mean_of (c : nat) : float := pd_mean (group_values (Nat.eqb c) labels metric).
Let sorted : list (nat * float) := pd_sort_values (temp_summary labels metric).
Let ks : list nat := map fst sorted.

Lemma temp_summary_keys : map fst (temp_summary labels metric) = group_keys labels.
Proof.
  unfold temp_summary. rewrite map_map. cbn. apply map_id.
Qed.

Lemma sorted_keys_perm : Permutation ks (group_keys labels).
Proof.
  unfold ks, sorted. rewrite <- temp_summary_keys.
  apply Permutation_map. apply sort_permutation.
Qed.

Lemma sorted_keys_NoDup : NoDup ks.
Proof.
  apply (Permutation_NoDup (Permutation_sym sorted_keys_perm)).
  apply group_keys_NoDup.
Qed.

Lemma sorted_keys_position (c : nat) :
  In c labels -> exists p, nth_error ks p = Some c.
Proof.
  intros Hc. apply In_nth_error.
  apply (Permutation_in c (Permutation_sym sorted_keys_perm)).
  apply group_keys_In. assumption.
Qed.

Lemma sorted_row (p c : nat) :
  nth_error ks p = Some c -> nth_error sorted p = Some (c, mean_of c).
Proof.
  unfold ks. rewrite nth_error_map.
  destruct (nth_error sorted p) as [[c' x]|] eqn:Hp; cbn; [|discriminate].
  intros H; inversion H; subst c'.
  assert (Hin : In (c, x) (temp_summary labels metric)).
  { apply (Permutation_in (c, x) (sort_permutation (temp_summary labels metric))).
    apply nth_error_In with p. exact Hp. }
  unfold temp_summary in Hin. apply in_map_iff in Hin.
  destruct Hin as (c0 & Heq & _). inversion Heq; subst. reflexivity.
Qed.

Lemma final_label (c p : nat) :
  nth_error ks p = Some c ->
  dict_get (cluster_mapping labels metric) c = Some (S p).
Proof.
  intros Hp. unfold cluster_mapping. fold sorted. fold ks.
  apply dict_get_position; [apply sorted_keys_NoDup| |assumption].
  unfold ks. rewrite length_map. reflexivity.
Qed.

Lemma relabel_nth (u : nat) :
  nth_error (relabel labels metric) u
  = option_map (dict_get (cluster_mapping labels metric)) (nth_error labels u).
Proof. unfold relabel. apply nth_error_map. Qed.

(** The recomputed mean of a final cluster is the mean of the original
    cluster it renumbers. *)
Lemma cluster_means_final (c p : nat) :
  nth_error ks p = Some c ->
  cluster_means (relabel labels metric) metric (S p) = mean_of c.
Proof.
  intros Hp. unfold cluster_means, relabel, mean_of.
  rewrite group_values_map. f_equal.
  apply group_values_ext. intros l Hl.
  destruct (sorted_keys_position l Hl) as [q Hq].
  rewrite (final_label l q Hq).
  destruct (Nat.eqb_spec c l) as [->|Hne].
  - assert (q = p).
    { apply (proj1 (NoDup_nth_error ks) sorted_keys_NoDup); [|congruence].
      apply nth_error_Some. congruence. }
    subst q. apply Nat.eqb_refl.
  - apply Nat.eqb_neq. intros Heq. inversion Heq; subst q. congruence.
Qed.

(** C7, as amended. After the relabelling every user has a final label
    between 1 and the number of clusters in use; two users share a final
    label exactly when they shared the original one (membership is
    unchanged); and for final labels [i < j] the mean primary metric of
    cluster [i] is at most that of cluster [j] (the means being numbers).
    Nothing is claimed on the order in which clusters of equal mean are
    numbered. *)
Theorem cluster_ranking :
  Forall (fun r => F64.is_nan (snd r) = false) (temp_summary labels metric) ->
  let final := relabel labels metric in
  (forall u c, nth_error labels u = Some c ->
     exists i, nth_error final u = Some (Some i)
               /\ 1 <= i <= length (group_keys labels))
  /\ (forall u v i j,
        nth_error final u = Some (Some i) ->
        nth_error final v = Some (Some j) ->
        (i = j <-> nth_error labels u = nth_error labels v))
  /\ (forall u v i j,
        nth_error final u = Some (Some i) ->
        nth_error final v = Some (Some j) ->
        i < j ->
        F64.leb (cluster_means final metric i) (cluster_means final metric j) = true).
Proof.
  intros Hnan final.
  assert (Hfinal : forall u i, nth_error final u = Some (Some i) ->
            exists c p, nth_error labels u = Some c
                        /\ nth_error ks p = Some c /\ i = S p).
  { intros u i Hu. unfold final in Hu. rewrite relabel_nth in Hu.
    destruct (nth_error labels u) as [c|] eqn:Hc; [|discriminate].
    destruct (sorted_keys_position c (nth_error_In _ _ Hc)) as [p Hp].
    cbn in Hu. rewrite (final_label c p Hp) in Hu.
    exists c, p. inversion Hu. auto. }
  split; [|split].
  - intros u c Hc.
    destruct (sorted_keys_position c (nth_error_In _ _ Hc)) as [p Hp].
    exists (S p). split.
    + unfold final. rewrite relabel_nth, Hc. cbn.
      rewrite (final_label c p Hp). reflexivity.
    + assert (p < length ks) by (apply nth_error_Some; congruence).
      rewrite <- (Permutation_length sorted_keys_perm). lia.
  - intros u v i j Hu Hv.
    destruct (Hfinal u i Hu) as (cu & pu & Hcu & Hpu & ->).
    destruct (Hfinal v j Hv) as (cv & pv & Hcv & Hpv & ->).
    rewrite Hcu, Hcv. split.
    + intros Heq. inversion Heq; subst pv. congruence.
    + intros Heq. inversion Heq; subst cv. f_equal.
      apply (proj1 (NoDup_nth_error ks) sorted_keys_NoDup); [|congruence].
      apply nth_error_Some. congruence.
  - intros u v i j Hu Hv Hlt.
    destruct (Hfinal u i Hu) as (cu & pu & Hcu & Hpu & ->).
    destruct (Hfinal v j Hv) as (cv & pv & Hcv & Hpv & ->).
    unfold final.
    rewrite (cluster_means_final cu pu Hpu), (cluster_means_final cv pv Hpv).
    apply (sort_ascending (temp_summary labels metric) Hnan pu pv); [lia| |].
    + fold sorted. rewrite nth_error_map, (sorted_row pu cu Hpu). reflexivity.
    + fold sorted. rewrite nth_error_map, (sorted_row pv cv Hpv). reflexivity.
Qed.

End RankerTheorems.

(* ================================================================== *)
(** * The reference sorts keep the contract of [sort_values] *)
(* ================================================================== *)

Section ReferenceSorts.

Lemma not_leb_leb (x y : float) :
  F64.is_nan x = false -> F64.is_nan y = false ->
  F64.leb x y = false -> F64.leb y x = true.
Proof.
  intros Hx Hy H. destruct (F64.ltb y x) eqn:Hlt.
  - apply ltb_leb. assumption.
  - rewrite (not_ltb_leb y x Hy Hx Hlt) in H. discriminate.
Qed.

Variable before : float -> float -> bool.

Hypothesis before_true : forall x y, before x y = true -> F64.leb x y = true.
Hypothesis before_false : forall x y,
    F64.is_nan x = false -> F64.is_nan y = false ->
    before x y = false -> F64.leb y x = true.

Let R (a b : nat * float) : Prop := F64.leb (snd a) (snd b) = true.
Let number (r : nat * float) : Prop := F64.is_nan (snd r) = false.

Lemma insert_row_perm (r : nat * float) (l : list (nat * float)) :
  Permutation (Ref.insert_row before r l) (r :: l).
Proof.
  induction l as [|y l IH]; cbn; [reflexivity|].
  destruct (before (snd r) (snd y)); [reflexivity|].
  rewrite IH. apply perm_swap.
Qed.

Lemma sort_rows_perm (l : list (nat * float)) :
  Permutation (Ref.sort_rows before l) l.
Proof.
  induction l as [|r l IH]; cbn; [reflexivity|].
  rewrite insert_row_perm. constructor. exact IH.
Qed.

Lemma insert_row_sorted (r : nat * float) (l : list (nat * float)) :
  number r -> Forall number l -> StronglySorted R l ->
  StronglySorted R (Ref.insert_row before r l).
Proof.
  intros Hr. induction l as [|y l IH]; cbn; intros Hl Hs.
  - constructor; constructor.
  - inversion Hl as [|? ? Hy Hl']; subst.
    inversion Hs as [|? ? Hs' Hyl]; subst.
    destruct (before (snd r) (snd y)) eqn:Hb.
    + constructor; [assumption|].
      constructor; [apply before_true; assumption|].
      eapply Forall_impl; [|exact Hyl]. intros z Hz. unfold R in *.
      eapply leb_trans; [apply before_true; eassumption|assumption].
    + constructor; [apply IH; assumption|].
      apply Forall_forall. intros z Hz.
      apply (Permutation_in z (insert_row_perm r l)) in Hz.
      destruct Hz as [<-|Hz].
      * apply before_false; assumption.
      * rewrite Forall_forall in Hyl. apply Hyl. assumption.
Qed.

Lemma sort_rows_sorted (l : list (nat * float)) :
  Forall number l -> StronglySorted R (Ref.sort_rows before l).
Proof.
  induction 1 as [|r l Hr Hl IH]; cbn; [constructor|].
  apply insert_row_sorted; [assumption| |assumption].
  apply Forall_forall. intros z Hz.
  apply (Permutation_in z (sort_rows_perm l)) in Hz.
  rewrite Forall_forall in Hl. apply Hl. assumption.
Qed.

Lemma StronglySorted_nth_error (l : list (nat * float)) :
  StronglySorted R l ->
  forall i j a b, i < j ->
    nth_error l i = Some a -> nth_error l j = Some b -> R a b.
Proof.
  induction 1 as [|y l Hs IH Hy]; intros i j a b Hij Ha Hb.
  - destruct i; discriminate.
  - destruct j as [|j]; [lia|]. cbn in Hb.
    destruct i as [|i]; cbn in Ha.
    + inversion Ha; subst. rewrite Forall_forall in Hy.
      apply Hy. apply nth_error_In with j. assumption.
    + apply (IH i j); [lia|assumption|assumption].
Qed.

Lemma sort_rows_ascending (l : list (nat * float)) :
  Forall number l -> ascending (map snd (Ref.sort_rows before l)).
Proof.
  intros Hl i j a b Hij Ha Hb.
  rewrite nth_error_map in Ha, Hb.
  destruct (nth_error (Ref.sort_rows before l) i) as [ra|] eqn:Hra; [|discriminate].
  destruct (nth_error (Ref.sort_rows before l) j) as [rb|] eqn:Hrb; [|discriminate].
  inversion Ha; inversion Hb; subst.
  apply (StronglySorted_nth_error _ (sort_rows_sorted l Hl) i j ra rb Hij Hra Hrb).
Qed.

End ReferenceSorts.

#[export] Instance pandas_stable_contract : PandasContract Ref.pandas_stable.
Proof.
  split; cbn.
  - apply sort_rows_perm.
  - apply sort_rows_ascending.
    + auto.
    + apply not_leb_leb.
Qed.

(* ================================================================== *)
(** * The ranker on sample inputs *)
(* ================================================================== *)

Lemma cluster_ranking_witness :
  (forall u c, nth_error Sample.labels4 u = Some c ->
     exists i, nth_error (relabel (P := Ref.pandas_stable) Sample.labels4 Sample.metric4) u
               = Some (Some i)
               /\ 1 <= i <= length (group_keys Sample.labels4))
  /\ (forall u v i j,
        nth_error (relabel (P := Ref.pandas_stable) Sample.labels4 Sample.metric4) u
        = Some (Some i) ->
        nth_error (relabel (P := Ref.pandas_stable) Sample.labels4 Sample.metric4) v
        = Some (Some j) ->
        (i = j <-> nth_error Sample.labels4 u = nth_error Sample.labels4 v))
  /\ (forall u v i j,
        nth_error (relabel (P := Ref.pandas_stable) Sample.labels4 Sample.metric4) u
        = Some (Some i) ->
        nth_error (relabel (P := Ref.pandas_stable) Sample.labels4 Sample.metric4) v
        = Some (Some j) ->
        i < j ->
        F64.leb (cluster_means (P := Ref.pandas_stable)
                   (relabel (P := Ref.pandas_stable) Sample.labels4 Sample.metric4)
                   Sample.metric4 i)
                (cluster_means (P := Ref.pandas_stable)
                   (relabel (P := Ref.pandas_stable) Sample.labels4 Sample.metric4)
                   Sample.metric4 j) = true).
Proof.
  apply (cluster_ranking (P := Ref.pandas_stable) Sample.labels4 Sample.metric4).
  vm_compute. repeat constructor.
Defined.

Example cluster_ranking_sample :
  relabel (P := Ref.pandas_stable) Sample.labels4 Sample.metric4
  = [Some 3; Some 1; Some 2; Some 3].
Proof. vm_compute. reflexivity. Qed.

(** C7, as stated, fails on the order of equal means.  Four clusters
    of means 30, 20, 10 and 10: the sort of the summary, as numpy runs
    it in one vector register, leaves cluster 3 in front of cluster 2,
    so that the clusters 2 and 3 of equal mean 10 are numbered 2 and 1,
    against the order of their original indices. *)
Lemma tied_clusters_numbered_out_of_order :
  temp_summary (P := Ref.pandas_simd) [0; 1; 2; 3]
               [Sample.f 30; Sample.f 20; Sample.f 10; Sample.f 10]
  = [(0, Sample.f 30); (1, Sample.f 20); (2, Sample.f 10); (3, Sample.f 10)]
  /\ Ref.sort_values_simd
       [(0, Sample.f 30); (1, Sample.f 20); (2, Sample.f 10); (3, Sample.f 10)]
     = [(3, Sample.f 10); (2, Sample.f 10); (1, Sample.f 20); (0, Sample.f 30)]
  /\ relabel (P := Ref.pandas_simd) [0; 1; 2; 3]
             [Sample.f 30; Sample.f 20; Sample.f 10; Sample.f 10]
     = [Some 4; Some 3; Some 2; Some 1].
Proof.
  repeat split; vm_compute; reflexivity.
Qed.

(** Two clusters of equal mean 10 keep their order in the register. *)
Example two_tied_clusters_keep_their_order :
  relabel (P := Ref.pandas_simd) [0; 1] [Sample.f 10; Sample.f 10]
  = [Some 1; Some 2].
Proof. vm_compute. reflexivity. Qed.

(* ================================================================== *)
(** * What the rounded operations compute *)
(* ================================================================== *)


Section RneFacts.

Local Open Scope Z_scope.
Import Rounding.

Lemma rne_bounds (a b : Z) : 0 < b -> a / b <= rne a b <= a / b + 1.
Proof.
  intros Hb. unfold rne.
  destruct (2 * (a mod b) ?= b); try lia.
  destruct (Z.even (a / b)); lia.
Qed.

Lemma rne_exact (k b : Z) : 0 < b -> rne (k * b) b = k.
Proof.
  intros Hb. unfold rne.
  rewrite Z.div_mul, Z.mod_mul by lia.
  destruct (Z.compare_spec (2 * 0) b); lia.
Qed.

Lemma rne_mono (a1 a2 b : Z) : 0 < b -> a1 <= a2 -> rne a1 b <= rne a2 b.
Proof.
  intros Hb Hle.
  assert (Hq : a1 / b <= a2 / b) by (apply Z.div_le_mono; lia).
  destruct (Z.eq_dec (a1 / b) (a2 / b)) as [Heq|Hne].
  - assert (Hr : a1 mod b <= a2 mod b).
    { rewrite (Z.mod_eq a1 b), (Z.mod_eq a2 b) by lia. rewrite Heq. lia. }
    unfold rne. rewrite Heq.
    destruct (Z.compare_spec (2 * (a1 mod b)) b);
      destruct (Z.compare_spec (2 * (a2 mod b)) b);
      destruct (Z.even (a2 / b)); lia.
  - pose proof (rne_bounds a1 b Hb). pose proof (rne_bounds a2 b Hb). lia.
Qed.

Lemma rne_scale (a b c : Z) : 0 < b -> 0 < c -> rne (a * c) (b * c) = rne a b.
Proof.
  intros Hb Hc. unfold rne.
  rewrite Z.div_mul_cancel_r by lia.
  rewrite Z.mul_mod_distr_r by lia.
  replace (2 * (a mod b * c)) with (2 * (a mod b) * c) by ring.
  rewrite <- (Zmult_compare_compat_r (2 * (a mod b)) b c) by lia.
  reflexivity.
Qed.

Lemma rne_nonneg (a b : Z) : 0 <= a -> 0 < b -> 0 <= rne a b.
Proof.
  intros Ha Hb. pose proof (rne_bounds a b Hb).
  assert (0 <= a / b) by (apply Z.div_pos; lia). lia.
Qed.

Lemma rne_zero (b : Z) : 0 < b -> rne 0 b = 0.
Proof. intros Hb. apply (rne_exact 0 b Hb). Qed.

(** Below an integer bound, the rounding stays at most the bound. *)
Lemma rne_le_bound (a b k : Z) : 0 < b -> a <= k * b -> rne a b <= k.
Proof.
  intros Hb H. rewrite <- (rne_exact k b Hb). apply rne_mono; assumption.
Qed.

Lemma rne_ge_bound (a b k : Z) : 0 < b -> k * b <= a -> k <= rne a b.
Proof.
  intros Hb H. rewrite <- (rne_exact k b Hb). apply rne_mono; assumption.
Qed.

End RneFacts.

Section Digits.

Local Open Scope Z_scope.
Import Rounding.

Lemma digits2_pos_size (p : positive) : digits2_pos p = Pos.size p.
Proof. induction p; cbn; congruence. Qed.

Lemma Zdigits2_log2 (m : Z) : 0 < m -> Zdigits2 m = Z.log2 m + 1.
Proof.
  destruct m as [|p|p]; try lia. intros _. cbn [Zdigits2].
  rewrite digits2_pos_size. destruct p; cbn; lia.
Qed.

Lemma Zdigits2_bounds (m : Z) :
  0 < m -> 2 ^ (Zdigits2 m - 1) <= m < 2 ^ Zdigits2 m.
Proof.
  intros Hm. rewrite (Zdigits2_log2 m Hm).
  replace (Z.log2 m + 1 - 1) with (Z.log2 m) by lia.
  apply Z.log2_spec. assumption.
Qed.

Lemma Zdigits2_unique (m d : Z) :
  0 < d -> 2 ^ (d - 1) <= m < 2 ^ d -> Zdigits2 m = d.
Proof.
  intros Hd H.
  assert (Hm : 0 < m).
  { assert (0 < 2 ^ (d - 1)) by (apply Z.pow_pos_nonneg; lia). lia. }
  rewrite (Zdigits2_log2 m Hm).
  rewrite (Z.log2_unique m (d - 1)); [lia|lia|].
  replace (Z.succ (d - 1)) with d by lia. assumption.
Qed.

Lemma div_lt_inv (a b q : Z) : 0 < b -> a / b < q -> a < b * q.
Proof.
  intros Hb H.
  pose proof (Z.div_mod a b ltac:(lia)).
  pose proof (Z.mod_pos_bound a b Hb). nia.
Qed.

Lemma div_ge_inv (a b q : Z) : 0 < b -> q <= a / b -> b * q <= a.
Proof.
  intros Hb H.
  pose proof (Z.div_mod a b ltac:(lia)).
  pose proof (Z.mod_pos_bound a b Hb). nia.
Qed.

Lemma Zdigits2_nonneg (m : Z) : 0 <= Zdigits2 m.
Proof. destruct m; cbn; lia. Qed.

Lemma Zdigits2_pos (m : Z) : 0 < m -> 0 < Zdigits2 m.
Proof. destruct m; cbn; lia. Qed.

Lemma Zdigits2_mono (m n : Z) : 0 <= m <= n -> Zdigits2 m <= Zdigits2 n.
Proof.
  intros [Hm Hmn].
  destruct (Z.eq_dec m 0) as [->|Hne]; [apply Zdigits2_nonneg|].
  rewrite !Zdigits2_log2 by lia.
  pose proof (Z.log2_le_mono m n Hmn). lia.
Qed.

Lemma Zdigits2_lt_pow2 (m d : Z) : 0 <= m -> 0 <= d -> m < 2 ^ d -> Zdigits2 m <= d.
Proof.
  intros Hm Hd H.
  destruct (Z.eq_dec m 0) as [->|Hne]; [cbn; lia|].
  rewrite Zdigits2_log2 by lia.
  apply Z.log2_lt_pow2 in H; lia.
Qed.

Lemma Zdigits2_ge_pow2 (m d : Z) : 0 <= d -> 2 ^ d <= m -> d + 1 <= Zdigits2 m.
Proof.
  intros Hd H.
  assert (0 < 2 ^ d) by (apply Z.pow_pos_nonneg; lia).
  rewrite Zdigits2_log2 by lia.
  apply Z.log2_le_pow2 in H; lia.
Qed.

(** Shifting left adds to the count. *)
Lemma Zdigits2_shift (m j : Z) :
  0 < m -> 0 <= j -> Zdigits2 (m * 2 ^ j) = Zdigits2 m + j.
Proof.
  intros Hm Hj.
  assert (0 < 2 ^ j) by (apply Z.pow_pos_nonneg; lia).
  rewrite !Zdigits2_log2 by nia.
  rewrite Z.log2_mul_pow2 by lia. lia.
Qed.

End Digits.

Section ShiftRecords.

Local Open Scope Z_scope.
Import Rounding.

Lemma div_mod_double (a b : Z) :
  0 < b ->
  a / (2 * b) = a / b / 2
  /\ a mod (2 * b) = (a / b mod 2) * b + a mod b.
Proof.
  intros Hb.
  pose proof (Z.div_mod a b ltac:(lia)) as H1.
  pose proof (Z.mod_pos_bound a b Hb) as H2.
  pose proof (Z.div_mod (a / b) 2 ltac:(lia)) as H3.
  pose proof (Z.mod_pos_bound (a / b) 2 ltac:(lia)) as H4.
  assert (Heq : a = (a / b / 2) * (2 * b) + ((a / b mod 2) * b + a mod b)) by nia.
  assert (Hr : 0 <= (a / b mod 2) * b + a mod b < 2 * b) by nia.
  split.
  - symmetry. apply (Z.div_unique a (2 * b) _ ((a / b mod 2) * b + a mod b)); [lia|].
    rewrite Heq at 1. ring.
  - symmetry. apply (Z.mod_unique a (2 * b) (a / b / 2)); [lia|].
    rewrite Heq at 1. ring.
Qed.

(** One right shift of the record halves the located quotient. *)
Lemma shr_1_locates (mrs : shr_record) (a b : Z) :
  0 <= a -> 0 < b -> locates mrs a b -> locates (shr_1 mrs) a (2 * b).
Proof.
  intros Ha Hb (Hm & Hr & Hs).
  destruct (div_mod_double a b Hb) as [Hq Hrem].
  pose proof (Z.mod_pos_bound a b Hb) as Hbound.
  assert (Hq0 : 0 <= a / b) by (apply Z.div_pos; lia).
  destruct mrs as [m r s]. cbn [shr_m shr_r shr_s] in *.
  unfold locates. rewrite Hq, Hrem. rewrite <- Hm in *.
  assert (Hs' : orb r s = negb (a mod b =? 0)).
  { rewrite Hr, Hs.
    destruct (Z.leb_spec b (2 * (a mod b)));
      destruct (Z.eqb_spec (a mod b) 0);
      destruct (Z.eqb_spec (2 * (a mod b)) b); cbn; try reflexivity; lia. }
  assert (Hcase : forall (bit : Z) (m' : Z),
             (bit = 0 \/ bit = 1) -> m = 2 * m' + bit ->
             m' = m / 2
             /\ (if bit =? 1 then true else false)
                = (2 * b <=? 2 * (m mod 2 * b + a mod b))
             /\ negb (a mod b =? 0)
                = negb (m mod 2 * b + a mod b =? 0)
                  && negb (2 * (m mod 2 * b + a mod b) =? 2 * b)).
  { intros bit m' Hbit Hm'.
    assert (Hdiv : m / 2 = m' /\ m mod 2 = bit).
    { split; [symmetry; apply (Z.div_unique m 2 m' bit)
             |symmetry; apply (Z.mod_unique m 2 m' bit)]; lia. }
    destruct Hdiv as [Hd Hmod]. rewrite Hd, Hmod.
    split; [reflexivity|].
    destruct Hbit as [-> | ->]; cbn [Z.eqb].
    - split.
      + destruct (Z.leb_spec (2 * b) (2 * (0 * b + a mod b))); [lia|reflexivity].
      + destruct (Z.eqb_spec (a mod b) 0);
          destruct (Z.eqb_spec (0 * b + a mod b) 0);
          destruct (Z.eqb_spec (2 * (0 * b + a mod b)) (2 * b));
          cbn; try reflexivity; lia.
    - split.
      + destruct (Z.leb_spec (2 * b) (2 * (1 * b + a mod b))); [reflexivity|lia].
      + destruct (Z.eqb_spec (a mod b) 0);
          destruct (Z.eqb_spec (1 * b + a mod b) 0);
          destruct (Z.eqb_spec (2 * (1 * b + a mod b)) (2 * b));
          cbn; try reflexivity; lia. }
  destruct m as [|[p|p|]|p]; cbn [shr_1 shr_m shr_r shr_s]; try lia; rewrite Hs'.
  - destruct (Hcase 0 0) as (H1 & H2 & H3); [lia|lia|]. cbn in H2. auto.
  - destruct (Hcase 1 (Z.pos p)) as (H1 & H2 & H3); [lia|lia|]. cbn in H2. auto.
  - destruct (Hcase 0 (Z.pos p)) as (H1 & H2 & H3); [lia|lia|]. cbn in H2. auto.
  - destruct (Hcase 1 0) as (H1 & H2 & H3); [lia|lia|]. cbn in H2. auto.
Qed.

Lemma iter_pos_shr_1_locates (n : positive) (a : Z) :
  0 <= a ->
  forall mrs b, 0 < b -> locates mrs a b ->
    locates (iter_pos shr_1 n mrs) a (b * 2 ^ Z.pos n).
Proof.
  intros Ha. induction n as [n IH|n IH|]; intros mrs b Hb H; cbn [iter_pos].
  - replace (b * 2 ^ Z.pos n~1) with (2 * b * 2 ^ Z.pos n * 2 ^ Z.pos n).
    + assert (0 < 2 ^ Z.pos n) by (apply Z.pow_pos_nonneg; lia).
      apply IH; [nia|]. apply IH; [lia|]. apply shr_1_locates; assumption.
    + replace (Z.pos n~1) with (1 + Z.pos n + Z.pos n) by lia.
      rewrite !Z.pow_add_r by lia. ring.
  - replace (b * 2 ^ Z.pos n~0) with (b * 2 ^ Z.pos n * 2 ^ Z.pos n).
    + assert (0 < 2 ^ Z.pos n) by (apply Z.pow_pos_nonneg; lia).
      apply IH; [nia|]. apply IH; assumption.
    + replace (Z.pos n~0) with (Z.pos n + Z.pos n) by lia.
      rewrite !Z.pow_add_r by lia. ring.
  - replace (b * 2 ^ 1) with (2 * b) by ring.
    apply shr_1_locates; assumption.
Qed.

(** Rounding the record is rounding the quotient it locates. *)
Lemma round_nearest_even_locates (mrs : shr_record) (a b : Z) :
  0 < b -> locates mrs a b ->
  round_nearest_even (shr_m mrs) (loc_of_shr_record mrs) = rne a b.
Proof.
  intros Hb (Hm & Hr & Hs).
  pose proof (Z.mod_pos_bound a b Hb) as Hbound.
  destruct mrs as [m r s]. cbn [shr_m shr_r shr_s] in *. subst m.
  unfold rne. rewrite Hr, Hs.
  destruct (Z.compare_spec (2 * (a mod b)) b);
    destruct (Z.leb_spec b (2 * (a mod b))); try lia;
    destruct (Z.eqb_spec (a mod b) 0); try lia;
    destruct (Z.eqb_spec (2 * (a mod b)) b); try lia;
    reflexivity.
Qed.

Lemma locates_exact (m : Z) : locates (shr_record_of_loc m loc_Exact) m 1.
Proof.
  unfold locates. cbn. rewrite Z.div_1_r, Z.mod_1_r. cbn. auto.
Qed.

(** The location [SFdiv] computes from the remainder of a division by
    an even divisor. *)
Lemma locates_division (a b : Z) :
  0 < b -> Z.even b = true ->
  locates (shr_record_of_loc (a / b) (new_location b (a mod b))) a b.
Proof.
  intros Hb Heven.
  pose proof (Z.mod_pos_bound a b Hb) as Hbound.
  unfold locates, new_location, new_location_even. rewrite Heven.
  destruct (Z.eqb_spec (a mod b) 0) as [H0|H0];
    [|destruct (Z.compare_spec (2 * (a mod b)) b) as [H|H|H]];
    cbn [shr_record_of_loc shr_m shr_r shr_s negb andb];
    (split; [reflexivity|]);
    destruct (Z.leb_spec b (2 * (a mod b))); try lia;
    destruct (Z.eqb_spec (2 * (a mod b)) b); try lia;
    split; reflexivity.
Qed.

End ShiftRecords.

Section BinaryRoundAux.

Local Open Scope Z_scope.
Import Rounding.

Lemma fexp_eq (z : Z) : fexp 53 1024 z = Z.max (z - 53) (-1074).
Proof. reflexivity. Qed.

Lemma binary_round_aux_finish (s : bool) (m e : Z) (l : location) :
  binary_round_aux 53 1024 s m e l
  = finish s
      (round_nearest_even (shr_m (fst (shr_fexp 53 1024 m e l)))
                          (loc_of_shr_record (fst (shr_fexp 53 1024 m e l))))
      (snd (shr_fexp 53 1024 m e l)).
Proof.
  unfold binary_round_aux, finish.
  destruct (shr_fexp 53 1024 m e l) as [mrs' e']. reflexivity.
Qed.

(** The first shift of [binary_round_aux], when it does not shift left. *)
Lemma shr_fexp_locates (m e : Z) (l : location) (a b : Z) :
  0 <= a -> 0 < b ->
  locates (shr_record_of_loc m l) a b ->
  e <= fexp 53 1024 (Zdigits2 m + e) ->
  snd (shr_fexp 53 1024 m e l) = fexp 53 1024 (Zdigits2 m + e)
  /\ locates (fst (shr_fexp 53 1024 m e l)) a
             (b * 2 ^ (fexp 53 1024 (Zdigits2 m + e) - e)).
Proof.
  intros Ha Hb Hloc Hle. unfold shr_fexp, shr.
  destruct (fexp 53 1024 (Zdigits2 m + e) - e) as [|n|n] eqn:Hn; cbn [fst snd].
  - split; [lia|]. rewrite Z.pow_0_r, Z.mul_1_r. assumption.
  - split; [lia|]. apply iter_pos_shr_1_locates; assumption.
  - lia.
Qed.

(** Packing a rounded mantissa of at most 53 bits, or the carry
    [2 ^ 53], keeps its value. *)
Lemma finish_spec (s : bool) (M E : Z) :
  0 <= M <= 2 ^ 53 -> -1074 <= E <= 969 ->
  (M = 0 /\ finish s M E = S754_zero s)
  \/ (exists m' e',
        finish s M E = S754_finite s m' e'
        /\ Zpos m' * 2 ^ (e' - E) = M
        /\ E <= e' <= E + 1
        /\ Zpos m' < 2 ^ 53).
Proof.
  intros HM HE.
  destruct (Z.eq_dec M (2 ^ 53)) as [->|Hne].
  - right. exists (2 ^ 52)%positive, (E + 1).
    unfold finish, shr_fexp.
    change (Zdigits2 (2 ^ 53)) with 54.
    rewrite fexp_eq.
    replace (Z.max (54 + E - 53) (-1074) - E) with 1 by lia.
    cbn [shr iter_pos shr_record_of_loc].
    change (shr_m (shr_1 {| shr_m := 2 ^ 53; shr_r := false; shr_s := false |}))
      with (Z.pos (2 ^ 52)).
    cbn iota beta.
    destruct (Z.leb_spec (E + 1) (1024 - 53)); [|lia].
    split; [reflexivity|].
    replace (E + 1 - E) with 1 by lia.
    split; [reflexivity|]. split; [lia|reflexivity].
  - assert (Hd : Zdigits2 M <= 53).
    { apply Zdigits2_lt_pow2; lia. }
    assert (Hshift : fexp 53 1024 (Zdigits2 M + E) - E <= 0).
    { rewrite fexp_eq. lia. }
    assert (Hf : shr_fexp 53 1024 M E loc_Exact
                 = ({| shr_m := M; shr_r := false; shr_s := false |}, E)).
    { unfold shr_fexp, shr.
      destruct (fexp 53 1024 (Zdigits2 M + E) - E); try reflexivity. lia. }
    unfold finish. rewrite Hf. cbn [shr_m].
    destruct M as [|p|p]; [left; auto| |lia].
    right. exists p, E.
    destruct (Z.leb_spec E (1024 - 53)); [|lia].
    split; [reflexivity|].
    rewrite Z.sub_diag, Z.pow_0_r, Z.mul_1_r.
    split; [reflexivity|]. split; lia.
Qed.

(** [binary_round_aux] on a located quotient [a / b]: the result is the
    quotient rounded to nearest-even at the exponent
    [E = fexp (digits + e)]. *)
Lemma binary_round_aux_spec (s : bool) (m e : Z) (l : location) (a b : Z) :
  0 <= a -> 0 < b ->
  locates (shr_record_of_loc m l) a b ->
  m = a / b ->
  let E := fexp 53 1024 (Zdigits2 m + e) in
  e <= E -> E <= 969 ->
  let M := rne a (b * 2 ^ (E - e)) in
  (M = 0 /\ binary_round_aux 53 1024 s m e l = S754_zero s)
  \/ (exists m' e',
        binary_round_aux 53 1024 s m e l = S754_finite s m' e'
        /\ Zpos m' * 2 ^ (e' - E) = M
        /\ E <= e' <= E + 1
        /\ Zpos m' < 2 ^ 53).
Proof.
  intros Ha Hb Hloc Hm E Hle HE M.
  destruct (shr_fexp_locates m e l a b Ha Hb Hloc Hle) as [Hsnd Hfst].
  fold E in Hsnd, Hfst.
  assert (Hpow : 0 < 2 ^ (E - e)) by (apply Z.pow_pos_nonneg; lia).
  rewrite binary_round_aux_finish, Hsnd.
  rewrite (round_nearest_even_locates _ a (b * 2 ^ (E - e))); [|nia|assumption].
  fold M. apply finish_spec.
  - split; [apply rne_nonneg; [assumption|nia]|].
    apply rne_le_bound; [nia|].
    (* a < b * 2 ^ digits, and digits <= E - e + 53 *)
    assert (Hm0 : 0 <= m) by (subst m; apply Z.div_pos; lia).
    assert (Hlt : m < 2 ^ Zdigits2 m).
    { destruct (Z.eq_dec m 0) as [->|Hne]; [reflexivity|].
      apply Zdigits2_bounds. lia. }
    assert (Ha' : a < b * 2 ^ Zdigits2 m).
    { apply div_lt_inv; [assumption|]. rewrite <- Hm. exact Hlt. }
    assert (Hdig : Zdigits2 m <= E - e + 53).
    { unfold E. rewrite fexp_eq. lia. }
    assert (Hmono : 2 ^ Zdigits2 m <= 2 ^ (E - e + 53)).
    { apply Z.pow_le_mono_r; [lia|assumption]. }
    rewrite Z.pow_add_r in Hmono by lia. nia.
  - unfold E. rewrite fexp_eq. unfold E in HE. rewrite fexp_eq in HE. lia.
Qed.

End BinaryRoundAux.

Section RoundTo.

Local Open Scope Z_scope.
Import Rounding.

Lemma round_to_zero (lo b : Z) : 0 < b -> 0 <= lo -> round_to lo 0 b = 0.
Proof.
  intros Hb Hlo. unfold round_to.
  assert (0 < 2 ^ Z.max (Zdigits2 (0 / b) - 53) lo) by (apply Z.pow_pos_nonneg; lia).
  rewrite rne_zero by nia. reflexivity.
Qed.

Lemma round_to_nonneg (lo a b : Z) : 0 <= lo -> 0 < b -> 0 <= a -> 0 <= round_to lo a b.
Proof.
  intros Hlo Hb Ha. unfold round_to.
  assert (0 < 2 ^ Z.max (Zdigits2 (a / b) - 53) lo) by (apply Z.pow_pos_nonneg; lia).
  assert (0 <= rne a (b * 2 ^ Z.max (Zdigits2 (a / b) - 53) lo))
    by (apply rne_nonneg; nia).
  nia.
Qed.

(** Rounding is monotone. *)
Lemma round_to_mono (lo a1 a2 b : Z) :
  0 <= lo -> 0 < b -> 0 <= a1 <= a2 ->
  round_to lo a1 b <= round_to lo a2 b.
Proof.
  intros Hlo Hb [Ha1 Ha].
  assert (Hq1 : 0 <= a1 / b) by (apply Z.div_pos; lia).
  assert (Hq : a1 / b <= a2 / b) by (apply Z.div_le_mono; lia).
  pose proof (Zdigits2_mono (a1 / b) (a2 / b) (conj Hq1 Hq)) as Hd.
  unfold round_to.
  set (t1 := Z.max (Zdigits2 (a1 / b) - 53) lo).
  set (t2 := Z.max (Zdigits2 (a2 / b) - 53) lo).
  assert (Ht : t1 <= t2) by (unfold t1, t2; lia).
  assert (Hp1 : 0 < 2 ^ t1) by (apply Z.pow_pos_nonneg; unfold t1; lia).
  assert (Hp2 : 0 < 2 ^ t2) by (apply Z.pow_pos_nonneg; unfold t2; lia).
  destruct (Z.eq_dec t1 t2) as [Heq|Hne].
  - rewrite <- Heq.
    pose proof (rne_mono a1 a2 (b * 2 ^ t1) ltac:(nia) Ha). nia.
  - (* the two roundings are separated by a power of two *)
    set (d2 := Zdigits2 (a2 / b)).
    assert (Ht2 : t2 = d2 - 53) by (unfold t1, t2, d2 in *; lia).
    assert (Hlo2 : 0 <= t1 < t2) by (unfold t1 in *; lia).
    assert (Hq2 : 0 < a2 / b).
    { destruct (Z.eq_dec (a2 / b) 0) as [H0|H0]; [|lia].
      unfold d2 in Ht2. rewrite H0 in Ht2. cbn in Ht2. lia. }
    pose proof (Zdigits2_bounds (a2 / b) Hq2) as Hb2. fold d2 in Hb2.
    assert (Hlt1 : a1 / b < 2 ^ (d2 - 1)).
    { destruct (Z.eq_dec (a1 / b) 0) as [H0|H0].
      - rewrite H0. apply Z.pow_pos_nonneg; lia.
      - pose proof (Zdigits2_bounds (a1 / b) ltac:(lia)) as Hb1.
        apply Z.lt_le_trans with (2 ^ Zdigits2 (a1 / b)); [apply Hb1|].
        apply Z.pow_le_mono_r; [lia|]. unfold t1 in *. lia. }
    apply div_lt_inv in Hlt1; [|assumption].
    destruct Hb2 as [Hge2 _]. apply div_ge_inv in Hge2; [|assumption].
    apply Z.le_trans with (2 ^ (d2 - 1)).
    + replace (d2 - 1) with ((d2 - 1 - t1) + t1) by lia.
      rewrite Z.pow_add_r by lia.
      apply Z.mul_le_mono_nonneg_r; [lia|].
      apply rne_le_bound; [nia|].
      replace (d2 - 1) with ((d2 - 1 - t1) + t1) in Hlt1 by lia.
      rewrite Z.pow_add_r in Hlt1 by lia. nia.
    + replace (d2 - 1) with (52 + t2) by lia.
      rewrite Z.pow_add_r by lia.
      apply Z.mul_le_mono_nonneg_r; [lia|].
      apply rne_ge_bound; [nia|].
      replace (d2 - 1) with (52 + t2) in Hge2 by lia.
      rewrite Z.pow_add_r in Hge2 by lia. nia.
Qed.

End RoundTo.

Section Constants.

Local Open Scope Z_scope.
Import Rounding.


Local Abbreviation mc := 7205759403792794%positive.
Local Abbreviation m10 := 5629499534213120%positive.

Lemma digits_floor_shift (m b j : Z) :
  0 < b -> 1 <= m / b -> 0 <= j ->
  Zdigits2 ((m * 2 ^ j) / b) = Zdigits2 (m / b) + j.
Proof.
  intros Hb Hq Hj.
  pose proof (Zdigits2_bounds (m / b) ltac:(lia)) as [Hlo Hhi].
  pose proof (Zdigits2_pos (m / b) ltac:(lia)) as Hd.
  assert (Hpj : 0 < 2 ^ j) by (apply Z.pow_pos_nonneg; lia).
  apply div_ge_inv in Hlo; [|assumption].
  apply div_lt_inv in Hhi; [|assumption].
  apply Zdigits2_unique; [lia|]. split.
  - apply Z.div_le_lower_bound; [assumption|].
    replace (Zdigits2 (m / b) + j - 1) with ((Zdigits2 (m / b) - 1) + j) by lia.
    rewrite Z.pow_add_r by lia. nia.
  - apply Z.div_lt_upper_bound; [assumption|].
    rewrite Z.pow_add_r by lia. nia.
Qed.

(** The product by [0.10]. *)
Lemma mul_c0_10_spec (s : bool) (mx : positive) (ex : Z) :
  -1074 <= ex <= 971 -> Z.pos mx < 2 ^ 53 ->
  let y := SFmul 53 1024 (S754_finite s mx ex) F64.c0_10 in
  small y
  /\ scaled 1130 y
     = cond_Zopp s (round_to 56 (Z.pos mx * 2 ^ (ex + 1074) * Z.pos mc) 1).
Proof.
  intros Hex Hmx y.
  set (P := Z.pos (mx * mc)).
  set (e := ex + -56).
  assert (HP : P = Z.pos mx * Z.pos mc) by reflexivity.
  assert (HPlo : 2 ^ 52 <= P) by (rewrite HP; lia).
  assert (HPhi : P < 2 ^ 106).
  { rewrite HP. change (2 ^ 106) with (2 ^ 53 * 2 ^ 53). nia. }
  pose proof (Zdigits2_ge_pow2 P 52 ltac:(lia) HPlo) as Hdlo.
  pose proof (Zdigits2_lt_pow2 P 106 ltac:(lia) ltac:(lia) HPhi) as Hdhi.
  set (E := fexp 53 1024 (Zdigits2 P + e)).
  assert (HE : E = Z.max (Zdigits2 P + e - 53) (-1074)) by reflexivity.
  set (j := ex + 1074).
  set (t := E + 1130).
  assert (Hpj : 0 < 2 ^ j) by (apply Z.pow_pos_nonneg; unfold j; lia).
  assert (Hpn : 0 < 2 ^ (E - e)) by (apply Z.pow_pos_nonneg; unfold e; lia).
  (* the rounded product as a multiple of 2 ^ -1130 *)
  assert (Hround : round_to 56 (Z.pos mx * 2 ^ j * Z.pos mc) 1
                   = rne P (1 * 2 ^ (E - e)) * 2 ^ t).
  { unfold round_to.
    replace (Z.pos mx * 2 ^ j * Z.pos mc) with (P * 2 ^ j) by (rewrite HP; ring).
    rewrite Z.div_1_r, Zdigits2_shift by (unfold j; lia).
    replace (Z.max (Zdigits2 P + j - 53) 56) with t by (unfold t, j, e in *; lia).
    f_equal.
    replace t with ((E - e) + j) by (unfold t, j, e; lia).
    rewrite Z.pow_add_r by (unfold j, e in *; lia).
    rewrite Z.mul_assoc. apply rne_scale; lia. }
  rewrite Hround.
  destruct (binary_round_aux_spec (xorb s false) P e loc_Exact P 1)
    as [[HM Hy]|(m' & e' & Hy & Hval & He' & Hm')].
  - lia.
  - lia.
  - apply locates_exact.
  - rewrite Z.div_1_r. reflexivity.
  - fold E. unfold e in *. lia.
  - fold E. unfold e in *. lia.
  - fold E in HM, Hy.
    assert (Hyeq : y = S754_zero (xorb s false)) by exact Hy.
    rewrite Hyeq. cbn [small scaled]. split; [exact I|].
    rewrite HM. destruct s; reflexivity.
  - fold E in Hval, He', Hy.
    assert (Hyeq : y = S754_finite (xorb s false) m' e') by exact Hy.
    rewrite Hyeq, xorb_false_r. cbn [small scaled]. split.
    + split; [unfold e in *; lia|assumption].
    + f_equal. rewrite <- Hval.
      replace (e' + 1130) with ((e' - E) + t) by (unfold t; lia).
      rewrite Z.pow_add_r by (unfold t, e in *; lia). ring.
Qed.

(** The quotient by [10.0]. *)
Lemma div_c10_0_spec (s : bool) (my : positive) (ey : Z) :
  -1074 <= ey <= 971 -> Z.pos my < 2 ^ 53 ->
  let z := SFdiv 53 1024 (S754_finite s my ey) F64.c10_0 in
  small z
  /\ scaled 1074 z
     = cond_Zopp s (round_to 0 (Z.pos my * 2 ^ (ey + 1074) * 2 ^ 49) (Z.pos m10)).
Proof.
  intros Hey Hmy z.
  set (d1 := Zdigits2 (Z.pos my)).
  assert (Hd1 : 1 <= d1 <= 53).
  { unfold d1. split; [pose proof (Zdigits2_pos (Z.pos my)); lia|].
    apply Zdigits2_lt_pow2; lia. }
  pose proof (Zdigits2_bounds (Z.pos my) ltac:(lia)) as [Hmylo Hmyhi].
  fold d1 in Hmylo, Hmyhi.
  set (e' := fexp 53 1024 (d1 + ey - 4)).
  assert (He' : e' = Z.max (d1 + ey - 57) (-1074)) by (unfold e'; rewrite fexp_eq; lia).
  set (sh := ey + 49 - e').
  assert (Hsh : 49 <= sh) by (unfold sh; lia).
  set (m' := Z.pos my * 2 ^ sh).
  assert (Hpsh : 0 < 2 ^ sh) by (apply Z.pow_pos_nonneg; lia).
  assert (Hm'pos : 0 < m') by (unfold m'; nia).
  set (q := m' / Z.pos m10).
  assert (Hq0 : 0 <= q) by (apply Z.div_pos; lia).
  (* what the core division returns *)
  assert (Hcore : SFdiv_core_binary 53 1024 (Z.pos my) ey (Z.pos m10) (-49)
                  = (q, e', new_location (Z.pos m10) (m' mod Z.pos m10))).
  { unfold SFdiv_core_binary.
    change (Zdigits2 (Z.pos m10)) with 53. fold d1.
    replace (d1 + ey - (53 + -49)) with (d1 + ey - 4) by lia. fold e'.
    replace (ey - -49) with (ey + 49) by lia.
    rewrite Z.min_l by lia. fold sh.
    destruct sh as [|p|p] eqn:Hshp; try lia.
    rewrite Z.shiftl_mul_pow2 by lia. fold m'.
    unfold q, Z.div, Z.modulo.
    destruct (Z.div_eucl m' (Z.pos m10)) as [q0 r0]. reflexivity. }
  set (E := fexp 53 1024 (Zdigits2 q + e')).
  assert (HE : E = Z.max (Zdigits2 q + e' - 53) (-1074)) by reflexivity.
  (* in the normal range the quotient has at least 53 bits *)
  assert (Hqbig : -1074 < d1 + ey - 57 -> 2 ^ 52 <= q).
  { intros Hn. unfold q. apply Z.div_le_lower_bound; [lia|].
    assert (Hs : sh = 106 - d1) by (unfold sh; lia).
    assert (Hm'lo : 2 ^ 105 <= m').
    { unfold m'. rewrite Hs.
      replace 105 with ((d1 - 1) + (106 - d1)) by lia.
      rewrite Z.pow_add_r by lia.
      apply Z.mul_le_mono_nonneg; try lia.
      all: apply Z.pow_nonneg; lia. }
    change (2 ^ 105) with (2 ^ 53 * 2 ^ 52) in Hm'lo. lia. }
  assert (HeE : e' <= E).
  { destruct (Z_lt_le_dec (-1074) (d1 + ey - 57)) as [Hn|Hn].
    - pose proof (Zdigits2_ge_pow2 q 52 ltac:(lia) (Hqbig Hn)). lia.
    - lia. }
  assert (Hdq : Zdigits2 q <= Z.max (d1 + sh - 52) 0).
  { destruct (Z_lt_le_dec (d1 + sh - 52) 0) as [Hneg|Hpos].
    - assert (q = 0).
      { unfold q. apply Z.div_small. split; [lia|].
        apply Z.lt_le_trans with (2 ^ 52); [|lia].
        unfold m'.
        apply Z.lt_le_trans with (2 ^ d1 * 2 ^ sh); [nia|].
        rewrite <- Z.pow_add_r by lia.
        apply Z.pow_le_mono_r; lia. }
      subst q. rewrite H. cbn. lia.
    - rewrite Z.max_l by lia.
      apply Zdigits2_lt_pow2; [assumption|lia|].
      unfold q. apply Z.div_lt_upper_bound; [lia|].
      apply Z.lt_le_trans with (2 ^ 52 * 2 ^ (d1 + sh - 52)).
      + rewrite <- Z.pow_add_r by lia.
        replace (52 + (d1 + sh - 52)) with (d1 + sh) by lia.
        rewrite Z.pow_add_r by lia. unfold m'. nia.
      + apply Z.mul_le_mono_nonneg_r; [apply Z.pow_nonneg; lia|lia]. }
  assert (HE969 : E <= 969) by (unfold sh in *; lia).
  set (j := e' + 1074).
  assert (Hj : 0 <= j) by (unfold j; lia).
  assert (Hpj : 0 < 2 ^ j) by (apply Z.pow_pos_nonneg; lia).
  assert (Hpn : 0 < 2 ^ (E - e')) by (apply Z.pow_pos_nonneg; lia).
  set (t := E + 1074).
  assert (Ha : Z.pos my * 2 ^ (ey + 1074) * 2 ^ 49 = m' * 2 ^ j).
  { unfold m'. rewrite <- !Z.mul_assoc, <- !Z.pow_add_r by (unfold j; lia).
    f_equal. f_equal. unfold sh, j. lia. }
  assert (Hround : round_to 0 (Z.pos my * 2 ^ (ey + 1074) * 2 ^ 49) (Z.pos m10)
                   = rne m' (Z.pos m10 * 2 ^ (E - e')) * 2 ^ t).
  { unfold round_to. rewrite Ha.
    assert (Hdig : Z.max (Zdigits2 (m' * 2 ^ j / Z.pos m10) - 53) 0 = t).
    { destruct (Z.eq_dec q 0) as [Hq|Hq].
      - assert (Hj0 : j = 0).
        { destruct (Z_lt_le_dec (-1074) (d1 + ey - 57)) as [Hn|Hn];
            [specialize (Hqbig Hn); lia|unfold j; lia]. }
        rewrite Hj0, Z.pow_0_r, Z.mul_1_r. fold q. rewrite Hq. cbn [Zdigits2].
        unfold t. rewrite HE, Hq. cbn [Zdigits2]. unfold j in Hj0. lia.
      - rewrite digits_floor_shift by (fold q; lia). fold q.
        unfold t, j. lia. }
    rewrite Hdig. f_equal.
    replace t with ((E - e') + j) by (unfold t, j; lia).
    rewrite Z.pow_add_r by lia.
    rewrite Z.mul_assoc. apply rne_scale; lia. }
  rewrite Hround.
  assert (Hz : z = binary_round_aux 53 1024 (xorb s false) q e'
                     (new_location (Z.pos m10) (m' mod Z.pos m10))).
  { unfold z, F64.c10_0, SFdiv. rewrite Hcore. reflexivity. }
  destruct (binary_round_aux_spec (xorb s false) q e'
              (new_location (Z.pos m10) (m' mod Z.pos m10)) m' (Z.pos m10))
    as [[HM Hy]|(mz & ez & Hy & Hval & Hez & Hmz)].
  - lia.
  - lia.
  - apply locates_division; [lia|reflexivity].
  - reflexivity.
  - fold E. assumption.
  - fold E. assumption.
  - fold E in HM. rewrite Hz, Hy. cbn [small scaled]. split; [exact I|].
    rewrite HM. destruct s; reflexivity.
  - fold E in Hval, Hez. rewrite Hz, Hy, xorb_false_r. cbn [small scaled]. split.
    + split; [lia|assumption].
    + f_equal. rewrite <- Hval.
      replace (ez + 1074) with ((ez - E) + t) by (unfold t; lia).
      rewrite Z.pow_add_r by (unfold t; lia). ring.
Qed.

End Constants.

(* ================================================================== *)
(** * The reward mapper *)
(* ================================================================== *)

Section RewardLemmas.

Local Open Scope Z_scope.
Import Rounding.

Lemma valid_finite_inv (s : bool) (m : positive) (e : Z) :
  F64.valid (S754_finite s m e) = true ->
  -1074 <= e <= 971
  /\ Zdigits2 (Z.pos m) <= 53
  /\ (-1074 < e -> Zdigits2 (Z.pos m) = 53).
Proof.
  unfold F64.valid, valid_binary, bounded, canonical_mantissa.
  intros H. apply andb_true_iff in H. destruct H as [Hc Hb].
  apply Z.eqb_eq in Hc. apply Z.leb_le in Hb.
  change (Z.pos (digits2_pos m)) with (Zdigits2 (Z.pos m)) in Hc.
  change (fexp F64.prec F64.emax) with (fexp 53 1024) in Hc.
  rewrite fexp_eq in Hc.
  change (F64.emax - F64.prec) with 971 in Hb. lia.
Qed.

Lemma valid_small (x : float) :
  F64.is_finite x = true -> F64.valid x = true -> small x.
Proof.
  destruct x as [s|s| |s m e]; cbn [F64.is_finite small]; intros Hf Hv;
    try discriminate; [exact I|].
  destruct (valid_finite_inv s m e Hv) as (He & Hd & _).
  split; [assumption|].
  pose proof (Zdigits2_bounds (Z.pos m) ltac:(lia)) as [_ Hhi].
  apply Z.lt_le_trans with (2 ^ Zdigits2 (Z.pos m)); [assumption|].
  apply Z.pow_le_mono_r; lia.
Qed.

(** Among the values of the format, a larger exponent is a larger
    number. *)
Lemma canonical_order (s s' : bool) (m m' : positive) (e e' : Z) :
  F64.valid (S754_finite s m e) = true ->
  F64.valid (S754_finite s' m' e') = true ->
  e < e' ->
  Z.pos m * 2 ^ (e + 1074) < Z.pos m' * 2 ^ (e' + 1074).
Proof.
  intros Hv Hv' Hlt.
  destruct (valid_finite_inv s m e Hv) as (He & Hd & _).
  destruct (valid_finite_inv s' m' e' Hv') as (He' & _ & Hd').
  specialize (Hd' ltac:(lia)).
  pose proof (Zdigits2_bounds (Z.pos m) ltac:(lia)) as [_ Hhi].
  pose proof (Zdigits2_bounds (Z.pos m') ltac:(lia)) as [Hlo _].
  rewrite Hd' in Hlo. change (2 ^ (53 - 1)) with (2 ^ 52) in Hlo.
  assert (Hm : Z.pos m < 2 ^ 53).
  { apply Z.lt_le_trans with (2 ^ Zdigits2 (Z.pos m)); [assumption|].
    apply Z.pow_le_mono_r; lia. }
  replace (e' + 1074) with ((e' - e) + (e + 1074)) by lia.
  rewrite (Z.pow_add_r 2 (e' - e) (e + 1074)) by lia.
  assert (Hp : 0 < 2 ^ (e + 1074)) by (apply Z.pow_pos_nonneg; lia).
  assert (H2 : 2 ^ 1 <= 2 ^ (e' - e)) by (apply Z.pow_le_mono_r; lia).
  change (2 ^ 1) with 2 in H2.
  assert (H3 : Z.pos m < Z.pos m' * 2 ^ (e' - e)).
  { apply Z.lt_le_trans with (2 ^ 52 * 2); [lia|].
    apply Z.mul_le_mono_nonneg; lia. }
  rewrite Z.mul_assoc. apply Z.mul_lt_mono_pos_r; assumption.
Qed.

(** On the values of the format the comparison of the source is the
    comparison of the numbers. *)
Lemma leb_scaled (x x' : float) :
  F64.is_finite x = true -> F64.valid x = true ->
  F64.is_finite x' = true -> F64.valid x' = true ->
  F64.leb x x' = true ->
  scaled 1074 x <= scaled 1074 x'.
Proof.
  intros Hf Hv Hf' Hv' Hle.
  apply leb_key in Hle;
    [|destruct x; [reflexivity|reflexivity|discriminate|reflexivity]
     |destruct x'; [reflexivity|reflexivity|discriminate|reflexivity]].
  destruct x as [s|s| |s m e], x' as [s'|s'| |s' m' e']; try discriminate;
    cbn [scaled cond_Zopp]; try lia.
  - assert (0 < 2 ^ (e' + 1074)).
    { destruct (valid_finite_inv s' m' e' Hv'). apply Z.pow_pos_nonneg; lia. }
    destruct s'; cbn [cond_Zopp]; [|nia].
    unfold Order.lex_le, Order.lex_lt in Hle. cbn in Hle.
    destruct Hle as [Hle|Hle]; [lia|discriminate].
  - assert (0 < 2 ^ (e + 1074)).
    { destruct (valid_finite_inv s m e Hv). apply Z.pow_pos_nonneg; lia. }
    destruct s; cbn [cond_Zopp]; [nia|].
    unfold Order.lex_le, Order.lex_lt in Hle. cbn in Hle.
    destruct Hle as [Hle|Hle]; [lia|discriminate].
  - assert (Hp : 0 < 2 ^ (e + 1074)).
    { destruct (valid_finite_inv s m e Hv). apply Z.pow_pos_nonneg; lia. }
    assert (Hp' : 0 < 2 ^ (e' + 1074)).
    { destruct (valid_finite_inv s' m' e' Hv'). apply Z.pow_pos_nonneg; lia. }
    unfold Order.lex_le, Order.lex_lt in Hle.
    destruct s, s'; cbn [Order.key fst snd cond_Zopp] in *.
    + (* both negative *)
      destruct (Z.lt_trichotomy e e') as [H|[H|H]].
      * destruct Hle as [Hle|Hle]; [lia|inversion Hle; lia].
      * subst e'. destruct Hle as [Hle|Hle]; [nia|inversion Hle; lia].
      * pose proof (canonical_order true true m' m e' e Hv' Hv H). lia.
    + nia.
    + destruct Hle as [Hle|Hle]; [lia|discriminate].
    + destruct (Z.lt_trichotomy e e') as [H|[H|H]].
      * pose proof (canonical_order false false m m' e e' Hv Hv' H). lia.
      * subst e'. destruct Hle as [Hle|Hle]; [nia|inversion Hle; lia].
      * destruct Hle as [Hle|Hle]; [lia|inversion Hle; lia].
Qed.

Lemma ceil_div_mono (n n' d : Z) : 0 < d -> n <= n' -> ceil_div n d <= ceil_div n' d.
Proof.
  intros Hd H. unfold ceil_div.
  assert ((- n') / d <= (- n) / d) by (apply Z.div_le_mono; lia). lia.
Qed.

(** [math.ceil] through the scaled value. *)
Lemma math_ceil_scaled (z : float) :
  small z -> math_ceil z = Ok (ceil_div (scaled 1074 z) (2 ^ 1074)).
Proof.
  destruct z as [s|s| |s m e]; cbn [small]; intros Hz; try contradiction.
  - reflexivity.
  - destruct Hz as [He _]. cbn [math_ceil scaled]. f_equal. unfold ceil_div.
    set (n := cond_Zopp s (Z.pos m)).
    assert (Hn : cond_Zopp s (Z.pos m * 2 ^ (e + 1074)) = n * 2 ^ (e + 1074))
      by (unfold n; destruct s; cbn [cond_Zopp]; ring).
    rewrite Hn.
    destruct (Z.leb_spec 0 e) as [Hpos|Hneg].
    + rewrite Z.pow_add_r by lia.
      replace (- (n * (2 ^ e * 2 ^ 1074))) with ((- (n * 2 ^ e)) * 2 ^ 1074) by ring.
      rewrite Z.div_mul by (apply Z.pow_nonzero; lia). lia.
    + f_equal.
      assert (H1074 : 2 ^ 1074 = 2 ^ (- e) * 2 ^ (e + 1074)).
      { rewrite <- Z.pow_add_r by lia. f_equal. lia. }
      rewrite H1074.
      replace (- (n * 2 ^ (e + 1074))) with ((- n) * 2 ^ (e + 1074)) by ring.
      rewrite Z.div_mul_cancel_r; [reflexivity| |];
        apply Z.pow_nonzero; lia.
Qed.

Lemma scaled_1130 (y : float) : small y -> scaled 1130 y = scaled 1074 y * 2 ^ 56.
Proof.
  destruct y as [s|s| |s m e]; cbn [small scaled]; intros Hy; try contradiction;
    try reflexivity.
  destruct Hy as [He _].
  replace (e + 1130) with ((e + 1074) + 56) by lia.
  rewrite Z.pow_add_r by lia. destruct s; cbn [cond_Zopp]; ring.
Qed.

Lemma tenth_of_tenth_nonneg (N : Z) : 0 <= N -> 0 <= tenth_of_tenth N.
Proof.
  intros HN. unfold tenth_of_tenth.
  apply round_to_nonneg; try lia.
  assert (0 <= round_to 56 (N * 7205759403792794) 1)
    by (apply round_to_nonneg; lia).
  assert (0 <= round_to 56 (N * 7205759403792794) 1 / 2 ^ 56)
    by (apply Z.div_pos; lia).
  lia.
Qed.

Lemma tenth_of_tenth_mono (N N' : Z) :
  0 <= N <= N' -> tenth_of_tenth N <= tenth_of_tenth N'.
Proof.
  intros [HN Hle]. unfold tenth_of_tenth.
  assert (H1 : round_to 56 (N * 7205759403792794) 1
               <= round_to 56 (N' * 7205759403792794) 1)
    by (apply round_to_mono; lia).
  assert (H0 : 0 <= round_to 56 (N * 7205759403792794) 1)
    by (apply round_to_nonneg; lia).
  assert (H2 : round_to 56 (N * 7205759403792794) 1 / 2 ^ 56
               <= round_to 56 (N' * 7205759403792794) 1 / 2 ^ 56)
    by (apply Z.div_le_mono; lia).
  assert (H3 : 0 <= round_to 56 (N * 7205759403792794) 1 / 2 ^ 56)
    by (apply Z.div_pos; lia).
  apply round_to_mono; lia.
Qed.

Lemma signed_tenth_of_tenth_mono (n n' : Z) :
  n <= n' -> signed_tenth_of_tenth n <= signed_tenth_of_tenth n'.
Proof.
  intros H. unfold signed_tenth_of_tenth.
  destruct (Z.ltb_spec n 0), (Z.ltb_spec n' 0).
  - pose proof (tenth_of_tenth_mono (- n') (- n) ltac:(lia)). lia.
  - pose proof (tenth_of_tenth_nonneg (- n) ltac:(lia)).
    pose proof (tenth_of_tenth_nonneg n' ltac:(lia)). lia.
  - lia.
  - apply tenth_of_tenth_mono. lia.
Qed.

(** [mean_val * 0.10 / 10.0] on a value of the format: finite, of the
    scaled value [signed_tenth_of_tenth] gives. *)
Lemma tenth_of_tenth_spec (x : float) :
  small x ->
  small (F64.div (F64.mul x F64.c0_10) F64.c10_0)
  /\ scaled 1074 (F64.div (F64.mul x F64.c0_10) F64.c10_0)
     = signed_tenth_of_tenth (scaled 1074 x).
Proof.
  destruct x as [s|s| |s m e]; cbn [small]; intros Hx; try contradiction.
  - (* a zero *)
    split; [exact I|]. reflexivity.
  - destruct Hx as [He Hm].
    destruct (mul_c0_10_spec s m e He Hm) as [Hsmall Hscaled].
    change (SFmul 53 1024 (S754_finite s m e) F64.c0_10)
      with (F64.mul (S754_finite s m e) F64.c0_10) in Hsmall, Hscaled.
    set (N := Z.pos m * 2 ^ (e + 1074)) in *.
    assert (HN : 0 < N).
    { unfold N. assert (0 < 2 ^ (e + 1074)) by (apply Z.pow_pos_nonneg; lia). nia. }
    set (R := round_to 56 (N * 7205759403792794) 1) in *.
    assert (HR : 0 <= R) by (apply round_to_nonneg; lia).
    assert (Hsigned : signed_tenth_of_tenth (scaled 1074 (S754_finite s m e))
                      = cond_Zopp s (tenth_of_tenth N)).
    { unfold signed_tenth_of_tenth. cbn [scaled]. fold N.
      destruct s; cbn [cond_Zopp].
      - destruct (Z.ltb_spec (- N) 0); [|lia]. rewrite Z.opp_involutive. reflexivity.
      - destruct (Z.ltb_spec N 0); [lia|]. reflexivity. }
    rewrite Hsigned. unfold tenth_of_tenth. fold R.
    rewrite (scaled_1130 _ Hsmall) in Hscaled.
    destruct (F64.mul (S754_finite s m e) F64.c0_10) as [sy|sy| |sy my ey];
      cbn [small] in Hsmall; try contradiction.
    + (* the product underflowed to a zero *)
      cbn [scaled] in Hscaled.
      assert (R = 0) by (destruct s; cbn [cond_Zopp] in Hscaled; lia).
      split; [exact I|].
      replace R with 0 by lia.
      change (0 / 2 ^ 56 * 2 ^ 49) with 0.
      rewrite round_to_zero by lia.
      destruct s; reflexivity.
    + destruct Hsmall as [Hey Hmy].
      destruct (div_c10_0_spec sy my ey Hey Hmy) as [Hzsmall Hzscaled].
      change (SFdiv 53 1024 (S754_finite sy my ey) F64.c10_0)
        with (F64.div (S754_finite sy my ey) F64.c10_0) in Hzsmall, Hzscaled.
      split; [assumption|].
      rewrite Hzscaled.
      cbn [scaled] in Hscaled.
      set (Ny := Z.pos my * 2 ^ (ey + 1074)) in *.
      assert (HNy : 0 < Ny).
      { unfold Ny. assert (0 < 2 ^ (ey + 1074)) by (apply Z.pow_pos_nonneg; lia). nia. }
      assert (Hsy : sy = s /\ Ny * 2 ^ 56 = R).
      { destruct s, sy; cbn [cond_Zopp] in Hscaled; split; try reflexivity; lia. }
      destruct Hsy as [-> HRy].
      rewrite <- HRy, Z.div_mul by lia. reflexivity.
Qed.

(** The reward of a value of the format. *)
Lemma calculate_cb_amount_scaled (x : float) :
  small x ->
  calculate_cb_amount x
  = Ok (ceil_div (signed_tenth_of_tenth (scaled 1074 x)) (2 ^ 1074) * 10).
Proof.
  intros Hx. destruct (tenth_of_tenth_spec x Hx) as [Hz Hs].
  unfold calculate_cb_amount. rewrite (math_ceil_scaled _ Hz), Hs. reflexivity.
Qed.

End RewardLemmas.

Section CeilingOfValue.

Import Rounding.

Lemma Qceiling_div (n d : Z) :
  (0 < d)%Z -> Qceiling (inject_Z n / inject_Z d) = ceil_div n d.
Proof.
  destruct d as [|p|p]; try lia. intros _.
  rewrite <- (Qceiling_comp (n # p)); [reflexivity|].
  apply Qmake_Qdiv.
Qed.

(** [math.ceil] is the ceiling of the number the float denotes. *)
Lemma math_ceil_Qceiling (x : float) :
  F64.is_finite x = true -> math_ceil x = Ok (Qceiling (F64.to_Q x)).
Proof.
  destruct x as [s|s| |s m e]; cbn [F64.is_finite]; intros H; try discriminate.
  - reflexivity.
  - cbn [math_ceil F64.to_Q]. f_equal.
    set (n := cond_Zopp s (Z.pos m)).
    destruct (Z.leb_spec 0 e) as [Hpos|Hneg].
    + rewrite <- (Qceiling_Z (n * 2 ^ e)). apply Qceiling_comp.
      rewrite inject_Z_mult, Zpower_Qpower by assumption. reflexivity.
    + fold (ceil_div n (2 ^ (- e))).
      rewrite <- Qceiling_div by (apply Z.pow_pos_nonneg; lia).
      apply Qceiling_comp. unfold Qdiv.
      rewrite Zpower_Qpower by lia.
      rewrite Qpower_opp, Qinv_involutive. reflexivity.
Qed.

End CeilingOfValue.

Section RewardTheorems.

Import Rounding.

(** C9. The reward is monotone: for two cluster means (finite values of
    the format) with [m1 <= m2] the reward of [m1] is at most the reward
    of [m2]. *)
Theorem reward_monotone (m1 m2 : float) :
  F64.is_finite m1 = true -> F64.valid m1 = true ->
  F64.is_finite m2 = true -> F64.valid m2 = true ->
  F64.leb m1 m2 = true ->
  exists r1 r2,
    calculate_cb_amount m1 = Ok r1
    /\ calculate_cb_amount m2 = Ok r2
    /\ (r1 <= r2)%Z.
Proof.
  intros Hf1 Hv1 Hf2 Hv2 Hle.
  pose proof (leb_scaled m1 m2 Hf1 Hv1 Hf2 Hv2 Hle) as Hs.
  rewrite (calculate_cb_amount_scaled m1 (valid_small m1 Hf1 Hv1)).
  rewrite (calculate_cb_amount_scaled m2 (valid_small m2 Hf2 Hv2)).
  eexists. eexists. split; [reflexivity|]. split; [reflexivity|].
  apply Z.mul_le_mono_nonneg_r; [lia|].
  apply ceil_div_mono; [apply Z.pow_pos_nonneg; lia|].
  apply signed_tenth_of_tenth_mono. assumption.
Qed.

End RewardTheorems.

(* ================================================================== *)
(** * The reward mapper on sample means *)
(* ================================================================== *)

Lemma reward_monotone_witness :
  exists r1 r2,
    calculate_cb_amount (F64.of_Z 47) = Ok r1
    /\ calculate_cb_amount (F64.of_Z 123) = Ok r2
    /\ (r1 <= r2)%Z.
Proof.
  apply (reward_monotone (F64.of_Z 47) (F64.of_Z 123)); vm_compute; reflexivity.
Defined.

(** The product by [0.10] is the rounded one: on the least positive
    number of the format it underflows to zero, and so does the reward. *)
Example reward_of_least_positive :
  calculate_cb_amount (S754_finite false 1 (-1074)) = Ok 0%Z.
Proof. vm_compute. reflexivity. Qed.

(* ================================================================== *)
(** * Agreement with the primitive binary64 numbers *)
(* ================================================================== *)

(** The literals and operations above are those of the machine's
    binary64 arithmetic, as Rocq's primitive floats compute them. *)

Example literal_0_10 : Prim2SF 0x1.999999999999ap-4%float = F64.c0_10.
Proof. vm_compute. reflexivity. Qed.

Example literal_10_0 : Prim2SF 10%float = F64.c10_0.
Proof. vm_compute. reflexivity. Qed.

Example tenth_of_tenth_of_47 :
  Prim2SF (47 * 0x1.999999999999ap-4 / 10)%float
  = F64.div (F64.mul (F64.of_Z 47) F64.c0_10) F64.c10_0.
Proof. vm_compute. reflexivity. Qed.

Example sqrt_of_squares :
  Prim2SF (PrimFloat.sqrt (60 * 60 + 7 * 7))%float
  = F64.sqrt (F64.add (F64.mul (F64.of_Z 60) (F64.of_Z 60))
                      (F64.mul (F64.of_Z 7) (F64.of_Z 7))).
Proof. vm_compute. reflexivity. Qed.

Example zero_by_zero : Prim2SF (0 / 0)%float = F64.nan.
Proof. vm_compute. reflexivity. Qed.

(* ================================================================== *)
(** * Further properties of the engine *)
(* ================================================================== *)

Section EngineCost.

Context {L : Numpy}.

(** [np.min] returns the entry that [np.argmin] points at. *)
Lemma min_from_argmin (l : list float) :
  forall best_i best i, best_i < i ->
    let j := argmin_from best_i best i l in
    (j = best_i \/ i <= j)
    /\ min_from best l = if j <? i then best else nth (j - i) l F64.zero.
Proof.
  induction l as [|v l IH]; intros best_i best i Hlt; cbv zeta;
    cbn [argmin_from min_from].
  - split; [left; reflexivity|].
    destruct (Nat.ltb_spec best_i i); [reflexivity|lia].
  - destruct (F64.is_nan best).
    + split; [left; reflexivity|].
      destruct (Nat.ltb_spec best_i i); [reflexivity|lia].
    + destruct (F64.is_nan v || F64.ltb v best).
      * destruct (IH i v (S i) (Nat.lt_succ_diag_r i)) as [Hj Hm].
        rewrite Hm. split; [right; lia|].
        destruct Hj as [Hj|Hj].
        -- rewrite Hj.
           destruct (Nat.ltb_spec i (S i)); [|lia].
           destruct (Nat.ltb_spec i i); [lia|].
           rewrite Nat.sub_diag. reflexivity.
        -- destruct (Nat.ltb_spec (argmin_from i v (S i) l) (S i)); [lia|].
           destruct (Nat.ltb_spec (argmin_from i v (S i) l) i); [lia|].
           replace (argmin_from i v (S i) l - i)
             with (S (argmin_from i v (S i) l - S i)) by lia.
           reflexivity.
      * assert (Hlt' : best_i < S i) by lia.
        destruct (IH best_i best (S i) Hlt') as [Hj Hm].
        rewrite Hm. destruct Hj as [Hj|Hj].
        -- split; [left; assumption|]. rewrite Hj.
           destruct (Nat.ltb_spec best_i (S i)); [|lia].
           destruct (Nat.ltb_spec best_i i); [reflexivity|lia].
        -- split; [right; lia|].
           destruct (Nat.ltb_spec (argmin_from best_i best (S i) l) (S i)); [lia|].
           destruct (Nat.ltb_spec (argmin_from best_i best (S i) l) i); [lia|].
           replace (argmin_from best_i best (S i) l - i)
             with (S (argmin_from best_i best (S i) l - S i)) by lia.
           reflexivity.
Qed.

Lemma np_min_argmin (l : list float) (j : nat) (v : float) :
  np_argmin l = Ok j -> np_min l = Ok v -> nth j l F64.zero = v.
Proof.
  destruct l as [|v0 l]; [discriminate|]. cbn [np_argmin np_min].
  intros Hj Hv. inversion Hj as [Hj']. inversion Hv as [Hv']. clear Hj Hv.
  destruct (min_from_argmin l 0 v0 1 Nat.lt_0_1) as [Hc Hm].
  rewrite Hm. clear Hm.
  destruct (argmin_from 0 v0 1 l) as [|a]; [reflexivity|].
  cbn [Nat.ltb Nat.leb nth Nat.sub]. rewrite Nat.sub_0_r. reflexivity.
Qed.

(** The minima of the rows of the distance table are the distances of
    the points to the medoids they are labelled with. *)
Lemma assigned_min (medoids : matrix) (X : matrix) :
  forall labels mins,
    mapM np_argmin (distances X medoids) = Ok labels ->
    mapM np_min (distances X medoids) = Ok mins ->
    mins = assigned_distances X medoids labels.
Proof.
  unfold assigned_distances, distances.
  induction X as [|x X IH]; intros labels mins Hl Hm; cbn [map mapM] in Hl, Hm.
  - inversion Hl. inversion Hm. reflexivity.
  - destruct (np_argmin (map (l1 x) medoids)) as [j|] eqn:Hj; [|discriminate].
    destruct (np_min (map (l1 x) medoids)) as [v|] eqn:Hv; [|discriminate].
    cbn [bind] in Hl, Hm.
    destruct (mapM np_argmin (map _ X)) as [labels'|] eqn:Hl';
      [|cbn [bind] in Hl; discriminate].
    destruct (mapM np_min (map _ X)) as [mins'|] eqn:Hm';
      [|cbn [bind] in Hm; discriminate].
    cbn [bind] in Hl, Hm. inversion Hl. inversion Hm. subst.
    cbn [combine map fst snd]. f_equal; [|apply IH; reflexivity].
    pose proof (np_argmin_bound _ _ Hj) as Hb.
    rewrite <- (np_min_argmin _ _ _ Hj Hv).
    rewrite (nth_indep _ F64.zero (l1 x [])) by assumption.
    apply map_nth.
Qed.

Lemma iteration_cost (X medoids : matrix) (k : nat) labels cost new :
  iteration X medoids k = Ok (labels, cost, new) ->
  cost = np_sum (assigned_distances X medoids labels).
Proof.
  unfold iteration. destruct medoids as [|m medoids]; [discriminate|].
  destruct (mapM np_argmin (distances X (m :: medoids))) as [ls|] eqn:Hl;
    [|discriminate].
  destruct (mapM np_min (distances X (m :: medoids))) as [ms|] eqn:Hm;
    [|discriminate].
  cbn [bind]. intros H. inversion H; subst.
  f_equal. eapply assigned_min; eassumption.
Qed.

End EngineCost.

Section EngineRuns.

Context {L : Numpy} {LC : NumpyContract L}.

(** What a run with at least one cluster and room for the medoids
    evaluates to, once the medoids are drawn. *)
Lemma kmedians_regular_eq (g : rng) (X : matrix)
      (n_clusters max_iter random_state : Z) :
  (0 <= n_clusters)%Z ->
  (n_clusters <= Z.of_nat (length X))%Z ->
  exists medoid_ids medoids0,
    snd (kmedians g X n_clusters max_iter random_state)
    = kmedians_loop (Z.to_nat max_iter) X (Z.to_nat n_clusters)
                    (repeat 0 (length X)) medoids0 F64.zero
    /\ medoid_ids
       = fst (np_random_choice (np_random_seed random_state) (length X)
                               (Z.to_nat n_clusters))
    /\ length medoid_ids = Z.to_nat n_clusters
    /\ NoDup medoid_ids
    /\ Forall2 (fun i m => nth_error X i = Some m) medoid_ids medoids0.
Proof.
  intros Hk Hle. unfold kmedians.
  destruct (Z.ltb_spec (Z.of_nat (length X)) n_clusters) as [?|_]; [lia|].
  destruct (Z.ltb_spec n_clusters 0) as [?|_]; [lia|].
  set (gs := np_random_seed random_state).
  assert (Hsize : Z.to_nat n_clusters <= length X) by lia.
  pose proof (choice_length gs (length X) (Z.to_nat n_clusters) Hsize) as Hlen.
  pose proof (choice_range gs (length X) (Z.to_nat n_clusters) Hsize) as Hrange.
  pose proof (choice_distinct gs (length X) (Z.to_nat n_clusters) Hsize) as Hnd.
  destruct (np_random_choice gs (length X) (Z.to_nat n_clusters))
    as [medoid_ids g'].
  cbn [fst snd] in *.
  destruct (mapM_getitem_ok X medoid_ids Hrange) as (medoids0 & Hm & Hml).
  rewrite Hm. cbn [bind].
  exists medoid_ids, medoids0.
  split; [reflexivity|]. split; [reflexivity|].
  split; [assumption|]. split; [assumption|].
  apply mapM_Ok_Forall2 in Hm.
  eapply Forall2_impl; [|exact Hm].
  intros i m. unfold getitem. cbn.
  destruct (nth_error X i); [|discriminate]. intros H. inversion H. reflexivity.
Qed.

(** The loop, from a state that a history leads to: the rounds it adds
    to the history, the round it returns from, and whether it returned
    because the round converged or because the rounds ran out. *)
Lemma kmedians_loop_history (X : matrix) (k : nat) (medoids_init : matrix)
      (rounds : nat) :
  forall labels0 medoids0 cost0 past,
    0 < k -> length medoids0 = k ->
    history X k medoids_init past medoids0 ->
    exists more prev labels medoids cost,
      kmedians_loop (S rounds) X k labels0 medoids0 cost0
      = Ok (labels, medoids, cost)
      /\ history X k medoids_init (past ++ more) prev
      /\ length more <= rounds
      /\ length prev = k
      /\ mapM np_argmin (distances X prev) = Ok labels
      /\ cost = np_sum (assigned_distances X prev labels)
      /\ medoids = (if np_allclose (new_medoids X labels prev k) prev
                    then prev else new_medoids X labels prev k)
      /\ (np_allclose (new_medoids X labels prev k) prev = false ->
          length more = rounds).
Proof.
  induction rounds as [|rounds IH]; intros labels0 medoids0 cost0 past Hk Hm0 Hpast;
    (destruct (iteration_ok X medoids0 k) as (labels & cost & Hiter & _);
     [destruct medoids0; [cbn in Hm0; lia|discriminate]|]);
    pose proof (iteration_cost _ _ _ _ _ _ Hiter) as Hcost;
    pose proof (iteration_inv _ _ _ _ _ _ Hiter) as [Hlab _];
    cbn [kmedians_loop]; rewrite Hiter; cbn [bind]; cbv zeta;
    destruct (np_allclose (new_medoids X labels medoids0 k) medoids0) eqn:Hclose.
  - exists [], medoids0, labels, medoids0, cost.
    rewrite app_nil_r, Hclose. repeat split; auto; try (cbn; lia); discriminate.
  - exists [], medoids0, labels, (new_medoids X labels medoids0 k), cost.
    rewrite app_nil_r, Hclose. repeat split; auto; cbn; lia.
  - exists [], medoids0, labels, medoids0, cost.
    rewrite app_nil_r, Hclose. repeat split; auto; try (cbn; lia); discriminate.
  - destruct (IH labels (new_medoids X labels medoids0 k) cost
                 (past ++ [(medoids0, labels)]) Hk
                 (new_medoids_length X labels medoids0 k)
                 (history_round X k medoids_init past medoids0 labels
                                Hpast Hlab Hclose))
      as (more & prev & labels' & medoids' & cost' & Hrun & Hhist & Hlen & Hprev
          & Hlab' & Hcost' & Hmed & Hout).
    exists ((medoids0, labels) :: more), prev, labels', medoids', cost'.
    split; [exact Hrun|].
    split; [rewrite <- app_assoc in Hhist; exact Hhist|].
    split; [cbn; lia|].
    split; [assumption|]. split; [assumption|]. split; [assumption|].
    split; [assumption|].
    intros H. cbn. rewrite (Hout H). reflexivity.
Qed.



(** A run with room for its medoids and at least one iteration, as a
    history from the medoids it draws. *)
Lemma kmedians_run (g : rng) (X : matrix)
      (n_clusters max_iter random_state : Z) :
  (1 <= n_clusters)%Z ->
  (n_clusters <= Z.of_nat (length X))%Z ->
  (1 <= max_iter)%Z ->
  exists medoids0 rounds prev labels medoids cost,
    snd (kmedians g X n_clusters max_iter random_state)
    = Ok (labels, medoids, cost)
    /\ Forall2 (fun i m => nth_error X i = Some m)
               (fst (np_random_choice (np_random_seed random_state) (length X)
                                      (Z.to_nat n_clusters)))
               medoids0
    /\ history X (Z.to_nat n_clusters) medoids0 rounds prev
    /\ length rounds < Z.to_nat max_iter
    /\ length prev = Z.to_nat n_clusters
    /\ mapM np_argmin (distances X prev) = Ok labels
    /\ cost = np_sum (assigned_distances X prev labels)
    /\ medoids
       = (if np_allclose (new_medoids X labels prev (Z.to_nat n_clusters)) prev
          then prev else new_medoids X labels prev (Z.to_nat n_clusters))
    /\ (np_allclose (new_medoids X labels prev (Z.to_nat n_clusters)) prev = false ->
        S (length rounds) = Z.to_nat max_iter).
Proof.
  intros Hk Hle Hit.
  destruct (kmedians_regular_eq g X n_clusters max_iter random_state)
    as (ids & medoids0 & Heq & Hids & Hlen & _ & Hrows); [lia|assumption|].
  rewrite Heq. clear Heq.
  assert (Hm0 : length medoids0 = Z.to_nat n_clusters).
  { rewrite <- Hlen. symmetry. eapply Forall2_length. eassumption. }
  destruct (Z.to_nat max_iter) as [|fuel] eqn:Hfuel; [lia|].
  destruct (kmedians_loop_history X (Z.to_nat n_clusters) medoids0 fuel
              (repeat 0 (length X)) medoids0 F64.zero []
              ltac:(lia) Hm0 (history_start X (Z.to_nat n_clusters) medoids0))
    as (more & prev & labels & medoids & cost & Hrun & Hhist & Hmore & Hprev
        & Hlab & Hcost & Hmed & Hout).
  exists medoids0, more, prev, labels, medoids, cost.
  split; [exact Hrun|].
  split; [rewrite <- Hids; exact Hrows|].
  split; [exact Hhist|].
  split; [lia|].
  split; [assumption|]. split; [assumption|]. split; [assumption|].
  split; [assumption|].
  intros H. rewrite (Hout H). reflexivity.
Qed.


(** X1. A run with [1 <= n_clusters <= len(X)] and [max_iter >= 1]
    executes its iterations from the medoids it draws (the rows of [X]
    at the drawn positions), every iteration but the last recomputing
    medoids that are not close to the ones it started from.  It returns
    the labels and the total cost of the last iteration: every point is
    labelled against the medoids [prev] that iteration started from,
    and the cost is the sum over the points of the L1 distance to the
    medoid of [prev] the point is labelled with.  The returned medoids
    are [prev] when the recomputed medoids were close to [prev] (the run
    converged, after at most [max_iter] iterations), and the recomputed
    medoids otherwise, in which case exactly [max_iter] iterations were
    executed. *)
Theorem kmedians_last_iteration (g : rng) (X : matrix)
        (n_clusters max_iter random_state : Z) :
  (1 <= n_clusters)%Z ->
  (n_clusters <= Z.of_nat (length X))%Z ->
  (1 <= max_iter)%Z ->
  exists medoids0 rounds prev labels medoids cost,
    snd (kmedians g X n_clusters max_iter random_state)
    = Ok (labels, medoids, cost)
    /\ Forall2 (fun i m => nth_error X i = Some m)
               (fst (np_random_choice (np_random_seed random_state) (length X)
                                      (Z.to_nat n_clusters)))
               medoids0
    /\ history X (Z.to_nat n_clusters) medoids0 rounds prev
    /\ length rounds < Z.to_nat max_iter
    /\ length prev = Z.to_nat n_clusters
    /\ mapM np_argmin (distances X prev) = Ok labels
    /\ cost = np_sum (assigned_distances X prev labels)
    /\ medoids
       = (if np_allclose (new_medoids X labels prev (Z.to_nat n_clusters)) prev
          then prev else new_medoids X labels prev (Z.to_nat n_clusters))
    /\ (np_allclose (new_medoids X labels prev (Z.to_nat n_clusters)) prev = false ->
        S (length rounds) = Z.to_nat max_iter).
Proof.
  intros Hk Hle Hit.
  exact (kmedians_run g X n_clusters max_iter random_state Hk Hle Hit).
Qed.

(** X2. With [max_iter <= 0] the loop body never runs: the result is
    the initial state, that is, the label 0 for every point, the cost 0,
    and as medoids [n_clusters] rows of [X] taken at pairwise distinct
    positions. *)
Theorem kmedians_without_iterations (g : rng) (X : matrix)
        (n_clusters max_iter random_state : Z) :
  (0 <= n_clusters)%Z ->
  (n_clusters <= Z.of_nat (length X))%Z ->
  (max_iter <= 0)%Z ->
  exists medoid_ids medoids,
    snd (kmedians g X n_clusters max_iter random_state)
    = Ok (repeat 0 (length X), medoids, F64.zero)
    /\ length medoid_ids = Z.to_nat n_clusters
    /\ NoDup medoid_ids
    /\ Forall2 (fun i m => nth_error X i = Some m) medoid_ids medoids.
Proof.
  intros Hk Hle Hit.
  destruct (kmedians_regular_eq g X n_clusters max_iter random_state Hk Hle)
    as (ids & medoids0 & Heq & _ & Hlen & Hnd & Hrows).
  exists ids, medoids0. rewrite Heq.
  replace (Z.to_nat max_iter) with 0 by lia.
  cbn [kmedians_loop]. auto.
Qed.

(** X3. [n_clusters = 0] with at least one iteration: no medoid is
    drawn, the distance table has no column, and the reduction along
    [axis=1] raises a [ValueError]. *)
Theorem kmedians_zero_clusters (g : rng) (X : matrix)
        (max_iter random_state : Z) :
  (1 <= max_iter)%Z ->
  snd (kmedians g X 0 max_iter random_state) = Raise ValueError.
Proof.
  intros Hit.
  destruct (kmedians_regular_eq g X 0 max_iter random_state)
    as (ids & medoids0 & Heq & _ & Hlen & _ & Hrows); [lia|lia|].
  rewrite Heq.
  destruct ids; [|discriminate]. inversion Hrows; subst.
  destruct (Z.to_nat max_iter) as [|rounds] eqn:Hrounds; [lia|].
  reflexivity.
Qed.

End EngineRuns.


(** The run on the five sample users with two clusters: two rounds, the
    second one converged. *)
Example kmedians_sample_run :
  snd (kmedians (L := Ref.numpy) 0%Z Sample.X5 2 100 100)
  = Ok ([0; 0; 0; 1; 1],
        [[Sample.f 2; Sample.f 3];
         [F64.div (Sample.f 19) (Sample.f 2); Sample.f 3]],
        Sample.f 2).
Proof. vm_compute. reflexivity. Qed.

Lemma kmedians_last_iteration_witness :
  exists medoids0 rounds prev labels medoids cost,
    snd (kmedians (L := Ref.numpy) 0%Z Sample.X5 2 100 100)
    = Ok (labels, medoids, cost)
    /\ Forall2 (fun i m => nth_error Sample.X5 i = Some m)
               (fst (Ref.choice 100%Z (length Sample.X5) (Z.to_nat 2)))
               medoids0
    /\ history (L := Ref.numpy) Sample.X5 (Z.to_nat 2) medoids0 rounds prev
    /\ length rounds < Z.to_nat 100
    /\ length prev = Z.to_nat 2
    /\ mapM np_argmin (distances (L := Ref.numpy) Sample.X5 prev) = Ok labels
    /\ cost = Ref.sum (assigned_distances (L := Ref.numpy) Sample.X5 prev labels)
    /\ medoids
       = (if Ref.allclose
               (new_medoids (L := Ref.numpy) Sample.X5 labels prev (Z.to_nat 2)) prev
          then prev
          else new_medoids (L := Ref.numpy) Sample.X5 labels prev (Z.to_nat 2))
    /\ (Ref.allclose
          (new_medoids (L := Ref.numpy) Sample.X5 labels prev (Z.to_nat 2)) prev
        = false ->
        S (length rounds) = Z.to_nat 100).
Proof.
  apply (kmedians_last_iteration (L := Ref.numpy) 0%Z Sample.X5 2 100 100);
    cbn; lia.
Defined.

Lemma kmedians_without_iterations_witness :
  exists medoid_ids medoids,
    snd (kmedians (L := Ref.numpy) 0%Z Sample.X5 2 0 100)
    = Ok (repeat 0 (length Sample.X5), medoids, F64.zero)
    /\ length medoid_ids = Z.to_nat 2
    /\ NoDup medoid_ids
    /\ Forall2 (fun i m => nth_error Sample.X5 i = Some m) medoid_ids medoids.
Proof.
  apply (kmedians_without_iterations (L := Ref.numpy) 0%Z Sample.X5 2 0 100);
    cbn; lia.
Defined.

Lemma kmedians_zero_clusters_witness :
  snd (kmedians (L := Ref.numpy) 0%Z Sample.X5 0 100 100) = Raise ValueError.
Proof.
  apply (kmedians_zero_clusters (L := Ref.numpy) 0%Z Sample.X5 100 100). lia.
Defined.

(* ================================================================== *)
(** * Further properties of the selector and of the final run *)
(* ================================================================== *)

Section ElbowLoopNumbers.

Variables p1 p2 : point.

Let D (kc : Z * float) : float := distance p1 p2 (F64.of_Z (fst kc), snd kc).

(** The scan without any assumption on the distances: a distance that
    is a NaN never replaces the running maximum, and the scan stops on
    the first point of greatest distance among the numbers. *)
Lemma elbow_loop_numbers (curve : list (Z * float)) :
  forall max_distance best_k,
    F64.is_nan max_distance = false ->
    let r := elbow_loop p1 p2 curve max_distance best_k in
    (r = best_k /\ Forall (fun kc => F64.ltb max_distance (D kc) = false) curve)
    \/ (exists pre kc post,
           curve = pre ++ kc :: post
           /\ r = fst kc
           /\ F64.ltb max_distance (D kc) = true
           /\ Forall (fun kc' => F64.is_nan (D kc') = false ->
                                 F64.ltb (D kc') (D kc) = true) pre
           /\ Forall (fun kc' => F64.is_nan (D kc') = false ->
                                 F64.leb (D kc') (D kc) = true) post).
Proof.
  induction curve as [|[k c] curve IH]; intros md bk Hmd;
    cbv zeta; cbn [elbow_loop].
  - left. split; [reflexivity|constructor].
  - change (distance p1 p2 (F64.of_Z k, c)) with (D (k, c)).
    destruct (F64.ltb md (D (k, c))) eqn:Hcmp.
    + destruct (ltb_not_nan _ _ Hcmp) as [_ Hd].
      destruct (IH (D (k, c)) k Hd)
        as [[Hr Hle]|(pre & kc & post & Hc & Hr & Hlt & Hpre & Hpost)].
      * right. exists [], (k, c), curve. cbn [app fst].
        split; [reflexivity|]. split; [assumption|]. split; [assumption|].
        split; [constructor|].
        eapply Forall_impl; [|exact Hle]. cbn beta. intros kc Hkc Hn.
        apply not_ltb_leb; assumption.
      * right. exists ((k, c) :: pre), kc, post. subst curve. cbn [app].
        split; [reflexivity|]. split; [assumption|].
        split; [eapply ltb_trans; eassumption|].
        split; [constructor; [intros _|]; assumption|assumption].
    + destruct (IH md bk Hmd)
        as [[Hr Hle]|(pre & kc & post & Hc & Hr & Hlt & Hpre & Hpost)].
      * left. split; [assumption|]. constructor; assumption.
      * right. exists ((k, c) :: pre), kc, post. subst curve. cbn [app].
        split; [reflexivity|]. split; [assumption|]. split; [assumption|].
        split; [|assumption].
        constructor; [|assumption].
        intros Hn. eapply leb_ltb_trans; [|eassumption].
        apply not_ltb_leb; assumption.
Qed.

(** The scan returns its initial candidate or a candidate of the curve. *)
Lemma elbow_loop_In (curve : list (Z * float)) :
  forall max_distance best_k,
    elbow_loop p1 p2 curve max_distance best_k = best_k
    \/ In (elbow_loop p1 p2 curve max_distance best_k) (map fst curve).
Proof.
  induction curve as [|[k c] curve IH]; intros md bk; cbn [elbow_loop map fst].
  - left. reflexivity.
  - destruct (F64.ltb md _).
    + destruct (IH (distance p1 p2 (F64.of_Z k, c)) k) as [->|H].
      * right. left. reflexivity.
      * right. right. assumption.
    + destruct (IH md bk) as [->|H]; [left; reflexivity|right; right; assumption].
Qed.

End ElbowLoopNumbers.

Section SelectorRuns.

Context {L : Numpy}.

(** Every entry of the cost curve is the third component of the run for
    its candidate; the generator a run starts from is of no account,
    since every run reseeds it. *)
Lemma costs_entries (X : matrix) (ks : list Z) :
  forall g g' cs,
    costs g X ks = (g', Ok cs) ->
    Forall2 (fun k c => forall g0, exists labels medoids,
                 snd (kmedians g0 X k 100 100) = Ok (labels, medoids, c))
            ks cs.
Proof.
  induction ks as [|k ks IH]; intros g g' cs; cbn [costs].
  - intros H. inversion H. constructor.
  - destruct (kmedians g X k 100 100) as [g1 [[[labels medoids] cost]|e]] eqn:Hrun;
      [|discriminate].
    destruct (costs g1 X ks) as [g2 [cs'|e]] eqn:Hrest; [|discriminate].
    intros H. inversion H; subst. constructor; [|eapply IH; eassumption].
    intros g0. exists labels, medoids.
    change (kmedians g0 X k 100 100) with (kmedians g X k 100 100).
    rewrite Hrun. reflexivity.
Qed.

Lemma k_range_nth (max_k : Z) (i : nat) :
  i < Z.to_nat max_k -> nth_error (k_range max_k) i = Some (Z.of_nat (S i)).
Proof.
  intros Hi. unfold k_range. rewrite nth_error_map.
  rewrite nth_error_seq. destruct (Nat.ltb_spec i (Z.to_nat max_k)); [|lia].
  reflexivity.
Qed.

Context {LC : NumpyContract L}.

(** For [max_k >= 1] the selector never raises and returns the result
    of the scan, which is one of the candidates. *)
Lemma find_optimal_k_scan (g : rng) (X : matrix) (max_k : Z) :
  (1 <= max_k)%Z ->
  exists g' cs,
    costs g X (k_range max_k) = (g', Ok cs)
    /\ length cs = Z.to_nat max_k
    /\ find_optimal_k g X max_k
       = (g', Ok (elbow_loop (F64.of_Z 1, hd F64.zero cs)
                             (F64.of_Z max_k, last cs F64.zero)
                             (combine (k_range max_k) cs) F64.zero 1%Z))
    /\ (1 <= elbow_loop (F64.of_Z 1, hd F64.zero cs)
                        (F64.of_Z max_k, last cs F64.zero)
                        (combine (k_range max_k) cs) F64.zero 1%Z <= max_k)%Z.
Proof.
  intros Hk.
  destruct (costs_total X (k_range max_k) g (k_range_positive max_k))
    as (g' & cs & Hcosts & Hlen).
  rewrite k_range_length in Hlen.
  exists g', cs. split; [assumption|]. split; [assumption|].
  split; [unfold find_optimal_k;
          rewrite Hcosts, (elbow_eq max_k cs Hk Hlen); reflexivity|].
  destruct (elbow_loop_In (F64.of_Z 1, hd F64.zero cs)
                          (F64.of_Z max_k, last cs F64.zero)
                          (combine (k_range max_k) cs) F64.zero 1%Z) as [->|Hin].
  - lia.
  - rewrite map_fst_combine in Hin by (rewrite k_range_length; lia).
    apply k_range_In in Hin. assumption.
Qed.

(** X4. For [max_k >= 1] and any feature set the selector never raises.
    A candidate whose distance is a NaN is never preferred: either no
    distance exceeds 0 and the result is 1, or the result is the
    smallest candidate whose distance is the greatest among the
    distances that are numbers, and that distance is above 0. *)
Theorem find_optimal_k_ignores_nan (g : rng) (X : matrix) (max_k : Z) :
  (1 <= max_k)%Z ->
  exists g' cs k_star,
    costs g X (k_range max_k) = (g', Ok cs)
    /\ find_optimal_k g X max_k = (g', Ok k_star)
    /\ (1 <= k_star <= max_k)%Z
    /\ ((k_star = 1%Z
         /\ forall k d, In (k, d) (elbow_distances (k_range max_k) cs) ->
                        F64.ltb F64.zero d = false)
        \/ (exists d_star,
               In (k_star, d_star) (elbow_distances (k_range max_k) cs)
               /\ F64.ltb F64.zero d_star = true
               /\ forall k d, In (k, d) (elbow_distances (k_range max_k) cs) ->
                    F64.is_nan d = false ->
                    F64.leb d d_star = true
                    /\ ((k < k_star)%Z -> F64.ltb d d_star = true))).
Proof.
  intros Hk.
  destruct (find_optimal_k_scan g X max_k Hk)
    as (g' & cs & Hcosts & Hlen & Hfind & Hrange).
  exists g', cs,
    (elbow_loop (F64.of_Z 1, hd F64.zero cs) (F64.of_Z max_k, last cs F64.zero)
                (combine (k_range max_k) cs) F64.zero 1%Z).
  split; [assumption|]. split; [assumption|]. split; [assumption|].
  clear Hrange Hfind Hcosts.
  unfold elbow_distances.
  rewrite (k_range_last max_k Hk).
  replace (hd 0%Z (k_range max_k)) with 1%Z
    by (rewrite (k_range_cons max_k Hk); reflexivity).
  set (p1 := (F64.of_Z 1, hd F64.zero cs)).
  set (p2 := (F64.of_Z max_k, last cs F64.zero)).
  remember (combine (k_range max_k) cs) as curve eqn:Hcurve_def.
  set (D := fun kc : Z * float => distance p1 p2 (F64.of_Z (fst kc), snd kc)).
  assert (Hkeys : map fst curve = k_range max_k).
  { subst curve. apply map_fst_combine. rewrite k_range_length. lia. }
  clear Hcurve_def.
  destruct (elbow_loop_numbers p1 p2 curve F64.zero 1%Z eq_refl)
    as [[Hr Hle]|(pre & kc & post & Hc & Hr & Hlt & Hpre & Hpost)].
  - left. split; [assumption|].
    intros k d Hkd. apply in_map_iff in Hkd.
    destruct Hkd as (kc & Heq & Hkc). inversion Heq; subst k d.
    rewrite Forall_forall in Hle. apply Hle. assumption.
  - right. exists (D kc). rewrite Hr. split.
    + apply in_map_iff. exists kc. split; [reflexivity|].
      rewrite Hc. apply in_elt.
    + split; [assumption|].
      assert (Hord : Forall (fun y => (y < fst kc)%Z) (map fst pre)
                     /\ Forall (fun y => (fst kc < y)%Z) (map fst post)).
      { apply (seq_split_order (map fst pre) 1 (Z.to_nat max_k)).
        fold (k_range max_k). rewrite <- Hkeys, Hc, map_app. reflexivity. }
      destruct Hord as [_ Hafter].
      intros k d Hkd Hn. apply in_map_iff in Hkd.
      destruct Hkd as (kc' & Heq & Hkc'). inversion Heq; subst k d.
      rewrite Hc in Hkc'. apply in_app_or in Hkc'.
      rewrite Forall_forall in Hpre, Hpost.
      destruct Hkc' as [Hin|[Heq'|Hin]].
      * split; [apply ltb_leb|]; auto.
      * subst kc'. split; [|lia]. apply leb_refl. assumption.
      * split; [auto|].
        intros Hlt'. rewrite Forall_forall in Hafter.
        assert (fst kc < fst kc')%Z by (apply Hafter; apply in_map; assumption).
        lia.
Qed.

(** X5. For [max_k >= 1] the cost curve has one entry per candidate,
    and the entry of every candidate above the number of points is the
    cost [+0.0] of the degenerate run. *)
Theorem costs_beyond_size (g : rng) (X : matrix) (max_k : Z) :
  (1 <= max_k)%Z ->
  exists g' cs,
    costs g X (k_range max_k) = (g', Ok cs)
    /\ length cs = Z.to_nat max_k
    /\ forall k, (Z.of_nat (length X) < k <= max_k)%Z ->
         nth_error cs (Z.to_nat (k - 1)) = Some F64.zero.
Proof.
  intros Hk.
  destruct (costs_total X (k_range max_k) g (k_range_positive max_k))
    as (g' & cs & Hcosts & Hlen).
  rewrite k_range_length in Hlen.
  exists g', cs. split; [assumption|]. split; [assumption|].
  intros k Hkk.
  pose proof (costs_entries _ _ _ _ _ Hcosts) as Hent.
  assert (Hi : Z.to_nat (k - 1) < Z.to_nat max_k) by lia.
  destruct (Forall2_nth_error _ _ _ Hent _ _ (k_range_nth max_k _ Hi))
    as (c & Hc & Hrun).
  rewrite Hc. f_equal.
  destruct (Hrun g) as (labels & medoids & Hrun').
  replace (Z.of_nat (S (Z.to_nat (k - 1)))) with k in Hrun' by lia.
  unfold kmedians in Hrun'.
  destruct (Z.ltb_spec (Z.of_nat (length X)) k) as [_|?]; [|lia].
  cbn in Hrun'. inversion Hrun'. reflexivity.
Qed.

(** X6. Sections 6.A and 6.B never raise, whatever the feature set:
    the selected number of clusters is between 1 and 15, every point
    has one label, every label is below the selected number, and the
    number of medoids is the selected number, or 0 when there are fewer
    points than that. *)
Theorem final_clustering_total (g : rng) (X : matrix) :
  exists g' optimal_k labels medoids cost,
    final_clustering g X = (g', Ok (optimal_k, (labels, medoids, cost)))
    /\ (1 <= optimal_k <= 15)%Z
    /\ length labels = length X
    /\ Forall (fun l => (Z.of_nat l < optimal_k)%Z) labels
    /\ Z.of_nat (length medoids)
       = (if (Z.of_nat (length X) <? optimal_k)%Z then 0%Z else optimal_k).
Proof.
  destruct (find_optimal_k_scan g X 15) as (g1 & cs & _ & _ & Hfind & Hrange);
    [lia|].
  unfold final_clustering. rewrite Hfind.
  set (k := elbow_loop _ _ _ _ _) in *.
  destruct (Z.ltb_spec (Z.of_nat (length X)) k) as [Hlt|Hge].
  - unfold kmedians. apply Z.ltb_lt in Hlt. rewrite Hlt.
    exists (np_random_seed 100), k, (repeat 0 (length X)), [], F64.zero.
    split; [reflexivity|]. split; [assumption|].
    split; [apply repeat_length|]. split; [|rewrite Hlt; reflexivity].
    apply Forall_forall. intros l Hl. apply repeat_spec in Hl. subst l. lia.
  - destruct (kmedians_regular_ok g1 X k 100 100)
      as (labels & medoids & cost & Hrun & Hlen & Hlab & Hmed); [lia|assumption|].
    destruct (kmedians g1 X k 100 100) as [g2 r]. cbn [snd] in Hrun. subst r.
    exists g2, k, labels, medoids, cost.
    split; [reflexivity|]. split; [assumption|]. split; [assumption|].
    split; [|destruct (Z.ltb_spec (Z.of_nat (length X)) k); [lia|assumption]].
    eapply Forall_impl; [|exact Hlab]. cbn beta. intros. lia.
Qed.

(** X7. The final run repeats the run the selector made for the
    candidate it selected (both reseed the generator with the same
    value): its total cost is the entry of that candidate in the cost
    curve. *)
Theorem final_clustering_cost_on_curve (g : rng) (X : matrix) :
  exists g' g'' cs optimal_k labels medoids cost,
    costs g X (k_range 15) = (g', Ok cs)
    /\ final_clustering g X = (g'', Ok (optimal_k, (labels, medoids, cost)))
    /\ nth_error cs (Z.to_nat (optimal_k - 1)) = Some cost.
Proof.
  destruct (find_optimal_k_scan g X 15) as (g1 & cs & Hcosts & Hlen & Hfind & Hrange);
    [lia|].
  unfold final_clustering. rewrite Hfind.
  set (k := elbow_loop _ _ _ _ _) in *.
  pose proof (costs_entries _ _ _ _ _ Hcosts) as Hent.
  assert (Hi : Z.to_nat (k - 1) < Z.to_nat 15) by lia.
  destruct (Forall2_nth_error _ _ _ Hent _ _ (k_range_nth 15 _ Hi))
    as (c & Hc & Hrun).
  destruct (Hrun g1) as (labels & medoids & Hrun').
  replace (Z.of_nat (S (Z.to_nat (k - 1)))) with k in Hrun' by lia.
  destruct (kmedians g1 X k 100 100) as [g2 r]. cbn [snd] in Hrun'. subst r.
  exists g1, g2, cs, k, labels, medoids, c.
  split; [assumption|]. split; [reflexivity|assumption].
Qed.

End SelectorRuns.

Lemma find_optimal_k_ignores_nan_witness :
  exists g' cs k_star,
    costs (L := Ref.numpy) 0%Z Sample.X5 (k_range 3) = (g', Ok cs)
    /\ find_optimal_k (L := Ref.numpy) 0%Z Sample.X5 3 = (g', Ok k_star)
    /\ (1 <= k_star <= 3)%Z
    /\ ((k_star = 1%Z
         /\ forall k d, In (k, d) (elbow_distances (k_range 3) cs) ->
                        F64.ltb F64.zero d = false)
        \/ (exists d_star,
               In (k_star, d_star) (elbow_distances (k_range 3) cs)
               /\ F64.ltb F64.zero d_star = true
               /\ forall k d, In (k, d) (elbow_distances (k_range 3) cs) ->
                    F64.is_nan d = false ->
                    F64.leb d d_star = true
                    /\ ((k < k_star)%Z -> F64.ltb d d_star = true))).
Proof.
  apply (find_optimal_k_ignores_nan (L := Ref.numpy) 0%Z Sample.X5 3). lia.
Defined.

Lemma costs_beyond_size_witness :
  exists g' cs,
    costs (L := Ref.numpy) 0%Z Sample.X5 (k_range 15) = (g', Ok cs)
    /\ length cs = Z.to_nat 15
    /\ forall k, (Z.of_nat (length Sample.X5) < k <= 15)%Z ->
         nth_error cs (Z.to_nat (k - 1)) = Some F64.zero.
Proof.
  apply (costs_beyond_size (L := Ref.numpy) 0%Z Sample.X5 15). lia.
Defined.

Lemma final_clustering_total_witness :
  exists g' optimal_k labels medoids cost,
    final_clustering (L := Ref.numpy) 0%Z Sample.X5
    = (g', Ok (optimal_k, (labels, medoids, cost)))
    /\ (1 <= optimal_k <= 15)%Z
    /\ length labels = length Sample.X5
    /\ Forall (fun l => (Z.of_nat l < optimal_k)%Z) labels
    /\ Z.of_nat (length medoids)
       = (if (Z.of_nat (length Sample.X5) <? optimal_k)%Z then 0%Z else optimal_k).
Proof.
  apply (final_clustering_total (L := Ref.numpy) 0%Z Sample.X5).
Defined.

Lemma final_clustering_cost_on_curve_witness :
  exists g' g'' cs optimal_k labels medoids cost,
    costs (L := Ref.numpy) 0%Z Sample.X5 (k_range 15) = (g', Ok cs)
    /\ final_clustering (L := Ref.numpy) 0%Z Sample.X5
       = (g'', Ok (optimal_k, (labels, medoids, cost)))
    /\ nth_error cs (Z.to_nat (optimal_k - 1)) = Some cost.
Proof.
  apply (final_clustering_cost_on_curve (L := Ref.numpy) 0%Z Sample.X5).
Defined.

(* ================================================================== *)
(** * Further properties of the ranker and of the rewards *)
(* ================================================================== *)

Section Dictionaries.

Lemma group_keys_interval (fl : list nat) (m : nat) :
  (forall c, In c fl <-> 1 <= c <= m) -> group_keys fl = seq 1 m.
Proof.
  intros Hfl. unfold group_keys.
  assert (Hmax : list_max fl = m).
  { apply Nat.le_antisymm.
    - apply list_max_le. apply Forall_forall. intros c Hc. apply Hfl in Hc. lia.
    - destruct m as [|m]; [lia|].
      assert (Hin : In (S m) fl) by (apply Hfl; lia).
      assert (Hall : Forall (fun k => k <= list_max fl) fl)
        by (apply list_max_le; lia).
      rewrite Forall_forall in Hall. apply Hall. assumption. }
  rewrite Hmax. cbn [seq filter].
  destruct (existsb (Nat.eqb 0) fl) eqn:H0.
  - apply existsb_exists in H0. destruct H0 as (x & Hx & Heq).
    apply Nat.eqb_eq in Heq. subst x. apply Hfl in Hx. lia.
  - assert (Hgen : forall l, (forall c, In c l -> In c fl) ->
                     filter (fun c => existsb (Nat.eqb c) fl) l = l).
    { induction l as [|a l IH]; intros Hl; [reflexivity|]. cbn [filter].
      replace (existsb (Nat.eqb a) fl) with true.
      - f_equal. apply IH. intros c Hc. apply Hl. right. assumption.
      - symmetry. apply existsb_exists. exists a.
        split; [apply Hl; left; reflexivity|apply Nat.eqb_refl]. }
    apply Hgen. intros c Hc. apply in_seq in Hc. apply Hfl. lia.
Qed.

Lemma find_computed_value {V : Type} (f : nat -> V) (i : nat) (l : list nat) :
  In i l ->
  find (fun kv => Nat.eqb (fst kv) i) (map (fun k => (k, f k)) l) = Some (i, f i).
Proof.
  induction l as [|a l IH]; intros Hin; [contradiction|].
  cbn [map find fst].
  destruct (Nat.eqb_spec a i) as [->|Hne]; [reflexivity|].
  destruct Hin as [?|Hin]; [congruence|]. apply IH. assumption.
Qed.

Lemma dict_lookup_computed {V : Type} (f : nat -> V) (i : nat) (l : list nat) :
  In i l -> dict_lookup (map (fun k => (k, f k)) l) i = Some (f i).
Proof.
  intros Hin. unfold dict_lookup. rewrite <- map_rev.
  rewrite find_computed_value by (apply in_rev; rewrite rev_involutive; assumption).
  reflexivity.
Qed.

Lemma mapM_computed {V : Type} (f : nat -> outcome V) (v : nat -> V) (l : list nat) :
  (forall i, In i l -> f i = Ok (v i)) ->
  mapM (fun i => r <- f i ;; Ok (i, r)) l = Ok (map (fun i => (i, v i)) l).
Proof.
  induction l as [|a l IH]; intros Hf; [reflexivity|].
  cbn [mapM map]. rewrite (Hf a (or_introl eq_refl)). cbn [bind].
  rewrite IH by (intros i Hi; apply Hf; right; assumption).
  reflexivity.
Qed.

(** A sequence of calls raises the exception of the first call that
    raises. *)
Lemma mapM_Raise {A B : Type} (f : A -> outcome B) (l : list A) :
  Exists (fun a => exists e, f a = Raise e) l ->
  exists a e, In a l /\ f a = Raise e /\ mapM f l = Raise e.
Proof.
  induction l as [|a l IH]; intros Hex; [inversion Hex|].
  cbn [mapM]. destruct (f a) as [b|e] eqn:Hfa.
  - inversion Hex as [? ? [e He]|? ? Hex']; subst; [congruence|].
    destruct (IH Hex') as (a' & e & Hin & Hfa' & Hm).
    exists a', e. split; [right; assumption|]. split; [assumption|].
    cbn [bind]. rewrite Hm. reflexivity.
  - exists a, e. split; [left; reflexivity|]. split; [assumption|reflexivity].
Qed.

End Dictionaries.

Section RewardsByRank.

Context {P : Pandas} {PC : PandasContract P}.

Variables (labels : list nat) (metric : list float).

Let mean_of (c : nat) : float := pd_mean (group_values (Nat.eqb c) labels metric).
Let sorted : list (nat * float) := pd_sort_values (temp_summary labels metric).
Let ks : list nat := map fst sorted.
Let final : list (option nat) := relabel labels metric.
Let m : nat := length (group_keys labels).

Lemma sorted_keys_length : length ks = m.
Proof. apply Permutation_length. apply sorted_keys_perm. Qed.

(** A final label is the rank, counted from 1, of the original label
    among the sorted keys. *)
Lemma final_label_inv (u i : nat) :
  nth_error final u = Some (Some i) ->
  exists c p, nth_error labels u = Some c /\ nth_error ks p = Some c /\ i = S p.
Proof.
  intros Hu. unfold final in Hu. rewrite relabel_nth in Hu.
  destruct (nth_error labels u) as [c|] eqn:Hc; [|discriminate].
  destruct (sorted_keys_position labels metric c (nth_error_In _ _ Hc)) as [p Hp].
  cbn in Hu. rewrite (final_label labels metric c p Hp) in Hu.
  exists c, p. inversion Hu. auto.
Qed.

Lemma final_labels_interval (i : nat) :
  In i (flat_map (fun l => match l with Some c => [c] | None => [] end) final)
  <-> 1 <= i <= m.
Proof.
  rewrite in_flat_map. split.
  - intros ([j|] & Hin & Hi); [|contradiction].
    destruct Hi as [->|[]].
    apply In_nth_error in Hin. destruct Hin as [u Hu].
    destruct (final_label_inv u i Hu) as (c & p & _ & Hp & ->).
    assert (p < length ks) by (apply nth_error_Some; congruence).
    rewrite sorted_keys_length in *. lia.
  - intros Hi. exists (Some i). split; [|left; reflexivity].
    assert (Hlt : i - 1 < length ks) by (rewrite sorted_keys_length; lia).
    destruct (nth_error ks (i - 1)) as [c|] eqn:Hp;
      [|apply nth_error_None in Hp; lia].
    assert (Hc : In c labels).
    { apply group_keys_In.
      apply (Permutation_in c (sorted_keys_perm labels metric)).
      apply nth_error_In with (i - 1). exact Hp. }
    unfold final, relabel. apply in_map_iff. exists c. split; [|assumption].
    rewrite (final_label labels metric c (i - 1) Hp). f_equal. lia.
Qed.

Lemma final_keys_seq : final_keys final = seq 1 m.
Proof.
  unfold final_keys. apply group_keys_interval. apply final_labels_interval.
Qed.

(** The mean of a final cluster is one of the means of the summary. *)
Lemma cluster_means_In (i : nat) :
  1 <= i <= m ->
  exists c, In (c, cluster_means final metric i) (temp_summary labels metric).
Proof.
  intros Hi.
  assert (Hlt : i - 1 < length ks) by (rewrite sorted_keys_length; lia).
  destruct (nth_error ks (i - 1)) as [c|] eqn:Hp;
    [|apply nth_error_None in Hp; lia].
  exists c. replace i with (S (i - 1)) by lia. unfold final.
  rewrite (cluster_means_final labels metric c (i - 1) Hp).
  apply (Permutation_in _ (sort_permutation (temp_summary labels metric))).
  apply nth_error_In with (i - 1).
  apply (sorted_row labels metric). exact Hp.
Qed.

Lemma cluster_means_ascending (i j : nat) :
  Forall (fun r => F64.is_nan (snd r) = false) (temp_summary labels metric) ->
  1 <= i -> i < j -> j <= m ->
  F64.leb (cluster_means final metric i) (cluster_means final metric j) = true.
Proof.
  intros Hnan Hi Hij Hj.
  assert (Hlti : i - 1 < length ks) by (rewrite sorted_keys_length; lia).
  assert (Hltj : j - 1 < length ks) by (rewrite sorted_keys_length; lia).
  destruct (nth_error ks (i - 1)) as [ci|] eqn:Hpi;
    [|apply nth_error_None in Hpi; lia].
  destruct (nth_error ks (j - 1)) as [cj|] eqn:Hpj;
    [|apply nth_error_None in Hpj; lia].
  replace i with (S (i - 1)) by lia. replace j with (S (j - 1)) by lia.
  unfold final.
  rewrite (cluster_means_final labels metric ci (i - 1) Hpi),
          (cluster_means_final labels metric cj (j - 1) Hpj).
  apply (sort_ascending (temp_summary labels metric) Hnan (i - 1) (j - 1)); [lia| |].
  - rewrite nth_error_map, (sorted_row labels metric (i - 1) ci Hpi). reflexivity.
  - rewrite nth_error_map, (sorted_row labels metric (j - 1) cj Hpj). reflexivity.
Qed.

(** X8. The final labels in use are exactly [1, ..., m], where [m] is
    the number of clusters in use before the relabelling: the grouping
    of section 6.D has one group per rank, none is skipped. *)
Theorem final_labels_contiguous :
  final_keys (relabel labels metric) = seq 1 (length (group_keys labels)).
Proof. exact final_keys_seq. Qed.

End RewardsByRank.

Section RewardErrors.

(** The reward mapper raises on a mean that is not finite: a
    [ValueError] on a NaN, an [OverflowError] on an infinity. *)
Lemma calculate_cb_amount_not_finite (x : float) :
  F64.is_finite x = false ->
  calculate_cb_amount x
  = Raise (if F64.is_nan x then ValueError else OverflowError).
Proof.
  destruct x as [s|s| |s m e]; try discriminate; intros _;
    try destruct s; reflexivity.
Qed.

Lemma calculate_cb_amount_exn (x : float) (e : exn) :
  calculate_cb_amount x = Raise e -> e = ValueError \/ e = OverflowError.
Proof.
  unfold calculate_cb_amount, math_ceil.
  destruct (F64.div (F64.mul x F64.c0_10) F64.c10_0); cbn [bind];
    intros H; inversion H; auto.
Qed.

Lemma calculate_cb_amount_leb (m1 m2 : float) :
  F64.is_finite m1 = true -> F64.valid m1 = true ->
  F64.is_finite m2 = true -> F64.valid m2 = true ->
  F64.leb m1 m2 = true ->
  forall r1 r2,
    calculate_cb_amount m1 = Ok r1 -> calculate_cb_amount m2 = Ok r2 ->
    (r1 <= r2)%Z.
Proof.
  intros Hf1 Hv1 Hf2 Hv2 Hle r1 r2.
  pose proof (leb_scaled m1 m2 Hf1 Hv1 Hf2 Hv2 Hle) as Hs.
  rewrite (calculate_cb_amount_scaled m1 (valid_small m1 Hf1 Hv1)).
  rewrite (calculate_cb_amount_scaled m2 (valid_small m2 Hf2 Hv2)).
  intros H1 H2.
  assert (Hinj : forall a b : Z, Ok a = Ok b -> a = b)
    by (intros a b H; inversion H; reflexivity).
  apply Hinj in H1. apply Hinj in H2. subst r1 r2.
  apply Z.mul_le_mono_nonneg_r; [lia|].
  apply ceil_div_mono; [apply Z.pow_pos_nonneg; lia|].
  apply signed_tenth_of_tenth_mono. assumption.
Qed.

Lemma calculate_cb_amount_finite (x : float) :
  F64.is_finite x = true -> F64.valid x = true ->
  exists r, calculate_cb_amount x = Ok r.
Proof.
  intros Hf Hv. rewrite (calculate_cb_amount_scaled x (valid_small x Hf Hv)).
  eexists. reflexivity.
Qed.

End RewardErrors.

Section RewardsOfUsers.

Context {P : Pandas} {PC : PandasContract P}.

Variables (labels : list nat) (metric : list float).

(** X9. When the mean of every cluster is a finite value of the format,
    section 6.D raises nothing and gives every user an amount: the
    reward of the mean of the user's final cluster.  Two users of the
    same final cluster get the same amount, and a user of a higher
    final cluster never gets less than a user of a lower one. *)
Theorem cb_amount_by_rank :
  Forall (fun r => F64.is_finite (snd r) = true /\ F64.valid (snd r) = true)
         (temp_summary labels metric) ->
  let final := relabel labels metric in
  exists amounts,
    cb_amount final metric = Ok amounts
    /\ length amounts = length labels
    /\ (forall u i, nth_error final u = Some (Some i) ->
          exists r, nth_error amounts u = Some (Some r)
                    /\ calculate_cb_amount (cluster_means final metric i) = Ok r)
    /\ (forall u v i j ru rv,
          nth_error final u = Some (Some i) ->
          nth_error final v = Some (Some j) ->
          nth_error amounts u = Some (Some ru) ->
          nth_error amounts v = Some (Some rv) ->
          i <= j -> (ru <= rv)%Z).
Proof.
  intros Hall final.
  set (m := length (group_keys labels)).
  assert (Hfin : forall i, 1 <= i <= m ->
             F64.is_finite (cluster_means final metric i) = true
             /\ F64.valid (cluster_means final metric i) = true).
  { intros i Hi. destruct (cluster_means_In labels metric i Hi) as [c Hc].
    rewrite Forall_forall in Hall. apply (Hall _ Hc). }
  assert (Hnan : Forall (fun r => F64.is_nan (snd r) = false)
                        (temp_summary labels metric)).
  { eapply Forall_impl; [|exact Hall]. cbn beta. intros [c x] [Hf _]. cbn in *.
    destruct x; try discriminate; reflexivity. }
  assert (Hval : exists v : nat -> Z, forall i, 1 <= i <= m ->
             calculate_cb_amount (cluster_means final metric i) = Ok (v i)).
  { exists (fun i => match calculate_cb_amount (cluster_means final metric i) with
                     | Ok r => r
                     | Raise _ => 0%Z
                     end).
    intros i Hi. destruct (Hfin i Hi) as [Hf Hv].
    destruct (calculate_cb_amount_finite _ Hf Hv) as [r Hr].
    rewrite Hr. reflexivity. }
  destruct Hval as [v Hv].
  assert (Hmap : cluster_cb_map final metric = Ok (map (fun i => (i, v i)) (seq 1 m))).
  { unfold cluster_cb_map.
    rewrite (final_keys_seq labels metric : final_keys final = seq 1 m).
    apply (mapM_computed
             (fun i => calculate_cb_amount (cluster_means final metric i))).
    intros i Hi. apply in_seq in Hi. apply Hv. fold m in Hi. lia. }
  assert (Hrank : forall u i, nth_error final u = Some (Some i) -> 1 <= i <= m).
  { intros u i Hu.
    apply (final_labels_interval labels metric).
    apply in_flat_map. exists (Some i).
    split; [apply nth_error_In with u; exact Hu|left; reflexivity]. }
  unfold cb_amount. rewrite Hmap. cbn [bind].
  eexists. split; [reflexivity|].
  split; [unfold final, relabel; rewrite !length_map; reflexivity|].
  assert (Hamount : forall u i, nth_error final u = Some (Some i) ->
            nth_error
              (map (fun l => match l with
                             | Some i => dict_lookup (map (fun i => (i, v i)) (seq 1 m)) i
                             | None => None
                             end) final) u
            = Some (Some (v i))).
  { intros u i Hu. rewrite nth_error_map, Hu. cbn [option_map]. f_equal.
    apply dict_lookup_computed. apply in_seq.
    pose proof (Hrank u i Hu). lia. }
  split.
  - intros u i Hu. exists (v i).
    split; [apply Hamount; assumption|apply Hv; eapply Hrank; eassumption].
  - intros u w i j ru rv Hu Hw Hru Hrv Hij.
    rewrite (Hamount u i Hu) in Hru. rewrite (Hamount w j Hw) in Hrv.
    inversion Hru. inversion Hrv.
    pose proof (Hrank u i Hu) as Hi. pose proof (Hrank w j Hw) as Hj.
    destruct (Nat.eq_dec i j) as [->|Hne]; [lia|].
    destruct (Hfin i Hi) as [Hfi Hvi]. destruct (Hfin j Hj) as [Hfj Hvj].
    apply (calculate_cb_amount_leb (cluster_means final metric i)
                                   (cluster_means final metric j));
      try assumption; try (apply Hv; assumption).
    apply (cluster_means_ascending labels metric); try assumption; lia.
Qed.

(** X10. When the mean of some cluster is a NaN or an infinity,
    section 6.D raises the exception of the reward mapper, a
    [ValueError] or an [OverflowError], and no user gets an amount. *)
Theorem cb_amount_not_finite :
  Exists (fun r => F64.is_finite (snd r) = false) (temp_summary labels metric) ->
  exists e,
    cb_amount (relabel labels metric) metric = Raise e
    /\ (e = ValueError \/ e = OverflowError).
Proof.
  intros Hex. set (final := relabel labels metric).
  set (m := length (group_keys labels)).
  assert (Hraise : Exists
            (fun i => exists e,
                 (r <- calculate_cb_amount (cluster_means final metric i) ;;
                  Ok (i, r)) = Raise e)
            (final_keys final)).
  { apply Exists_exists in Hex. destruct Hex as ([c x] & Hin & Hx). cbn in Hx.
    apply (Permutation_in _ (Permutation_sym
                               (sort_permutation (temp_summary labels metric))))
      in Hin.
    apply In_nth_error in Hin. destruct Hin as [p Hp].
    assert (Hk : nth_error (map fst (pd_sort_values (temp_summary labels metric))) p
                 = Some c) by (rewrite nth_error_map, Hp; reflexivity).
    pose proof (sorted_row labels metric p c Hk) as Hrow.
    rewrite Hp in Hrow. inversion Hrow as [Hx'].
    apply Exists_exists. exists (S p). split.
    - unfold final. rewrite (final_keys_seq labels metric).
      apply in_seq.
      assert (p < length (map fst (pd_sort_values (temp_summary labels metric))))
        by (apply nth_error_Some; congruence).
      rewrite (sorted_keys_length labels metric) in *. lia.
    - unfold final. rewrite (cluster_means_final labels metric c p Hk).
      rewrite <- Hx'.
      rewrite (calculate_cb_amount_not_finite x Hx). eexists. reflexivity. }
  destruct (mapM_Raise _ _ Hraise) as (i & e & _ & Hi & Hm).
  exists e. split.
  - unfold cb_amount, cluster_cb_map. fold final. rewrite Hm. reflexivity.
  - destruct (calculate_cb_amount (cluster_means final metric i)) as [r|e'] eqn:Hc;
      [discriminate|].
    cbn [bind] in Hi. inversion Hi; subst e'.
    apply (calculate_cb_amount_exn _ _ Hc).
Qed.

End RewardsOfUsers.

(* ================================================================== *)
(** * The ranker and the rewards on the sample inputs *)
(* ================================================================== *)

Lemma final_labels_contiguous_witness :
  final_keys (relabel (P := Ref.pandas_stable) Sample.labels4 Sample.metric4)
  = seq 1 (length (group_keys Sample.labels4)).
Proof.
  apply (final_labels_contiguous (P := Ref.pandas_stable)
           Sample.labels4 Sample.metric4).
Defined.

Lemma cb_amount_by_rank_witness :
  exists amounts,
    cb_amount (P := Ref.pandas_stable)
              (relabel (P := Ref.pandas_stable) Sample.labels4 Sample.metric4)
              Sample.metric4 = Ok amounts
    /\ length amounts = length Sample.labels4
    /\ (forall u i,
          nth_error (relabel (P := Ref.pandas_stable) Sample.labels4 Sample.metric4) u
          = Some (Some i) ->
          exists r, nth_error amounts u = Some (Some r)
                    /\ calculate_cb_amount
                         (cluster_means (P := Ref.pandas_stable)
                            (relabel (P := Ref.pandas_stable)
                                     Sample.labels4 Sample.metric4)
                            Sample.metric4 i) = Ok r)
    /\ (forall u v i j ru rv,
          nth_error (relabel (P := Ref.pandas_stable) Sample.labels4 Sample.metric4) u
          = Some (Some i) ->
          nth_error (relabel (P := Ref.pandas_stable) Sample.labels4 Sample.metric4) v
          = Some (Some j) ->
          nth_error amounts u = Some (Some ru) ->
          nth_error amounts v = Some (Some rv) ->
          i <= j -> (ru <= rv)%Z).
Proof.
  apply (cb_amount_by_rank (P := Ref.pandas_stable) Sample.labels4 Sample.metric4).
  vm_compute. repeat constructor.
Defined.

Example cb_amount_sample :
  cb_amount (P := Ref.pandas_stable)
            (relabel (P := Ref.pandas_stable) Sample.labels4
                     [Sample.f 300; Sample.f 10; Sample.f 120; Sample.f 400])
            [Sample.f 300; Sample.f 10; Sample.f 120; Sample.f 400]
  = Ok [Some 40%Z; Some 10%Z; Some 20%Z; Some 40%Z].
Proof. vm_compute. reflexivity. Qed.

Lemma cb_amount_not_finite_witness :
  exists e,
    cb_amount (P := Ref.pandas_stable)
              (relabel (P := Ref.pandas_stable) [0; 1] [Sample.f 10; F64.nan])
              [Sample.f 10; F64.nan] = Raise e
    /\ (e = ValueError \/ e = OverflowError).
Proof.
  apply (cb_amount_not_finite (P := Ref.pandas_stable) [0; 1] [Sample.f 10; F64.nan]).
  vm_compute. apply Exists_cons_tl. apply Exists_cons_hd. reflexivity.
Defined.

(* ================================================================== *)
(** * The reward against exact arithmetic *)
(* ================================================================== *)

Section HalfWay.

Local Open Scope Z_scope.
Import Rounding.

(** Below the middle of two neighbours the rounding is the lower one. *)
Lemma rne_below_half (a b k : Z) :
  0 < b -> k * b <= a -> 2 * a < (2 * k + 1) * b -> rne a b = k.
Proof.
  intros Hb Hlo Hhi.
  assert (Hq : a / b = k).
  { symmetry. apply (Z.div_unique a b k (a - k * b)); [lia|lia]. }
  unfold rne. rewrite Hq.
  assert (Hr : a mod b = a - k * b) by (rewrite Z.mod_eq, Hq by lia; lia).
  rewrite Hr. destruct (Z.compare_spec (2 * (a - k * b)) b); lia.
Qed.

(** Above the middle of two neighbours the rounding is at least the
    upper one. *)
Lemma rne_above_half (a b k : Z) :
  0 < b -> (2 * k + 1) * b < 2 * a -> k + 1 <= rne a b.
Proof.
  intros Hb Hhi.
  pose proof (rne_bounds a b Hb) as Hbd.
  assert (Hk : k <= a / b).
  { apply Z.div_le_lower_bound; lia. }
  destruct (Z.eq_dec (a / b) k) as [Hq|Hq]; [|lia].
  unfold rne. rewrite Hq.
  assert (Hr : a mod b = a - k * b) by (rewrite Z.mod_eq, Hq by lia; lia).
  rewrite Hr. destruct (Z.compare_spec (2 * (a - k * b)) b); lia.
Qed.

Lemma Zdigits2_times_10 (n : Z) :
  0 < n -> Zdigits2 n + 3 <= Zdigits2 (10 * n) <= Zdigits2 n + 4.
Proof.
  intros Hn.
  pose proof (Zdigits2_shift n 3 Hn ltac:(lia)) as H3.
  pose proof (Zdigits2_shift n 4 Hn ltac:(lia)) as H4.
  pose proof (Zdigits2_mono (n * 2 ^ 3) (10 * n) ltac:(lia)).
  pose proof (Zdigits2_mono (10 * n) (n * 2 ^ 4) ltac:(lia)).
  lia.
Qed.

End HalfWay.

Section Thresholds.

Local Open Scope Z_scope.
Import Rounding.

(** The product of a multiple of 100 by [0.10] rounds to the multiple
    of 10: the excess of the literal over one tenth is less than half a
    unit in the last place. *)
Lemma round_to_product_at_threshold (J : Z) :
  1 <= J < 2 ^ 49 ->
  round_to 56 (100 * 2 ^ 1074 * J * 7205759403792794) 1
  = 10 * J * 2 ^ 1074 * 2 ^ 56.
Proof.
  intros [HJ1 HJ2].
  assert (HK : 0 < 2 ^ 1074) by (apply Z.pow_pos_nonneg; lia).
  assert (H1183 : 2 ^ 1183 = 2 ^ 1074 * 2 ^ 109)
    by (rewrite <- Z.pow_add_r by lia; reflexivity).
  assert (H1130 : 2 ^ 1130 = 2 ^ 1074 * 2 ^ 56)
    by (rewrite <- Z.pow_add_r by lia; reflexivity).
  assert (H109 : 2 ^ 109 = 649037107316853453566312041152512) by reflexivity.
  assert (H56 : 2 ^ 56 = 72057594037927936) by reflexivity.
  assert (H53 : 2 ^ 53 = 9007199254740992) by reflexivity.
  assert (H49 : 2 ^ 49 = 562949953421312) by reflexivity.
  unfold round_to. rewrite Z.div_1_r, Z.mul_1_l.
  remember (2 ^ 1074) as K eqn:HKdef.
  set (a := 100 * K * J * 7205759403792794).
  assert (Ha : a = 10 * J * K * 2 ^ 56 + 40 * J * K) by (unfold a; rewrite H56; ring).
  assert (Ha0 : 0 < a) by (unfold a; nia).
  set (d := Zdigits2 a).
  pose proof (Zdigits2_bounds a Ha0) as Hbd. fold d in Hbd.
  assert (Hd : d <= 1183).
  { apply Zdigits2_lt_pow2; [lia|lia|].
    rewrite H1183, H109. unfold a.
    replace (100 * K * J * 7205759403792794)
      with (K * (J * 720575940379279400)) by ring.
    apply Z.mul_lt_mono_pos_l; [assumption|]. lia. }
  set (t := Z.max (d - 53) 56).
  assert (Ht : 56 <= t <= 1130) by (unfold t; lia).
  assert (HT : 0 < 2 ^ t) by (apply Z.pow_pos_nonneg; lia).
  assert (Hsplit : 2 ^ t * 2 ^ (1130 - t) = K * 2 ^ 56).
  { rewrite <- Z.pow_add_r by lia. replace (t + (1130 - t)) with 1130 by lia.
    exact H1130. }
  assert (Hbig : a < 2 ^ t * 2 ^ 53).
  { apply Z.lt_le_trans with (2 ^ d); [apply Hbd|].
    rewrite <- Z.pow_add_r by lia. apply Z.pow_le_mono_r; unfold t; lia. }
  assert (Hhalf : 80 * J * K < 2 ^ t).
  { rewrite H53 in Hbig. rewrite Ha, H56 in Hbig. nia. }
  rewrite (rne_below_half a (2 ^ t) (10 * J * 2 ^ (1130 - t))).
  - replace (10 * J * 2 ^ (1130 - t) * 2 ^ t)
      with (10 * J * (2 ^ t * 2 ^ (1130 - t))) by ring.
    rewrite Hsplit. ring.
  - assumption.
  - replace (10 * J * 2 ^ (1130 - t) * 2 ^ t)
      with (10 * J * (2 ^ t * 2 ^ (1130 - t))) by ring.
    rewrite Hsplit, Ha. nia.
  - replace ((2 * (10 * J * 2 ^ (1130 - t)) + 1) * 2 ^ t)
      with (20 * J * (2 ^ t * 2 ^ (1130 - t)) + 2 ^ t) by ring.
    rewrite Hsplit, Ha. nia.
Qed.


(** The quotient of a multiple of 10 by [10.0] is exact. *)
Lemma round_to_quotient_at_threshold (J : Z) :
  1 <= J < 2 ^ 53 ->
  round_to 0 (10 * J * 2 ^ 1074 * 2 ^ 49) 5629499534213120 = J * 2 ^ 1074.
Proof.
  intros [HJ1 HJ2].
  assert (HK : 0 < 2 ^ 1074) by (apply Z.pow_pos_nonneg; lia).
  assert (H1127 : 2 ^ 1127 = 2 ^ 1074 * 2 ^ 53)
    by (rewrite <- Z.pow_add_r by lia; reflexivity).
  assert (H49 : 2 ^ 49 = 562949953421312) by reflexivity.
  unfold round_to.
  remember (2 ^ 1074) as K eqn:HKdef.
  replace (10 * J * K * 2 ^ 49) with (J * K * 5629499534213120)
    by (rewrite H49; ring).
  rewrite Z.div_mul by lia.
  set (d := Zdigits2 (J * K)).
  assert (Hd : d <= 1127).
  { apply Zdigits2_lt_pow2; [nia|lia|]. rewrite H1127. nia. }
  assert (Hd0 : 0 <= d) by apply Zdigits2_nonneg.
  set (t := Z.max (d - 53) 0).
  assert (Ht : 0 <= t <= 1074) by (unfold t; lia).
  assert (HT : 0 < 2 ^ t) by (apply Z.pow_pos_nonneg; lia).
  assert (Hsplit : 2 ^ (1074 - t) * 2 ^ t = K).
  { rewrite <- Z.pow_add_r by lia. replace (1074 - t + t) with 1074 by lia.
    symmetry. exact HKdef. }
  replace (J * K * 5629499534213120)
    with (J * 2 ^ (1074 - t) * (5629499534213120 * 2 ^ t))
    by (rewrite <- Hsplit; ring).
  rewrite rne_exact by nia.
  rewrite <- Hsplit. ring.
Qed.

(** At a multiple of 100 the two roundings are exact. *)
Lemma tenth_of_tenth_at_threshold (J : Z) :
  1 <= J < 2 ^ 49 ->
  tenth_of_tenth (100 * 2 ^ 1074 * J) = J * 2 ^ 1074.
Proof.
  intros HJ. unfold tenth_of_tenth.
  rewrite (round_to_product_at_threshold J HJ).
  rewrite Z.div_mul by (apply Z.pow_nonzero; lia).
  apply round_to_quotient_at_threshold.
  assert (2 ^ 49 < 2 ^ 53) by (apply Z.pow_lt_mono_r; lia). lia.
Qed.

End Thresholds.

Section AboveThresholds.

Local Open Scope Z_scope.
Import Rounding.

(** One unit in the last place above a multiple of 100, the product by
    [0.10] rounds above the multiple of 10. *)
Lemma round_to_product_above (J : Z) :
  1 <= J < 2 ^ 47 ->
  10 * J * 2 ^ 1074 * 2 ^ 56 + 2 ^ (Zdigits2 (10 * J) + 1077)
  <= round_to 56 ((100 * 2 ^ 1074 * J + 2 ^ (Zdigits2 (100 * J) + 1021))
                  * 7205759403792794) 1.
Proof.
  intros [HJ1 HJ2].
  assert (H47 : 2 ^ 47 = 140737488355328) by reflexivity.
  assert (H51 : 2 ^ 51 = 2251799813685248) by reflexivity.
  assert (H52 : 2 ^ 52 = 4503599627370496) by reflexivity.
  assert (H53 : 2 ^ 53 = 9007199254740992) by reflexivity.
  assert (H56 : 2 ^ 56 = 72057594037927936) by reflexivity.
  assert (HK : 0 < 2 ^ 1074) by (apply Z.pow_pos_nonneg; lia).
  set (e1 := Zdigits2 (10 * J)).
  set (e0 := Zdigits2 (100 * J)).
  pose proof (Zdigits2_bounds (10 * J) ltac:(lia)) as Hb1. fold e1 in Hb1.
  assert (He1 : 4 <= e1 <= 51).
  { split.
    - apply (Zdigits2_ge_pow2 (10 * J) 3); lia.
    - apply Zdigits2_lt_pow2; lia. }
  assert (He0 : e1 + 3 <= e0 <= e1 + 4).
  { pose proof (Zdigits2_times_10 (10 * J) ltac:(lia)) as H.
    replace (10 * (10 * J)) with (100 * J) in H by ring. exact H. }
  assert (HE1 : 2 ^ e1 = 2 * 2 ^ (e1 - 1)).
  { replace e1 with (1 + (e1 - 1)) at 1 by lia. rewrite Z.pow_add_r by lia.
    reflexivity. }
  assert (HE1' : 2 ^ e1 <= 2 ^ 51) by (apply Z.pow_le_mono_r; lia).
  assert (HE0 : 8 * 2 ^ e1 <= 2 ^ e0 <= 16 * 2 ^ e1).
  { split.
    - change 8 with (2 ^ 3). rewrite <- Z.pow_add_r by lia.
      apply Z.pow_le_mono_r; lia.
    - change 16 with (2 ^ 4). rewrite <- Z.pow_add_r by lia.
      apply Z.pow_le_mono_r; lia. }
  assert (HU : 2 ^ (e0 + 1021) * 2 ^ 53 = 2 ^ e0 * 2 ^ 1074).
  { rewrite <- !Z.pow_add_r by lia. f_equal. lia. }
  assert (HT : 2 ^ (e1 + 1077) = 8 * 2 ^ e1 * 2 ^ 1074).
  { change 8 with (2 ^ 3). rewrite <- !Z.pow_add_r by lia. f_equal. lia. }
  assert (HQ : 2 ^ (53 - e1) * 2 ^ (e1 + 1077) = 2 ^ 1074 * 2 ^ 56).
  { rewrite <- !Z.pow_add_r by lia. f_equal. lia. }
  assert (HD : 2 ^ (e1 + 1130) = 2 ^ e1 * 2 ^ 1074 * 2 ^ 56).
  { rewrite <- !Z.pow_add_r by lia. f_equal. lia. }
  assert (HD' : 2 ^ (e1 - 1 + 1130) = 2 ^ (e1 - 1) * 2 ^ 1074 * 2 ^ 56).
  { rewrite <- !Z.pow_add_r by lia. f_equal. lia. }
  assert (HU0 : 0 < 2 ^ (e0 + 1021)) by (apply Z.pow_pos_nonneg; lia).
  assert (HE10 : 0 < 2 ^ (e1 - 1)) by (apply Z.pow_pos_nonneg; lia).
  unfold round_to. rewrite Z.div_1_r, Z.mul_1_l.
  remember (2 ^ 1074) as K eqn:HKdef.
  remember (2 ^ (e0 + 1021)) as U eqn:HUdef.
  remember (2 ^ e0) as E0 eqn:HE0def.
  remember (2 ^ e1) as E1 eqn:HE1def.
  remember (2 ^ (e1 - 1)) as E1h eqn:HE1hdef.
  set (a := (100 * K * J + U) * 7205759403792794).
  assert (Ha : a = 10 * J * K * 2 ^ 56 + 40 * J * K + U * 7205759403792794)
    by (unfold a; rewrite H56; ring).
  assert (HUK : U * 9007199254740992 = E0 * K) by (rewrite <- H53; exact HU).
  assert (Ha0 : 0 < a) by (unfold a; nia).
  assert (Hd : Zdigits2 a = e1 + 1130).
  { apply Zdigits2_unique; [lia|].
    replace (e1 + 1130 - 1) with (e1 - 1 + 1130) by lia.
    rewrite HD, HD'. split.
    - rewrite Ha, H56. nia.
    - rewrite Ha, H56. nia. }
  rewrite Hd.
  replace (Z.max (e1 + 1130 - 53) 56) with (e1 + 1077) by lia.
  rewrite HT.
  assert (Hup : 10 * J * 2 ^ (53 - e1) + 1 <= rne a (8 * E1 * K)).
  { apply rne_above_half; [nia|].
    replace ((2 * (10 * J * 2 ^ (53 - e1)) + 1) * (8 * E1 * K))
      with (20 * J * (2 ^ (53 - e1) * (8 * E1 * K)) + 8 * E1 * K) by ring.
    rewrite <- HT, HQ, HT, Ha, H56. nia. }
  apply Z.le_trans with ((10 * J * 2 ^ (53 - e1) + 1) * (8 * E1 * K)).
  - replace ((10 * J * 2 ^ (53 - e1) + 1) * (8 * E1 * K))
      with (10 * J * (2 ^ (53 - e1) * (8 * E1 * K)) + 8 * E1 * K) by ring.
    rewrite <- HT, HQ, HT. lia.
  - apply Z.mul_le_mono_nonneg_r; [nia|assumption].
Qed.


(** One unit in the last place above a multiple of 10, the quotient by
    [10.0] rounds above the multiple of 1. *)
Lemma round_to_quotient_above (J : Z) :
  1 <= J < 2 ^ 47 ->
  J * 2 ^ 1074 + 2 ^ (Zdigits2 J + 1021)
  <= round_to 0 ((10 * J * 2 ^ 1074 + 2 ^ (Zdigits2 (10 * J) + 1021)) * 2 ^ 49)
              5629499534213120.
Proof.
  intros [HJ1 HJ2].
  assert (H47 : 2 ^ 47 = 140737488355328) by reflexivity.
  assert (H49 : 2 ^ 49 = 562949953421312) by reflexivity.
  assert (HK : 0 < 2 ^ 1074) by (apply Z.pow_pos_nonneg; lia).
  set (e1 := Zdigits2 (10 * J)).
  set (e2 := Zdigits2 J).
  pose proof (Zdigits2_bounds J ltac:(lia)) as Hb2. fold e2 in Hb2.
  assert (He2 : 1 <= e2 <= 47).
  { split.
    - apply (Zdigits2_ge_pow2 J 0); lia.
    - apply Zdigits2_lt_pow2; lia. }
  assert (He1 : e2 + 3 <= e1 <= e2 + 4) by (apply Zdigits2_times_10; lia).
  assert (HE2 : 2 ^ e2 = 2 * 2 ^ (e2 - 1)).
  { replace e2 with (1 + (e2 - 1)) at 1 by lia. rewrite Z.pow_add_r by lia.
    reflexivity. }
  assert (HE1 : 8 * 2 ^ e2 <= 2 ^ e1 <= 16 * 2 ^ e2).
  { split.
    - change 8 with (2 ^ 3). rewrite <- Z.pow_add_r by lia.
      apply Z.pow_le_mono_r; lia.
    - change 16 with (2 ^ 4). rewrite <- Z.pow_add_r by lia.
      apply Z.pow_le_mono_r; lia. }
  assert (HE2' : 2 ^ e2 <= 2 ^ 47) by (apply Z.pow_le_mono_r; lia).
  assert (HG : 2 ^ (e1 + 1021) * 2 ^ 53 = 2 ^ e1 * 2 ^ 1074).
  { rewrite <- !Z.pow_add_r by lia. f_equal. lia. }
  assert (HT : 2 ^ (e2 + 1021) * 2 ^ 53 = 2 ^ e2 * 2 ^ 1074).
  { rewrite <- !Z.pow_add_r by lia. f_equal. lia. }
  assert (HQ : 2 ^ (53 - e2) * 2 ^ (e2 + 1021) = 2 ^ 1074).
  { rewrite <- !Z.pow_add_r by lia. f_equal. lia. }
  assert (HD : 2 ^ (e2 + 1074) = 2 ^ e2 * 2 ^ 1074).
  { rewrite <- !Z.pow_add_r by lia. f_equal. }
  assert (HD' : 2 ^ (e2 - 1 + 1074) = 2 ^ (e2 - 1) * 2 ^ 1074).
  { rewrite <- !Z.pow_add_r by lia. f_equal. }
  assert (HG0 : 0 < 2 ^ (e1 + 1021)) by (apply Z.pow_pos_nonneg; lia).
  assert (HT0 : 0 < 2 ^ (e2 + 1021)) by (apply Z.pow_pos_nonneg; lia).
  assert (HE20 : 0 < 2 ^ (e2 - 1)) by (apply Z.pow_pos_nonneg; lia).
  assert (H53 : 2 ^ 53 = 9007199254740992) by reflexivity.
  unfold round_to.
  remember (2 ^ 1074) as K eqn:HKdef.
  remember (2 ^ (e1 + 1021)) as G eqn:HGdef.
  remember (2 ^ (e2 + 1021)) as T eqn:HTdef.
  remember (2 ^ e1) as E1 eqn:HE1def.
  remember (2 ^ e2) as E2 eqn:HE2def.
  remember (2 ^ (e2 - 1)) as E2h eqn:HE2hdef.
  rewrite H53 in HG, HT.
  set (a := (10 * J * K + G) * 2 ^ 49).
  assert (Ha : a = (10 * J * K + G) * 562949953421312) by (unfold a; rewrite H49; ring).
  set (q := a / 5629499534213120).
  assert (Hq : J * K <= q < J * K + K).
  { unfold q. split.
    - apply Z.div_le_lower_bound; [lia|]. rewrite Ha. nia.
    - apply Z.div_lt_upper_bound; [lia|]. rewrite Ha. nia. }
  assert (Hd : Zdigits2 q = e2 + 1074).
  { apply Zdigits2_unique; [lia|].
    replace (e2 + 1074 - 1) with (e2 - 1 + 1074) by lia.
    rewrite HD, HD'. split; nia. }
  rewrite Hd.
  replace (Z.max (e2 + 1074 - 53) 0) with (e2 + 1021) by lia.
  rewrite <- HTdef.
  assert (Hup : J * 2 ^ (53 - e2) + 1 <= rne a (5629499534213120 * T)).
  { apply rne_above_half; [nia|].
    replace ((2 * (J * 2 ^ (53 - e2)) + 1) * (5629499534213120 * T))
      with (11258999068426240 * J * (2 ^ (53 - e2) * T) + 5629499534213120 * T)
      by ring.
    rewrite HQ, Ha. nia. }
  apply Z.le_trans with ((J * 2 ^ (53 - e2) + 1) * T).
  - replace ((J * 2 ^ (53 - e2) + 1) * T)
      with (J * (2 ^ (53 - e2) * T) + T) by ring.
    rewrite HQ. lia.
  - apply Z.mul_le_mono_nonneg_r; [lia|assumption].
Qed.

(** Above a multiple of 100 by at least one unit in the last place, the
    rounded tenth of the rounded tenth is above the multiple of 1. *)
Lemma tenth_of_tenth_above (J N : Z) :
  1 <= J < 2 ^ 47 ->
  100 * 2 ^ 1074 * J + 2 ^ (Zdigits2 (100 * J) + 1021) <= N ->
  J * 2 ^ 1074 < tenth_of_tenth N.
Proof.
  intros HJ HN.
  assert (HK : 0 < 2 ^ 1074) by (apply Z.pow_pos_nonneg; lia).
  assert (HU : 0 < 2 ^ (Zdigits2 (100 * J) + 1021)).
  { apply Z.pow_pos_nonneg; [lia|]. pose proof (Zdigits2_nonneg (100 * J)). lia. }
  assert (HT : 0 < 2 ^ (Zdigits2 J + 1021)).
  { apply Z.pow_pos_nonneg; [lia|]. pose proof (Zdigits2_nonneg J). lia. }
  assert (HG : 2 ^ (Zdigits2 (10 * J) + 1077)
               = 2 ^ (Zdigits2 (10 * J) + 1021) * 2 ^ 56).
  { pose proof (Zdigits2_nonneg (10 * J)).
    rewrite <- Z.pow_add_r by lia. f_equal. lia. }
  apply Z.lt_le_trans with (J * 2 ^ 1074 + 2 ^ (Zdigits2 J + 1021)); [lia|].
  apply Z.le_trans
    with (tenth_of_tenth (100 * 2 ^ 1074 * J + 2 ^ (Zdigits2 (100 * J) + 1021))).
  2: { apply tenth_of_tenth_mono. nia. }
  unfold tenth_of_tenth.
  pose proof (round_to_product_above J HJ) as Hin.
  rewrite HG in Hin.
  set (Y := round_to 56 _ 1) in *.
  eapply Z.le_trans; [apply (round_to_quotient_above J HJ)|].
  assert (Hy : 10 * J * 2 ^ 1074 + 2 ^ (Zdigits2 (10 * J) + 1021) <= Y / 2 ^ 56).
  { apply Z.div_le_lower_bound; [apply Z.pow_pos_nonneg; lia|]. lia. }
  assert (HG0 : 0 < 2 ^ (Zdigits2 (10 * J) + 1021)).
  { apply Z.pow_pos_nonneg; [lia|]. pose proof (Zdigits2_nonneg (10 * J)). lia. }
  apply round_to_mono; [lia|lia|].
  assert (0 < 2 ^ 49) by (apply Z.pow_pos_nonneg; lia).
  split; [nia|].
  apply Z.mul_le_mono_nonneg_r; [lia|assumption].
Qed.

End AboveThresholds.

Section Exactness.

Local Open Scope Z_scope.
Import Rounding.

Lemma ceil_div_unique (n d j : Z) :
  0 < d -> (j - 1) * d < n <= j * d -> ceil_div n d = j.
Proof.
  intros Hd [Hlo Hhi]. unfold ceil_div.
  assert (H : - n / d = - j); [|lia].
  symmetry. apply (Z.div_unique (- n) d (- j) (j * d - n)); lia.
Qed.

Lemma ceil_div_bounds (n d : Z) :
  0 < d -> (ceil_div n d - 1) * d < n <= ceil_div n d * d.
Proof.
  intros Hd. unfold ceil_div.
  pose proof (Z.div_mod (- n) d ltac:(lia)).
  pose proof (Z.mod_pos_bound (- n) d Hd). nia.
Qed.

(** Two values of the format that differ, differ by at least one unit
    in the last place of the smaller one. *)
Lemma representable_gap (m : positive) (e : Z) (J : Z) :
  F64.valid (S754_finite false m e) = true ->
  1 <= J -> 100 * J < 2 ^ 53 ->
  100 * 2 ^ 1074 * J < Z.pos m * 2 ^ (e + 1074) ->
  100 * 2 ^ 1074 * J + 2 ^ (Zdigits2 (100 * J) + 1021)
  <= Z.pos m * 2 ^ (e + 1074).
Proof.
  intros Hv HJ1 HJ2 Hlt.
  destruct (valid_finite_inv false m e Hv) as (He & Hdm & _).
  assert (HK : 0 < 2 ^ 1074) by (apply Z.pow_pos_nonneg; lia).
  pose proof (Zdigits2_bounds (Z.pos m) ltac:(lia)) as [_ Hm].
  assert (Hm' : Z.pos m < 2 ^ 53).
  { apply Z.lt_le_trans with (2 ^ Zdigits2 (Z.pos m)); [assumption|].
    apply Z.pow_le_mono_r; lia. }
  set (e0 := Zdigits2 (100 * J)).
  pose proof (Zdigits2_bounds (100 * J) ltac:(lia)) as Hb0. fold e0 in Hb0.
  assert (He0 : 1 <= e0 <= 53).
  { split.
    - apply (Zdigits2_ge_pow2 (100 * J) 0); lia.
    - apply Zdigits2_lt_pow2; lia. }
  assert (HS : 0 < 2 ^ (e + 1074)) by (apply Z.pow_pos_nonneg; lia).
  assert (Hs : e0 + 1021 <= e + 1074).
  { assert (Hpow : 2 ^ (e0 - 1 + 1074) < 2 ^ (53 + (e + 1074))).
    { rewrite !Z.pow_add_r by lia.
      apply Z.le_lt_trans with (100 * 2 ^ 1074 * J); [nia|].
      apply Z.lt_trans with (Z.pos m * 2 ^ (e + 1074)); [assumption|].
      apply Z.mul_lt_mono_pos_r; assumption. }
    apply Z.pow_lt_mono_r_iff in Hpow; lia. }
  assert (HU : 0 < 2 ^ (e0 + 1021)) by (apply Z.pow_pos_nonneg; lia).
  assert (HN : Z.pos m * 2 ^ (e + 1074)
               = Z.pos m * 2 ^ (e + 1074 - (e0 + 1021)) * 2 ^ (e0 + 1021)).
  { rewrite <- Z.mul_assoc, <- Z.pow_add_r by lia. do 2 f_equal. lia. }
  assert (HT : 100 * 2 ^ 1074 * J = 100 * J * 2 ^ (53 - e0) * 2 ^ (e0 + 1021)).
  { rewrite <- (Z.mul_assoc (100 * J)), <- Z.pow_add_r by lia.
    replace (53 - e0 + (e0 + 1021)) with 1074 by lia. ring. }
  rewrite HN, HT in *.
  remember (2 ^ (e0 + 1021)) as U.
  remember (Z.pos m * 2 ^ (e + 1074 - (e0 + 1021))) as A.
  remember (100 * J * 2 ^ (53 - e0)) as B.
  assert (B < A) by nia. nia.
Qed.

(** The rounded tenth of the rounded tenth has the ceiling of the exact
    hundredth, from the least positive normal number to [2 ^ 53]. *)
Lemma tenth_of_tenth_ceiling (m : positive) (e : Z) :
  F64.valid (S754_finite false m e) = true ->
  55 <= Z.pos m * 2 ^ (e + 1074) <= 2 ^ 53 * 2 ^ 1074 ->
  ceil_div (tenth_of_tenth (Z.pos m * 2 ^ (e + 1074))) (2 ^ 1074)
  = ceil_div (Z.pos m * 2 ^ (e + 1074)) (100 * 2 ^ 1074).
Proof.
  intros Hv [Hlo Hhi].
  assert (HK : 0 < 2 ^ 1074) by (apply Z.pow_pos_nonneg; lia).
  assert (H53 : 2 ^ 53 = 9007199254740992) by reflexivity.
  assert (H47 : 2 ^ 47 = 140737488355328) by reflexivity.
  assert (H49 : 2 ^ 49 = 562949953421312) by reflexivity.
  set (N := Z.pos m * 2 ^ (e + 1074)) in *.
  set (J := ceil_div N (100 * 2 ^ 1074)).
  pose proof (ceil_div_bounds N (100 * 2 ^ 1074) ltac:(lia)) as HJ. fold J in HJ.
  assert (HJ1 : 1 <= J) by nia.
  assert (HJ2 : J <= 90071992547410) by nia.
  apply ceil_div_unique; [assumption|]. split.
  - destruct (Z.eq_dec J 1) as [->|Hne].
    + assert (Hone : 1 <= tenth_of_tenth N).
      { apply Z.le_trans with (tenth_of_tenth 55); [vm_compute; discriminate|].
        apply tenth_of_tenth_mono. lia. }
      lia.
    + apply tenth_of_tenth_above; [lia|].
      apply representable_gap; [assumption|lia|lia|]. fold N. lia.
  - rewrite <- (tenth_of_tenth_at_threshold J) by lia.
    apply tenth_of_tenth_mono. lia.
Qed.

End Exactness.

Section HundredthOfValue.

Import Rounding.

Lemma to_Q_hundredth (m : positive) (e : Z) :
  (-1074 <= e)%Z ->
  Qceiling (F64.to_Q (S754_finite false m e) / 100)
  = ceil_div (Z.pos m * 2 ^ (e + 1074)) (100 * 2 ^ 1074).
Proof.
  intros He.
  assert (HK : (0 < 2 ^ 1074)%Z) by (apply Z.pow_pos_nonneg; lia).
  rewrite <- Qceiling_div by lia. apply Qceiling_comp.
  cbn [F64.to_Q cond_Zopp].
  rewrite !inject_Z_mult.
  rewrite !Zpower_Qpower by lia.
  rewrite Qpower_plus by discriminate.
  set (p := (inject_Z 2 ^ 1074)%Q).
  assert (Hp : ~ (p == 0)%Q).
  { unfold p. apply Qpower_not_0. discriminate. }
  change (inject_Z 2) with 2%Q.
  change (inject_Z 100) with 100%Q.
  field. assumption.
Qed.


(** From the least positive normal number to [2 ^ 53] the reward is 10
    times the ceiling of the exact hundredth. *)
Lemma calculate_cb_amount_hundredth (mean_val : float) :
  F64.is_finite mean_val = true -> F64.valid mean_val = true ->
  F64.leb float_info_min mean_val = true ->
  F64.leb mean_val (F64.of_Z 9007199254740992) = true ->
  calculate_cb_amount mean_val
  = Ok (10 * Qceiling (F64.to_Q mean_val / 100))%Z.
Proof.
  intros Hf Hv Hlo Hhi.
  pose proof (leb_scaled float_info_min mean_val eq_refl eq_refl Hf Hv Hlo) as Hlo'.
  pose proof (leb_scaled mean_val (F64.of_Z 9007199254740992) Hf Hv eq_refl eq_refl Hhi)
    as Hhi'.
  change (scaled 1074 float_info_min) with 4503599627370496%Z in Hlo'.
  change (scaled 1074 (F64.of_Z 9007199254740992))
    with (4503599627370496 * 2 ^ (1 + 1074))%Z in Hhi'.
  rewrite Z.pow_add_r in Hhi' by lia.
  rewrite (calculate_cb_amount_scaled mean_val (valid_small mean_val Hf Hv)).
  assert (HK : (0 < 2 ^ 1074)%Z) by (apply Z.pow_pos_nonneg; lia).
  destruct mean_val as [s|s| |s m e]; try discriminate.
  destruct s; [discriminate|].
  destruct (valid_finite_inv false m e Hv) as (He & _).
  cbn [scaled cond_Zopp] in *.
  unfold signed_tenth_of_tenth.
  destruct (Z.ltb_spec (Z.pos m * 2 ^ (e + 1074)) 0) as [?|_]; [lia|].
  rewrite tenth_of_tenth_ceiling.
  - rewrite to_Q_hundredth by lia. f_equal. apply Z.mul_comm.
  - assumption.
  - change (2 ^ 53)%Z with 9007199254740992%Z.
    change (2 ^ 1)%Z with 2%Z in Hhi'. lia.
Qed.


(** X11. From the least positive normal number to [2 ^ 53] the two
    roundings of the source do not show: on every mean of that range (a
    finite value of the format) the reward is 10 times the ceiling of
    the exact hundredth of the mean. *)
Theorem reward_exact (mean_val : float) :
  F64.is_finite mean_val = true -> F64.valid mean_val = true ->
  F64.leb float_info_min mean_val = true ->
  F64.leb mean_val (F64.of_Z 9007199254740992) = true ->
  calculate_cb_amount mean_val
  = Ok (10 * Qceiling (F64.to_Q mean_val / 100))%Z.
Proof. exact (calculate_cb_amount_hundredth mean_val). Qed.

(** C8, as amended. On every cluster mean that is a zero or lies
    between the least positive normal number and [2 ^ 53] (a finite
    value of the format) the reward mapper returns exactly 10 times the
    ceiling of [mean * 0.1 / 10], read in exact arithmetic; a mean of 47
    yields 10, a mean of 123 yields 20 and a zero mean yields 0. *)
Theorem reward_formula :
  (forall mean_val : float,
      F64.is_finite mean_val = true -> F64.valid mean_val = true ->
      F64.eqb mean_val F64.zero = true
      \/ (F64.leb float_info_min mean_val = true
          /\ F64.leb mean_val (F64.of_Z 9007199254740992) = true) ->
      calculate_cb_amount mean_val = Ok (exact_reward (F64.to_Q mean_val)))
  /\ calculate_cb_amount (F64.of_Z 47) = Ok 10%Z
  /\ calculate_cb_amount (F64.of_Z 123) = Ok 20%Z
  /\ calculate_cb_amount F64.zero = Ok 0%Z.
Proof.
  split; [|repeat split; vm_compute; reflexivity].
  intros mean_val Hf Hv [Hz|[Hlo Hhi]].
  - destruct mean_val as [s|s| |s m e]; try discriminate.
    + destruct s; reflexivity.
    + destruct s; discriminate.
  - rewrite (calculate_cb_amount_hundredth mean_val Hf Hv Hlo Hhi).
    unfold exact_reward. do 2 f_equal.
    apply Qceiling_comp. field.
Qed.

End HundredthOfValue.

(* ================================================================== *)
(** * The exact reward on sample means *)
(* ================================================================== *)

Lemma reward_exact_witness :
  calculate_cb_amount (F64.div (F64.of_Z 2501) (F64.of_Z 10))
  = Ok (10 * Qceiling (F64.to_Q (F64.div (F64.of_Z 2501) (F64.of_Z 10)) / 100))%Z.
Proof.
  apply (reward_exact (F64.div (F64.of_Z 2501) (F64.of_Z 10)));
    vm_compute; reflexivity.
Defined.

(** A mean of 250.1 is rewarded with 30. *)
Example reward_of_250_1 :
  calculate_cb_amount (F64.div (F64.of_Z 2501) (F64.of_Z 10)) = Ok 30%Z.
Proof. vm_compute. reflexivity. Qed.

Lemma reward_formula_witness :
  calculate_cb_amount (F64.of_Z 47) = Ok (exact_reward (F64.to_Q (F64.of_Z 47))).
Proof.
  apply (proj1 reward_formula (F64.of_Z 47)); try reflexivity.
  right. split; reflexivity.
Defined.

(** C8, as stated, fails where the two roundings show.  At [2 ^ 63] the
    source returns 10 more than the reward of exact arithmetic; on the
    least positive number of the format the product by [0.10] underflows
    to zero and the source returns 0, where exact arithmetic gives 10. *)
Lemma reward_formula_fails_out_of_range :
  calculate_cb_amount (F64.of_Z (2 ^ 63)) = Ok 922337203685477600%Z
  /\ exact_reward (F64.to_Q (F64.of_Z (2 ^ 63))) = 922337203685477590%Z
  /\ calculate_cb_amount (S754_finite false 1 (-1074)) = Ok 0%Z
  /\ exact_reward (F64.to_Q (S754_finite false 1 (-1074))) = 10%Z.
Proof. repeat split; vm_compute; reflexivity. Qed.

(* ================================================================== *)
(** * The ranker on a single cluster *)
(* ================================================================== *)

Section SingleCluster.

Context {P : Pandas} {PC : PandasContract P}.

Lemma group_keys_repeat (c n : nat) : group_keys (repeat c (S n)) = [c].
Proof.
  pose proof (group_keys_NoDup (repeat c (S n))) as Hnd.
  assert (Hin : forall x, In x (group_keys (repeat c (S n))) <-> x = c).
  { intros x. rewrite group_keys_In. split.
    - intros H. apply repeat_spec in H. assumption.
    - intros ->. left. reflexivity. }
  destruct (group_keys (repeat c (S n))) as [|a [|b l]].
  - exfalso. apply (proj2 (Hin c) eq_refl).
  - f_equal. apply Hin. left. reflexivity.
  - exfalso. inversion Hnd as [|? ? Ha _]; subst. apply Ha.
    rewrite (proj1 (Hin a) (or_introl eq_refl)).
    rewrite (proj1 (Hin b) (or_intror (or_introl eq_refl))).
    left. reflexivity.
Qed.

(** X12. When every user has the same label, as in the degenerate
    result of the engine, the ranker puts every user in the final
    cluster 1. *)
Theorem relabel_single_cluster (c n : nat) (metric : list float) :
  relabel (repeat c n) metric = repeat (Some 1) n.
Proof.
  destruct n as [|n]; [reflexivity|].
  unfold relabel, cluster_mapping, temp_summary.
  rewrite group_keys_repeat. cbn [map].
  set (row := (c, pd_mean (group_values (Nat.eqb c) (repeat c (S n)) metric))).
  pose proof (sort_permutation [row]) as Hperm.
  apply Permutation_sym in Hperm. apply Permutation_length_1_inv in Hperm.
  rewrite Hperm. cbn [map fst length seq combine].
  rewrite map_repeat. f_equal.
  unfold dict_get. cbn [rev app find fst row]. rewrite Nat.eqb_refl. reflexivity.
Qed.

End SingleCluster.

Lemma relabel_single_cluster_witness :
  relabel (P := Ref.pandas_stable) (repeat 0 3) [Sample.f 30; Sample.f 10; Sample.f 20]
  = repeat (Some 1) 3.
Proof.
  apply (relabel_single_cluster (P := Ref.pandas_stable) 0 3).
Defined.

(* ================================================================== *)
(** * Whole numbers in binary64 *)
(* ================================================================== *)

(** Sums, differences and products of whole numbers below [2 ^ 53] are
    computed without rounding. *)

Section WholeNumbers.

Local Open Scope Z_scope.
Import Rounding.














End WholeNumbers.

Section WholeArithmetic.

Local Open Scope Z_scope.
Import Rounding.












End WholeArithmetic.

(* ================================================================== *)
(** * Square roots and quotients of whole numbers *)
(* ================================================================== *)

Section RootAndQuotient.

Local Open Scope Z_scope.
Import Rounding.






End RootAndQuotient.

Section ExactValue.

Import Rounding.



End ExactValue.

(* ================================================================== *)
(** * The elbow on a curve of whole-number costs *)
(* ================================================================== *)


Section ElbowOnWholeCosts.

Local Open Scope Z_scope.
Import Rounding.

Variables K z1 zK : Z.
Hypothesis HK : 1 <= K <= 2 ^ 20.
Hypothesis Hz1 : 0 <= z1 <= 2 ^ 26.
Hypothesis HzK : 0 <= zK <= 2 ^ 26.

Let p1 : point := (F64.of_Z 1, F64.of_Z z1).
Let p2 : point := (F64.of_Z K, F64.of_Z zK).






Variables (my : positive) (ey : Z).
Hypothesis Hden : denominator p1 p2 = S754_finite false my ey.
Hypothesis Hmy : 2 ^ 52 <= Z.pos my < 2 ^ 53.
Hypothesis Hey : -52 <= ey <= 0.

Let V (n : Z) : Z := round_to 0 (n * 2 ^ (1074 - ey)) (Z.pos my).





End ElbowOnWholeCosts.

Section ExactDistance.

Local Open Scope R_scope.



End ExactDistance.

Section ElbowScan.





End ElbowScan.

Section SelectorElbow.

Context {L : Numpy} {LC : NumpyContract L}.


End SelectorElbow.

(* ================================================================== *)
(** * The elbow on the sample inputs *)
(* ================================================================== *)


